(** * analog_gauge_reader: the detection-and-estimation pipeline

    A shallow embedding of [_image_processing.py] and of the main loop of
    [_analog_gauge_reader.py], followed by the properties of the dial
    locator, the dial stabiliser, the needle detector, the value converter
    and the alert watchdogs.  Around the pipeline, the file also embeds what
    is drawn on the annotated image, the choice of the frame source, the
    checks of [__main__.py], [send_warning] and the request handlers of the
    debug viewer.

    Numbers.  The code computes with binary64 floats ([float],
    [np.float64]), with binary32 floats for what the circle detection
    returns ([np.float32]) and with 32-bit integers for the endpoints of the
    detected segments ([np.int32]).  Three models of this arithmetic are
    used, each where it fits.

    - In [Numpy], [ImageProcessing] and [GaugeReader] numbers are real
      numbers and no operation rounds.  Where numpy would produce NaN (mean
      or median of nothing) or Python would raise (division by zero) the
      functions return [None].  Properties of order, of range and of the
      control flow are stated on this model.
    - In [Rounded] numbers are real numbers and every operation rounds its
      result.  The rounding functions are parameters; the theorems assume
      of them the standard model of floating-point arithmetic, a relative
      error of at most [u] per operation, which IEEE 754 arithmetic
      satisfies with [u = 2^-53] (binary64) and [u = 2^-24] (binary32) as
      long as nothing overflows or underflows.  With [u = 0] this is the
      first model.  32-bit integers wrap around.
    - In [Binary] numbers are primitive binary64 floats, rounded to binary32
      where numpy computes in that type.  It evaluates the code on given
      inputs, bit for bit.

    Pixel values and array indices are integers. *)

From Stdlib Require Import Floats.
From Stdlib Require Import Reals Lra Lia ZArith List Bool Sorted Permutation.
From Stdlib Require Uint63.
From Stdlib Require String Ascii.
Import ListNotations.
Import String.StringSyntax.
Delimit Scope string_scope with string.

Set Warnings "-inexact-float".

Open Scope R_scope.

(** ** numpy *)

Module Numpy.

Definition Rsum (l : list R) : R := fold_right Rplus 0 l.

(** [np.mean] over a one-dimensional array; NaN on an empty one. *)
Definition mean (l : list R) : option R :=
  match l with
  | [] => None
  | _ :: _ => Some (Rsum l / INR (length l))
  end.

(** [np.average(a, weights=w)]: [sum(a*w) / sum(w)];
    [ZeroDivisionError] when the weights sum to zero. *)
Definition average (a w : list R) : option R :=
  let scl := Rsum w in
  if Req_dec_T scl 0 then None
  else Some (Rsum (map (fun p => fst p * snd p) (combine a w)) / scl).

Fixpoint insert_sorted (v : R) (l : list R) : list R :=
  match l with
  | [] => [v]
  | h :: t => if Rle_dec v h then v :: l else h :: insert_sorted v t
  end.

Definition sort (l : list R) : list R := fold_right insert_sorted [] l.

(** [np.median] over a one-dimensional array: the middle element of the
    sorted data, or the mean of the two middle ones; NaN when empty. *)
Definition median (l : list R) : option R :=
  let s := sort l in
  let n := length s in
  match n with
  | O => None
  | _ =>
    if Nat.even n
    then Some ((nth (n / 2 - 1) s 0 + nth (n / 2) s 0) / 2)
    else Some (nth (n / 2) s 0)
  end.

(** [np.arctan2(y, x)], the angle of the point [(x, y)] in (-pi, pi]. *)
Definition arctan2 (y x : R) : R :=
  if Rlt_dec 0 x then atan (y / x)
  else if Rlt_dec x 0 then
    if Rle_dec 0 y then atan (y / x) + PI else atan (y / x) - PI
  else if Rlt_dec 0 y then PI / 2
  else if Rlt_dec y 0 then - (PI / 2)
  else 0.

End Numpy.

(** ** Python built-ins used by the loop *)

Module Py.

(** [while len(l) > n: del l[0]].  Deleting from an empty list raises
    [IndexError], which can only happen for a negative [n]. *)
Fixpoint trim {A : Type} (n : Z) (l : list A) : option (list A) :=
  match l with
  | [] => if (0 >? n)%Z then None else Some []
  | _ :: t => if (Z.of_nat (length l) >? n)%Z then trim n t else Some l
  end.

(** [int(x)] on a float: truncation towards zero. *)
Definition int (x : R) : Z :=
  if Rle_dec 0 x then Int_part x else (- Int_part (- x))%Z.

End Py.

(** ** OpenCV: arrays, and the capabilities the pipeline calls *)

Module Cv2.

(** A grayscale frame: rows of 8-bit pixels. *)
Definition Image := list (list Z).

Definition height (img : Image) : Z := Z.of_nat (length img).
Definition width (img : Image) : Z :=
  match img with [] => 0%Z | row :: _ => Z.of_nat (length row) end.

(** Arrays are objects: a name holds a reference, and drawing calls write
    through it.  The heap maps references to arrays. *)
Definition ref := nat.
Definition Heap := list Image.

Definition load (h : Heap) (p : ref) : Image := nth p h [].

Fixpoint store (h : Heap) (p : ref) (img : Image) : Heap :=
  match h, p with
  | [], _ => []
  | _ :: t, O => img :: t
  | a :: t, S p' => a :: store t p' img
  end.

Definition alloc (h : Heap) (img : Image) : ref * Heap :=
  (length h, h ++ [img]).

(** A detected circle [(x, y, r)] and a detected segment
    [(x1, y1, x2, y2)].  The detectors return pixel coordinates, circles as
    binary32 floats and segments as 32-bit integers; the pipeline only
    computes with them, so they are numbers here. *)
Definition Circle := (R * R * R)%type.
Definition Line := (R * R * R * R)%type.

Inductive LineType := LINE_8 | LINE_AA.

(** The external image operations.  Their results are not specified here.
    Each returns a new array, except [circle], which draws into the array it
    is given: the functions below store its result in that array's cell.
    [cv2.circle] raises on a negative radius; [circle] is what it draws for
    the others. *)
Record Capability := {
  medianBlur : Image -> Z -> Image;
  GaussianBlur : Image -> Z -> Image;
  Canny : Image -> Z -> Z -> Image;
  adaptiveThreshold : Image -> Image;
  otsu_level : Image -> Z;
  (* filled circle (thickness -1): array, centre, radius, colour *)
  circle : Image -> Z * Z -> Z -> Z -> LineType -> Image;
  (* array, minRadius, maxRadius; result of shape (1, k, 3), or None when
     nothing is found *)
  HoughCircles : Image -> Z -> Z -> option (list (list Circle));
  (* array, minLineLength; result of shape (n, 1, 4) or None *)
  HoughLinesP : Image -> R -> option (list (list Line))
}.

Definition map_pixels (f : Z -> Z) (img : Image) : Image :=
  map (map f) img.

(** [cv2.threshold(src, thresh, 255, type)], the array result. *)
Definition THRESH_BINARY (thresh : Z) (img : Image) : Image :=
  map_pixels (fun p => if (p >? thresh)%Z then 255%Z else 0%Z) img.
Definition THRESH_BINARY_INV (thresh : Z) (img : Image) : Image :=
  map_pixels (fun p => if (p >? thresh)%Z then 0%Z else 255%Z) img.
Definition THRESH_TOZERO (thresh : Z) (img : Image) : Image :=
  map_pixels (fun p => if (p >? thresh)%Z then p else 0%Z) img.

(** [255*np.ones_like(img)] *)
Definition ones_like_255 (img : Image) : Image :=
  map_pixels (fun _ => 255%Z) img.

(** [cv2.bitwise_or] of two arrays of one shape. *)
Definition bitwise_or (a b : Image) : Image :=
  map (fun rows => map (fun p => Z.lor (fst p) (snd p))
                       (combine (fst rows) (snd rows)))
      (combine a b).

End Cv2.

(** ** _image_processing.py *)

Module ImageProcessing.
Import Numpy Cv2.

Module ThresholdMode.
Inductive t := none | binary | gray | gauss | otsu.
End ThresholdMode.

Definition Rltb (a b : R) : bool := if Rlt_dec a b then true else false.

Definition dist_2_pts (x1 y1 x2 y2 : R) : R :=
  sqrt ((x2 - x1) ^ 2 + (y2 - y1) ^ 2).

(** What [detect_dial] hands back for [x, y, r]. *)
Inductive dial :=
| DialNone                 (* x, y and r are None *)
| Dial (x y r : R)
| DialRaise.               (* ValueError: unpacking, or int() of NaN *)

Definition mean_circle (row : list Circle) : option Circle :=
  match mean (map (fun c => fst (fst c)) row),
        mean (map (fun c => snd (fst c)) row),
        mean (map (fun c => snd c) row) with
  | Some x, Some y, Some r => Some (x, y, r)
  | _, _, _ => None
  end.

(** Lines 88-100: [np.mean(circles, axis=1).flatten()] unpacks into three
    names only for a single outer row. *)
Definition average_circles (circles : option (list (list Circle))) : dial :=
  match circles with
  | None => DialNone
  | Some [] => DialNone
  | Some [row] =>
      match mean_circle row with
      | Some (x, y, r) => Dial x y r
      | None => DialRaise
      end
  | Some (_ :: _ :: _) => DialRaise
  end.

Definition detect_dial (cv : Capability) (gray : Image)
    (use_filter : bool) (blur_size : Z) (min_diameter max_diameter : R)
    : dial :=
  let '(height, width) := (height gray, width gray) in
  let gray := if use_filter then medianBlur cv gray blur_size else gray in
  let r_max := IZR (Z.min height width) * 0.5 in
  let circles := HoughCircles cv gray (Py.int (r_max * min_diameter))
                                      (Py.int (r_max * max_diameter)) in
  average_circles circles.

Definition apply_threshold (cv : Capability) (gray : Image)
    (threshold_mode : option ThresholdMode.t) (threshold blur_size : Z)
    : Image :=
  match threshold_mode with
  | None | Some ThresholdMode.binary => THRESH_BINARY_INV threshold gray
  | Some ThresholdMode.gray => THRESH_TOZERO threshold gray
  | Some ThresholdMode.gauss => adaptiveThreshold cv gray
  | Some ThresholdMode.otsu =>
      let gray := GaussianBlur cv gray blur_size in
      THRESH_BINARY (otsu_level cv gray) gray
  | Some ThresholdMode.none => gray
  end.

(** The acceptance test of one segment (lines 359-371). *)
Definition qualifies (x y r min_length
    r_inner_min r_inner_max r_outer_min r_outer_max : R) (l : Line) : bool :=
  let '(x1, y1, x2, y2) := l in
  let length := dist_2_pts x1 y1 x2 y2 in
  if Rlt_dec length (min_length * r) then false
  else
    let diff1 := dist_2_pts x y x1 y1 in
    let diff2 := dist_2_pts x y x2 y2 in
    let '(diff1, diff2) :=
      if Rgt_dec diff1 diff2 then (diff2, diff1) else (diff1, diff2) in
    (Rltb (r_inner_min * r) diff1 && Rltb diff1 (r_inner_max * r))
    && (Rltb (r_outer_min * r) diff2 && Rltb diff2 (r_outer_max * r)).

(** The overlay drawing on [img] is left out: it writes to the debug
    image only. *)
Definition filter_lines_for_needle (lines : list (list Line))
    (x y r min_length r_inner_min r_inner_max r_outer_min r_outer_max : R)
    : list Line :=
  filter (qualifies x y r min_length
                    r_inner_min r_inner_max r_outer_min r_outer_max)
         (concat lines).

Inductive needle_status :=
| NoLines              (* 'no lines from Hough transform detected' *)
| TooMany (n : nat)    (* 'found n possible candidates for needle; ...' *)
| NoNeedle             (* 'no lines after filtering for valid needle positions' *)
| Angle (final_angle_rad : R)
| AverageRaise.        (* ZeroDivisionError out of np.average *)

(** Lines 317-331: direction of one candidate, from its farther endpoint. *)
Definition candidate_angle (x y : R) (l : Line) : R :=
  let '(x1, y1, x2, y2) := l in
  let dist_pt_1 := dist_2_pts x y x1 y1 in
  let dist_pt_2 := dist_2_pts x y x2 y2 in
  let ang :=
    if Rgt_dec dist_pt_1 dist_pt_2
    then arctan2 (- (x1 - x)) (y1 - y)
    else arctan2 (- (x2 - x)) (y2 - y) in
  if Rlt_dec ang 0 then ang + 2 * PI else ang.

Definition candidate_length (l : Line) : R :=
  let '(x1, y1, x2, y2) := l in dist_2_pts x1 y1 x2 y2.

(** Lines 289-337 of [get_needle_angle]: from the detected segments to the
    returned status. *)
Definition angle_from_lines (lines : option (list (list Line)))
    (x y r r_inner_min r_inner_max r_outer_min r_outer_max : R)
    : needle_status :=
  match lines with
  | None => NoLines
  | Some lines =>
    let final_line_list :=
      filter_lines_for_needle lines x y r 0.2
        r_inner_min r_inner_max r_outer_min r_outer_max in
    if (75 <? length final_line_list)%nat
    then TooMany (length final_line_list)
    else
      match final_line_list with
      | [] => NoNeedle
      | _ :: _ =>
        match average (map (candidate_angle x y) final_line_list)
                      (map candidate_length final_line_list) with
        | Some final_angle_rad => Angle final_angle_rad
        | None => AverageRaise
        end
      end
  end.

(** Lines 266-287 of [get_needle_angle]: masking, thresholding and line
    extraction.  [gray] is the reference the caller passed.  Every
    intermediate result gets a cell of its own; nothing writes to those
    cells afterwards. *)
Definition detect_lines (cv : Capability) (h : Heap) (gray : ref)
    (x y r : R) (threshold : Z) (use_filter : bool) (blur_size : Z)
    (min_line_length : R) (threshold_mode : option ThresholdMode.t)
    (r_inner_min r_outer_max : R)
    : option (list (list Line)) * ref * Heap :=
  let centre := (Py.int x, Py.int y) in
  (* cv2.circle(gray, ...) draws into the array [gray] refers to *)
  let h := store h gray
             (circle cv (load h gray) centre (Py.int (r * r_inner_min))
                     255 LINE_AA) in
  (* the mask is a new array *)
  let '(mask, h) :=
    alloc h (circle cv (ones_like_255 (load h gray)) centre
                    (Py.int (r * r_outer_max)) 0 LINE_8) in
  (* from here on the local name is bound to new arrays *)
  let '(gray, h) := alloc h (bitwise_or (load h gray) (load h mask)) in
  let '(gray, h) :=
    alloc h (apply_threshold cv (load h gray) threshold_mode
                             threshold blur_size) in
  let after_threshold := gray in
  let '(gray, h) :=
    if use_filter then
      let '(gray, h) := alloc h (medianBlur cv (load h gray) blur_size) in
      let '(gray, h) := alloc h (Canny cv (load h gray) 50 150) in
      alloc h (GaussianBlur cv (load h gray) blur_size)
    else (gray, h) in
  (HoughLinesP cv (load h gray) min_line_length, after_threshold, h).

(** [get_needle_angle]: the status, the post-threshold debug image and the
    heap it leaves.  The overlay image is left out. *)
Definition get_needle_angle (cv : Capability) (h : Heap) (gray : ref)
    (x y r : R) (threshold : Z) (use_filter : bool) (blur_size : Z)
    (min_line_length : R) (threshold_mode : option ThresholdMode.t)
    (r_inner_min r_inner_max r_outer_min r_outer_max : R)
    : needle_status * ref * Heap :=
  let '(lines, after_threshold, h) :=
    detect_lines cv h gray x y r threshold use_filter blur_size
                 min_line_length threshold_mode r_inner_min r_outer_max in
  (angle_from_lines lines x y r
                    r_inner_min r_inner_max r_outer_min r_outer_max,
   after_threshold, h).

End ImageProcessing.

(** ** _analog_gauge_reader.py *)

Module GaugeReader.
Import Numpy Cv2 ImageProcessing.

(** [angle2value].  [None] stands for the division by zero: Python floats
    raise [ZeroDivisionError], numpy scalars give inf or NaN; neither is a
    number. *)
Definition angle2value (min_angle max_angle min_value max_value angle : R)
    : option R :=
  let angle_range := max_angle - min_angle in
  let value_range := max_value - min_value in
  if Req_dec_T angle_range 0 then None
  else Some (min_value + ((angle - min_angle) * value_range) / angle_range).

(** A warning threshold: a float, which the command line defaults to
    minus or plus infinity.  [main] itself defaults both thresholds to
    [None], with which the comparison of line 309 raises a [TypeError]; the
    model covers the calls that give both, as [__main__] always does. *)
Inductive bound := NegInf | Fin (v : R) | PosInf.

(** [a <= b] and [a >= b] for a number [a] and a threshold [b]. *)
Definition le_bound (a : R) (b : bound) : bool :=
  match b with
  | NegInf => false
  | Fin v => if Rle_dec a v then true else false
  | PosInf => true
  end.
Definition ge_bound (a : R) (b : bound) : bool :=
  match b with
  | NegInf => true
  | Fin v => if Rge_dec a v then true else false
  | PosInf => false
  end.

(** The parameters of [main] that the core reads. *)
Record Config := {
  min_angle : option R;
  max_angle : option R;
  min_value : option R;
  max_value : option R;
  min_warn : bound;
  max_warn : bound;
  warn_interval : R;
  warn_no_detections_s : R;
  r_inner_min : R;
  r_inner_max : R;
  r_outer_min : R;
  r_outer_max : R;
  threshold : Z;
  threshold_mode : option ThresholdMode.t;
  blur_size : Z;
  min_measurement_interval : option R;
  median_filter_dial_position_N : Z;
  median_filter_value_N : Z
}.

(** The variables [main] keeps across iterations (lines 177-183). *)
Record State := {
  debug_export_number : Z;
  last_warn_time : R;
  calibration_lst : list Circle;
  values_lst : list R;
  avg : option R;                       (* None is np.nan *)
  loop_start_time : R;
  last_successful_detection_time : R
}.

Definition set_debug_export_number (v : Z) (s : State) : State :=
  {| debug_export_number := v; last_warn_time := last_warn_time s;
     calibration_lst := calibration_lst s; values_lst := values_lst s;
     avg := avg s; loop_start_time := loop_start_time s;
     last_successful_detection_time := last_successful_detection_time s |}.
Definition set_last_warn_time (v : R) (s : State) : State :=
  {| debug_export_number := debug_export_number s; last_warn_time := v;
     calibration_lst := calibration_lst s; values_lst := values_lst s;
     avg := avg s; loop_start_time := loop_start_time s;
     last_successful_detection_time := last_successful_detection_time s |}.
Definition set_calibration_lst (v : list Circle) (s : State) : State :=
  {| debug_export_number := debug_export_number s;
     last_warn_time := last_warn_time s;
     calibration_lst := v; values_lst := values_lst s;
     avg := avg s; loop_start_time := loop_start_time s;
     last_successful_detection_time := last_successful_detection_time s |}.
Definition set_values_lst (v : list R) (s : State) : State :=
  {| debug_export_number := debug_export_number s;
     last_warn_time := last_warn_time s;
     calibration_lst := calibration_lst s; values_lst := v;
     avg := avg s; loop_start_time := loop_start_time s;
     last_successful_detection_time := last_successful_detection_time s |}.
Definition set_avg (v : option R) (s : State) : State :=
  {| debug_export_number := debug_export_number s;
     last_warn_time := last_warn_time s;
     calibration_lst := calibration_lst s; values_lst := values_lst s;
     avg := v; loop_start_time := loop_start_time s;
     last_successful_detection_time := last_successful_detection_time s |}.
Definition set_loop_start_time (v : R) (s : State) : State :=
  {| debug_export_number := debug_export_number s;
     last_warn_time := last_warn_time s;
     calibration_lst := calibration_lst s; values_lst := values_lst s;
     avg := avg s; loop_start_time := v;
     last_successful_detection_time := last_successful_detection_time s |}.
Definition set_last_successful_detection_time (v : R) (s : State) : State :=
  {| debug_export_number := debug_export_number s;
     last_warn_time := last_warn_time s;
     calibration_lst := calibration_lst s; values_lst := values_lst s;
     avg := avg s; loop_start_time := loop_start_time s;
     last_successful_detection_time := v |}.

(** *** The outside world: the clock and the alert sink *)

Inductive Warning :=
| OutOfRange (avg : R)            (* the templated message, with the median *)
| NoMeasurement (since : R).      (* 'No measurement since ...' *)

(** [clock k] is what the [k]-th call of [time.time()] returns; [sent] is
    the sequence of [send_warning] calls so far. *)
Record World := {
  clock : nat -> R;
  ticks : nat;
  sent : list Warning
}.

Definition M (A : Type) : Type := World -> A * World.
Definition ret {A} (a : A) : M A := fun w => (a, w).
Definition bind {A B} (c : M A) (k : A -> M B) : M B :=
  fun w => let '(a, w') := c w in k a w'.

Declare Scope io_scope.
Delimit Scope io_scope with io.
Notation "x <- c ;; k" := (bind c (fun x => k))
  (at level 61, c at next level, right associativity) : io_scope.
Notation "c ;;; k" := (bind c (fun _ => k))
  (at level 61, right associativity) : io_scope.
Local Open Scope io_scope.

Definition time_time : M R :=
  fun w => (clock w (ticks w),
            {| clock := clock w; ticks := S (ticks w); sent := sent w |}).

Definition send_warning (msg : Warning) : M unit :=
  fun w => (tt, {| clock := clock w; ticks := ticks w;
                   sent := sent w ++ [msg] |}).

(** [time.sleep]: the passing of time shows in later clock readings. *)
Definition time_sleep (d : R) : M unit := ret tt.

(** Lines 177-183. *)
Definition init (cfg : Config) : M State :=
  t0 <- time_time ;;
  t1 <- time_time ;;
  ret {| debug_export_number := 0;
         last_warn_time := t0 - warn_interval cfg;
         calibration_lst := [];
         values_lst := [];
         avg := None;
         loop_start_time := 0;
         last_successful_detection_time := t1 |}.

(** *** One iteration of the main loop *)

Definition median_axis0 (l : list Circle) : option Circle :=
  match median (map (fun c => fst (fst c)) l),
        median (map (fun c => snd (fst c)) l),
        median (map (fun c => snd c) l) with
  | Some x, Some y, Some r => Some (x, y, r)
  | _, _, _ => None
  end.

(** Lines 223-228: the median filter over the dial position.  [None] is
    an exception that is not a [DetectionError]. *)
Definition stabilize (N : Z) (calibration_lst : list Circle) (raw : Circle)
    : option (list Circle * Circle) :=
  if (N >? 1)%Z then
    match Py.trim N (calibration_lst ++ [raw]) with
    | Some lst =>
        match median_axis0 lst with
        | Some m => Some (lst, m)
        | None => None
        end
    | None => None
    end
  else Some (calibration_lst, raw).

Inductive detection_error :=
| NoCirclesFound                     (* 'No circles found' *)
| NeedleNotFound (s : needle_status).  (* the string get_needle_angle returned *)

(** How lines 214-263 end: with a value, with a [DetectionError], with a
    value that is no number, or with another exception, which leaves
    [main].  The list is [calibration_lst] as the lines leave it: they write
    no other loop variable.

    [NotANumber] is the outcome of a scale with [max_angle = min_angle]:
    the needle angle is a numpy scalar, so the division gives inf or NaN
    instead of raising, and [main] goes on with that value in its history.
    Real numbers have no such value, and the model does not follow the run
    any further. *)
Inductive measured :=
| Value (value : R) (calibration_lst : list Circle)
| DetectionError (e : detection_error) (calibration_lst : list Circle)
| NotANumber
| Uncaught.

(** Line 232: [draw_dial] raises a [TypeError] for a scale that has
    [min_value] and lacks one of the other three bounds ([np.linspace] of
    [None], or [None - min_value] in [angle2value]). *)
Definition draw_dial_raises (cfg : Config) : bool :=
  match min_value cfg with
  | None => false
  | Some _ =>
      match min_angle cfg, max_angle cfg, max_value cfg with
      | Some _, Some _, Some _ => false
      | _, _, _ => true
      end
  end.

Definition convert (cfg : Config) (needle_angle : R) : option R :=
  match min_angle cfg, max_angle cfg, min_value cfg, max_value cfg with
  | Some a0, Some a1, Some v0, Some v1 =>
      angle2value a0 a1 v0 v1 (needle_angle * 180 / PI)
  | _, _, _, _ => Some (needle_angle * 180 / PI)
  end.

(** Lines 214-263 for one frame, given as its grayscale array.  What is
    drawn on the annotated image (the dial, the needle, the texts) is left
    out, but not the exception [draw_dial] can raise; the value sinks and
    the debug server are left out, which [main] only calls with [post_url],
    [mqtt_broker] and [port] set.  None of them writes a loop variable.
    The detected circles are taken to have radii that [cv2.circle] accepts
    (it raises on a negative one). *)
Definition measure (cfg : Config) (cv : Capability) (gray : Image)
    (calibration_lst : list Circle) : measured :=
  match detect_dial cv gray true 5 0.4 0.9 with
  | DialRaise => Uncaught
  | DialNone => DetectionError NoCirclesFound calibration_lst
  | Dial x y r =>
    match stabilize (median_filter_dial_position_N cfg)
                    calibration_lst (x, y, r) with
    | None => Uncaught
    | Some (calibration_lst, (x, y, r)) =>
      if draw_dial_raises cfg then Uncaught
      else
        let '(needle_angle, _, _) :=
          get_needle_angle cv [gray] 0%nat x y r (threshold cfg) false
            (blur_size cfg) 10 (threshold_mode cfg)
            (r_inner_min cfg) (r_inner_max cfg)
            (r_outer_min cfg) (r_outer_max cfg) in
        match needle_angle with
        | Angle a =>
            match convert cfg a with
            | Some value => Value value calibration_lst
            | None => NotANumber
            end
        | AverageRaise => Uncaught
        | s => DetectionError (NeedleNotFound s) calibration_lst
        end
    end
  end.

Definition out_of_range (cfg : Config) (avg : option R) : bool :=
  match avg with
  | Some a => le_bound a (min_warn cfg) || ge_bound a (max_warn cfg)
  | None => false
  end.

(** Lines 302-317: the value history, the out-of-range alert and the
    reset of the watchdog. *)
Definition process_value (cfg : Config) (value : R) (st : State)
    : M (option State) :=
  match Py.trim (median_filter_value_N cfg) (values_lst st ++ [value]) with
  | None => ret None
  | Some lst =>
    let st := set_values_lst lst st in
    st <- (if (Z.of_nat (length lst) >=? median_filter_value_N cfg)%Z then
             now <- time_time ;;
             if Rltb (last_warn_time st + warn_interval cfg) now then
               let st := set_avg (median lst) st in
               match avg st with
               | Some a =>
                   if out_of_range cfg (avg st) then
                     send_warning (OutOfRange a) ;;;
                     t <- time_time ;;
                     ret (set_last_warn_time t st)
                   else ret st
               | None => ret st
               end
             else ret st
           else ret st) ;;
    t <- time_time ;;
    ret (Some (set_last_successful_detection_time t st))
  end.

(** Lines 346-351: the warning after a long series of non-detections. *)
Definition watchdog (cfg : Config) (st : State) : M State :=
  t1 <- time_time ;;
  if Rltb (last_successful_detection_time st + warn_no_detections_s cfg) t1
  then
    t2 <- time_time ;;
    if Rltb (last_warn_time st + warn_interval cfg) t2 then
      t3 <- time_time ;;
      send_warning (NoMeasurement (last_successful_detection_time st)) ;;;
      ret (set_last_warn_time t3 st)
    else ret st
  else ret st.

Definition truthy (x : option R) : bool :=
  match x with
  | Some v => if Req_dec_T v 0 then false else true
  | None => false
  end.

(** Lines 190-193: the pause that keeps iterations
    [min_measurement_interval] apart. *)
Definition rate_limit (cfg : Config) (st : State) : M unit :=
  if truthy (min_measurement_interval cfg) then
    match min_measurement_interval cfg with
    | Some d =>
        t <- time_time ;;
        time_sleep (Rmax 0 (loop_start_time st + d - t))
    | None => ret tt
    end
  else ret tt.

(** The body of the [for] loop (lines 190-351) for one frame.  The result
    is [None] when the run leaves what the model follows: an exception
    other than [DetectionError] leaves [main], or the value is no number. *)
Definition iteration (cfg : Config) (cv : Capability) (gray : Image)
    (st : State) : M (option State) :=
  rate_limit cfg st ;;;
  t <- time_time ;;
  let st := set_loop_start_time t st in
  r <- (match measure cfg cv gray (calibration_lst st) with
        | Value value lst =>
            process_value cfg value (set_calibration_lst lst st)
        | DetectionError _ lst =>
            let st := set_calibration_lst lst st in
            ret (Some (set_debug_export_number
                         ((debug_export_number st + 1) mod 10) st))
        | NotANumber | Uncaught => ret None
        end) ;;
  match r with
  | Some st => st <- watchdog cfg st ;; ret (Some st)
  | None => ret None
  end.

(** The loop over the frames the source yields; it ends when the frames
    are exhausted or an exception leaves it. *)
Fixpoint loop (cfg : Config) (cv : Capability) (frames : list Image)
    (st : State) : M (option State) :=
  match frames with
  | [] => ret (Some st)
  | gray :: rest =>
      r <- iteration cfg cv gray st ;;
      match r with
      | Some st => loop cfg cv rest st
      | None => ret None
      end
  end.

(** [main] with [test_warning] unset, on the frames [get_image] yields. *)
Definition main (cfg : Config) (cv : Capability) (frames : list Image)
    : M (option State) :=
  st <- init cfg ;;
  loop cfg cv frames st.

End GaugeReader.

(** ** Arithmetic with rounding

    The functions of the code whose results depend on rounding, once more,
    with every operation rounded.  [single] and [double] give the binary32
    and the binary64 number that an operation with the given exact result
    returns; [pow2] and [pow_half] are [b ** 2] and [b ** 0.5] on binary64,
    which numpy hands to the C library.

    The types of the results are those of numpy 2, where a Python number
    takes the type of the numpy number it meets.  numpy 1 computes the
    product of a Python float and a binary32 number in binary64 and the
    square of a 32-bit integer in 64 bits: that is these definitions with
    the binary64 rounding for [single], on segments whose squares do not
    wrap. *)

Module Rounded.
Import Cv2 ImageProcessing.

Record Arithmetic := {
  single : R -> R;
  double : R -> R;
  pow2 : R -> R;
  pow_half : R -> R
}.

(** Arithmetic that does not round. *)
Definition exact : Arithmetic :=
  {| single := fun t => t;
     double := fun t => t;
     pow2 := fun b => b * b;
     pow_half := sqrt |}.

(** Arithmetic whose every result is too large by the relative error [u]. *)
Definition inflating (u : R) : Arithmetic :=
  {| single := fun t => t * (1 + u);
     double := fun t => t * (1 + u);
     pow2 := fun b => b * b * (1 + u);
     pow_half := fun b => sqrt b * (1 + u) |}.

(** [angle2value] on Python floats.  [None] is the [ZeroDivisionError]. *)
Definition angle2value (F : Arithmetic)
    (min_angle max_angle min_value max_value angle : R) : option R :=
  let angle_range := double F (max_angle - min_angle) in
  let value_range := double F (max_value - min_value) in
  if Req_dec_T angle_range 0 then None
  else Some (double F
               (min_value
                + double F (double F (double F (angle - min_angle)
                                      * value_range)
                            / angle_range))).

(** [np.mean] along the axis of the circles: the binary32 values are added
    up one after the other, starting from the first, and the sum is
    divided by their number, all in binary32. *)
Definition sum (F : Arithmetic) (l : list R) : R :=
  match l with
  | [] => 0
  | v :: t => fold_left (fun acc w => single F (acc + w)) t v
  end.

Definition mean (F : Arithmetic) (l : list R) : option R :=
  match l with
  | [] => None
  | _ :: _ => Some (single F (sum F l / INR (length l)))
  end.

Definition mean_circle (F : Arithmetic) (row : list Circle)
    : option Circle :=
  match mean F (map (fun c => fst (fst c)) row),
        mean F (map (fun c => snd (fst c)) row),
        mean F (map (fun c => snd c) row) with
  | Some x, Some y, Some r => Some (x, y, r)
  | _, _, _ => None
  end.

Definition average_circles (F : Arithmetic)
    (circles : option (list (list Circle))) : dial :=
  match circles with
  | None => DialNone
  | Some [] => DialNone
  | Some [row] =>
      match mean_circle F row with
      | Some (x, y, r) => Dial x y r
      | None => DialRaise
      end
  | Some (_ :: _ :: _) => DialRaise
  end.

Definition detect_dial (F : Arithmetic) (cv : Capability) (gray : Image)
    (use_filter : bool) (blur_size : Z) (min_diameter max_diameter : R)
    : dial :=
  let '(height, width) := (height gray, width gray) in
  let gray := if use_filter then medianBlur cv gray blur_size else gray in
  let r_max := double F (IZR (Z.min height width) * 0.5) in
  let circles :=
    HoughCircles cv gray (Py.int (double F (r_max * min_diameter)))
                         (Py.int (double F (r_max * max_diameter))) in
  average_circles F circles.

(** A 32-bit integer: the value between -2^31 and 2^31 - 1 that differs
    from [n] by a multiple of 2^32. *)
Definition wrap32 (n : Z) : Z :=
  ((n + 2147483648) mod 4294967296 - 2147483648)%Z.

(** A segment as [cv2.HoughLinesP] returns it: four 32-bit integers. *)
Definition IntLine := (Z * Z * Z * Z)%type.

(** [dist_2_pts] between the endpoints of a segment: the differences, the
    squares and their sum are 32-bit integers, the power is binary64.
    [None] is the NaN that a negative sum gives. *)
Definition length_2_pts (F : Arithmetic) (x1 y1 x2 y2 : Z) : option R :=
  let s := wrap32 (wrap32 (wrap32 (x2 - x1) ^ 2)
                   + wrap32 (wrap32 (y2 - y1) ^ 2)) in
  if (s <? 0)%Z then None else Some (pow_half F (IZR s)).

(** [dist_2_pts] between the centre, binary32, and an endpoint: the
    difference of a 32-bit integer and a binary32 number is binary64, and
    so is all that follows. *)
Definition dist_2_pts (F : Arithmetic) (x y : R) (x1 y1 : Z) : R :=
  pow_half F (double F (pow2 F (double F (IZR x1 - x))
                        + pow2 F (double F (IZR y1 - y)))).

(** The product of a bound, a Python float, and the radius, binary32: numpy
    converts the bound to binary32 and multiplies in binary32. *)
Definition scaled (F : Arithmetic) (bound r : R) : R :=
  single F (single F bound * r).

(** The acceptance test of one segment (lines 359-371).  A comparison with
    NaN is false, so a segment whose length is NaN is not skipped. *)
Definition qualifies (F : Arithmetic) (x y r min_length
    r_inner_min r_inner_max r_outer_min r_outer_max : R) (l : IntLine)
    : bool :=
  let '(x1, y1, x2, y2) := l in
  let too_short :=
    match length_2_pts F x1 y1 x2 y2 with
    | Some length => Rltb length (scaled F min_length r)
    | None => false
    end in
  if too_short then false
  else
    let diff1 := dist_2_pts F x y x1 y1 in
    let diff2 := dist_2_pts F x y x2 y2 in
    let '(diff1, diff2) :=
      if Rgt_dec diff1 diff2 then (diff2, diff1) else (diff1, diff2) in
    (Rltb (scaled F r_inner_min r) diff1
     && Rltb diff1 (scaled F r_inner_max r))
    && (Rltb (scaled F r_outer_min r) diff2
        && Rltb diff2 (scaled F r_outer_max r)).

Definition filter_lines_for_needle (F : Arithmetic)
    (lines : list (list IntLine))
    (x y r min_length r_inner_min r_inner_max r_outer_min r_outer_max : R)
    : list IntLine :=
  filter (qualifies F x y r min_length
                    r_inner_min r_inner_max r_outer_min r_outer_max)
         (concat lines).

End Rounded.

(** ** Binary floating-point arithmetic

    The same functions on primitive binary64 floats.  [single] rounds a
    binary64 number to the nearest binary32 number, ties to even, for
    numbers in the normal range of binary32; an operation on binary32
    numbers is the binary64 operation followed by [single].  [b ** 2] is
    [b * b] and [b ** 0.5] is the square root, which is what the C library
    returns where these are binary64 numbers. *)

Module Binary.
Local Open Scope float_scope.

Definition two52 : float := 4503599627370496.

Definition single (x : float) : float :=
  if (is_nan x || is_infinity x || is_zero x)%bool then x
  else
    let '(m, e) := Z.frexp (abs x) in
    let scaled := Z.ldexp m 24 in
    let rounded := (scaled + two52) - two52 in
    let y := Z.ldexp rounded (e - 24) in
    if x <? 0 then - y else y.

Definition of_Z (z : Z) : float :=
  match z with
  | Z0 => 0
  | Zpos _ => of_uint63 (Uint63.of_Z z)
  | Zneg p => - of_uint63 (Uint63.of_Z (Zpos p))
  end.

(** The real number a finite float stands for. *)
Definition to_R (f : float) : R :=
  match Prim2SF f with
  | S754_finite s m e =>
      let v := if (0 <=? e)%Z then IZR (Z.pos m * 2 ^ e)
               else (IZR (Z.pos m) / IZR (2 ^ (- e)))%R in
      if s then (- v)%R else v
  | _ => 0%R
  end.

Definition angle2value
    (min_angle max_angle min_value max_value angle : float) : option float :=
  let angle_range := max_angle - min_angle in
  let value_range := max_value - min_value in
  if angle_range =? 0 then None
  else Some (min_value + ((angle - min_angle) * value_range) / angle_range).

Definition Circle := (float * float * float)%type.

Definition sum (l : list float) : float :=
  match l with
  | [] => 0
  | v :: t => fold_left (fun acc w => single (acc + w)) t v
  end.

Definition mean (l : list float) : option float :=
  match l with
  | [] => None
  | _ :: _ => Some (single (sum l / of_Z (Z.of_nat (length l))))
  end.

Inductive dial :=
| DialNone
| Dial (x y r : float)
| DialRaise.

(** Lines 88-100 of [detect_dial], from the circles found. *)
Definition average_circles (circles : option (list (list Circle))) : dial :=
  match circles with
  | None => DialNone
  | Some [] => DialNone
  | Some [row] =>
      match mean (map (fun c => fst (fst c)) row),
            mean (map (fun c => snd (fst c)) row),
            mean (map (fun c => snd c) row) with
      | Some x, Some y, Some r => Dial x y r
      | _, _, _ => DialRaise
      end
  | Some (_ :: _ :: _) => DialRaise
  end.

Definition length_2_pts (x1 y1 x2 y2 : Z) : float :=
  PrimFloat.sqrt (of_Z (Rounded.wrap32
                (Rounded.wrap32 (Rounded.wrap32 (x2 - x1) ^ 2)
                 + Rounded.wrap32 (Rounded.wrap32 (y2 - y1) ^ 2)))).

Definition dist_2_pts (x y : float) (x1 y1 : Z) : float :=
  let dx := of_Z x1 - x in
  let dy := of_Z y1 - y in
  PrimFloat.sqrt (dx * dx + dy * dy).

Definition scaled (bound r : float) : float := single (single bound * r).

Definition qualifies (x y r min_length
    r_inner_min r_inner_max r_outer_min r_outer_max : float)
    (l : Rounded.IntLine) : bool :=
  let '(x1, y1, x2, y2) := l in
  let length := length_2_pts x1 y1 x2 y2 in
  if length <? scaled min_length r then false
  else
    let diff1 := dist_2_pts x y x1 y1 in
    let diff2 := dist_2_pts x y x2 y2 in
    let '(diff1, diff2) :=
      if diff2 <? diff1 then (diff2, diff1) else (diff1, diff2) in
    ((scaled r_inner_min r <? diff1) && (diff1 <? scaled r_inner_max r))
    && ((scaled r_outer_min r <? diff2) && (diff2 <? scaled r_outer_max r)).

Definition filter_lines_for_needle (lines : list (list Rounded.IntLine))
    (x y r min_length
     r_inner_min r_inner_max r_outer_min r_outer_max : float)
    : list Rounded.IntLine :=
  filter (qualifies x y r min_length
                    r_inner_min r_inner_max r_outer_min r_outer_max)
         (concat lines).

End Binary.

(** ** Definitions used in the statements *)

Module Statements.
Import Numpy Cv2 ImageProcessing GaugeReader.

(** The acceptance rule in the words of the design: long enough, the
    nearer endpoint in the inner band, the farther one in the outer band. *)
Definition spec_qualifies (x y r min_length
    r_inner_min r_inner_max r_outer_min r_outer_max : R) (l : Line) : Prop :=
  let '(x1, y1, x2, y2) := l in
  let d1 := Rmin (dist_2_pts x y x1 y1) (dist_2_pts x y x2 y2) in
  let d2 := Rmax (dist_2_pts x y x1 y1) (dist_2_pts x y x2 y2) in
  dist_2_pts x1 y1 x2 y2 >= min_length * r
  /\ (r_inner_min * r < d1 /\ d1 < r_inner_max * r)
  /\ (r_outer_min * r < d2 /\ d2 < r_outer_max * r).

Definition swap_endpoints (l : Line) : Line :=
  let '(x1, y1, x2, y2) := l in (x2, y2, x1, y1).

(** [(xe, ye)] is an endpoint of [l] at least as far from [(x, y)] as the
    other one. *)
Definition farther_endpoint (x y : R) (l : Line) (xe ye : R) : Prop :=
  let '(x1, y1, x2, y2) := l in
  (xe = x1 /\ ye = y1 /\ dist_2_pts x y x1 y1 >= dist_2_pts x y x2 y2)
  \/ (xe = x2 /\ ye = y2 /\ dist_2_pts x y x2 y2 >= dist_2_pts x y x1 y1).

(** The distance between two points of the plane. *)
Definition distance (x y px py : R) : R :=
  sqrt ((px - x) * (px - x) + (py - y) * (py - y)).






(** An angle from [arctan2] moved into [0, 2*pi). *)
Definition wrap (ang : R) : R := if Rlt_dec ang 0 then ang + 2 * PI else ang.

(** The mean of [a] weighted by [w]. *)
Definition weighted_mean (a w : list R) : R :=
  Rsum (map (fun p => fst p * snd p) (combine a w)) / Rsum w.

(** The last [n] elements of a list. *)
Definition lastn {A : Type} (n : nat) (l : list A) : list A :=
  skipn (length l - n) l.


Definition cx (c : Circle) : R := fst (fst c).
Definition cy (c : Circle) : R := snd (fst c).
Definition cr (c : Circle) : R := snd c.

(** A configuration with the four calibration bounds given. *)
Definition calibrated (a0 a1 v0 v1 : R) (cfg : Config) : Config :=
  {| min_angle := Some a0; max_angle := Some a1;
     min_value := Some v0; max_value := Some v1;
     min_warn := min_warn cfg; max_warn := max_warn cfg;
     warn_interval := warn_interval cfg;
     warn_no_detections_s := warn_no_detections_s cfg;
     r_inner_min := r_inner_min cfg; r_inner_max := r_inner_max cfg;
     r_outer_min := r_outer_min cfg; r_outer_max := r_outer_max cfg;
     threshold := threshold cfg; threshold_mode := threshold_mode cfg;
     blur_size := blur_size cfg;
     min_measurement_interval := min_measurement_interval cfg;
     median_filter_dial_position_N := median_filter_dial_position_N cfg;
     median_filter_value_N := median_filter_value_N cfg |}.

(** Whether [process_value] sends the out-of-range alert, given the value
    history [lst] it has just updated and the clock reading [now]. *)
Definition alert_due (cfg : Config) (st : State) (lst : list R) (now : R)
    : bool :=
  (Z.of_nat (length lst) >=? median_filter_value_N cfg)%Z
  && Rltb (last_warn_time st + warn_interval cfg) now
  && out_of_range cfg (median lst).

(** The out-of-range alerts among the alerts sent. *)
Definition is_out_of_range (m : Warning) : bool :=
  match m with OutOfRange _ => true | NoMeasurement _ => false end.

Definition out_of_range_alerts (l : list Warning) : list Warning :=
  filter is_out_of_range l.

(** The indices of the clock readings of lines 195 and 306 in an iteration
    that starts in the world [w]: the reading of line 193 comes first when
    [min_measurement_interval] is set. *)
Definition line_195 (cfg : Config) (w : World) : nat :=
  (ticks w + (if truthy (min_measurement_interval cfg) then 1 else 0))%nat.

Definition line_306 (cfg : Config) (w : World) : nat :=
  (ticks w + (if truthy (min_measurement_interval cfg) then 2 else 1))%nat.

(** Whether the silence watchdog sends its alert (lines 347-348), given the
    two clock readings it compares. *)
Definition silence_alert_due (cfg : Config) (st : State) (t1 t2 : R)
    : bool :=
  Rltb (last_successful_detection_time st + warn_no_detections_s cfg) t1
  && Rltb (last_warn_time st + warn_interval cfg) t2.

(** [m] is at or below, at or above, a warning threshold. *)
Definition at_or_below (m : R) (b : bound) : Prop :=
  match b with NegInf => False | Fin v => m <= v | PosInf => True end.
Definition at_or_above (m : R) (b : bound) : Prop :=
  match b with NegInf => True | Fin v => m >= v | PosInf => False end.

End Statements.

(** ** Concrete inputs *)

Module Examples.
Import Numpy Cv2 ImageProcessing GaugeReader.

(** A filled disc, as an instance of the drawing capability. *)
Definition fill_disc (img : Image) (c : Z * Z) (rad color : Z)
    (_ : LineType) : Image :=
  map (fun prow =>
         map (fun pp =>
                let px := Z.of_nat (fst pp) in
                let py := Z.of_nat (fst prow) in
                if ((px - fst c) * (px - fst c)
                    + (py - snd c) * (py - snd c) <=? rad * rad)%Z
                then color else snd pp)
             (combine (seq 0 (length (snd prow))) (snd prow)))
      (combine (seq 0 (length img)) img).

(** Capabilities that return prescribed detections. *)
Definition scripted (circles : option (list (list Circle)))
    (lines : option (list (list Line))) : Capability :=
  {| medianBlur := fun img _ => img;
     GaussianBlur := fun img _ => img;
     Canny := fun img _ _ => img;
     adaptiveThreshold := fun img => img;
     otsu_level := fun _ => 128%Z;
     circle := fill_disc;
     HoughCircles := fun _ _ _ => circles;
     HoughLinesP := fun _ _ => lines |}.

(** The defaults of [main], with finite warning thresholds, both median
    filters switched to a window of one, and no calibration. *)
Definition cfg0 : Config :=
  {| min_angle := None; max_angle := None;
     min_value := None; max_value := None;
     min_warn := Fin 5; max_warn := Fin 300;
     warn_interval := 600;
     warn_no_detections_s := 1800;
     r_inner_min := 0.15; r_inner_max := 0.6;
     r_outer_min := 0.65; r_outer_max := 1;
     threshold := 175; threshold_mode := None;
     blur_size := 5;
     min_measurement_interval := None;
     median_filter_dial_position_N := 1;
     median_filter_value_N := 1 |}.

(** One circle of radius 100 around the origin, and one segment from the
    hub band to the rim band, pointing straight down. *)
Definition one_circle : option (list (list Circle)) := Some [[(0, 0, 100)]].
Definition needle_down : option (list (list Line)) :=
  Some [[(0, 20, 0, 80)]].

(** Raw dial triples for the stabiliser. *)
Definition two_pushes : list Circle := [(1, 2, 3); (4, 5, 6)].
Definition third_push : Circle := (7, 8, 9).

Definition blank : Image := [[0; 0; 0]; [0; 0; 0]; [0; 0; 0]]%Z.

(** A frame that is white throughout. *)
Definition white : Image :=
  [[255; 255; 255]; [255; 255; 255]; [255; 255; 255]]%Z.


Definition st0 : State :=
  {| debug_export_number := 0;
     last_warn_time := 0;
     calibration_lst := [];
     values_lst := [];
     avg := None;
     loop_start_time := 0;
     last_successful_detection_time := 0 |}.

(** The same with a full history whose median, 0, is below [min_warn]. *)
Definition st_full : State :=
  {| debug_export_number := 0;
     last_warn_time := 0;
     calibration_lst := [];
     values_lst := [0];
     avg := None;
     loop_start_time := 0;
     last_successful_detection_time := 0 |}.

Definition world (now : nat -> R) : World :=
  {| clock := now; ticks := 0; sent := [] |}.

End Examples.

(** ** Definitions used in the statements on rounding *)

Module RoundedStatements.
Import Cv2 Rounded Statements.

(** The standard model of floating-point arithmetic: every operation
    returns its exact result up to a relative error of [u], the unit
    roundoff.  For [b ** 0.5] the exact result is the square root. *)
Definition standard_model (u : R) (F : Arithmetic) : Prop :=
  0 <= u < 1
  /\ (forall t, Rabs (single F t - t) <= u * Rabs t)
  /\ (forall t, Rabs (double F t - t) <= u * Rabs t)
  /\ (forall b, Rabs (pow2 F b - b * b) <= u * (b * b))
  /\ (forall b, 0 <= b -> Rabs (pow_half F b - sqrt b) <= u * sqrt b).

(** [x'] is [x] up to the relative error [e]. *)
Definition rel (e x x' : R) : Prop :=
  exists d, x' = x * (1 + d) /\ - e <= d <= e.

(** The arithmetic mean, and the mean of the absolute values. *)
Definition arithmetic_mean (l : list R) : R :=
  fold_right Rplus 0 l / INR (length l).

Definition mean_magnitude (l : list R) : R :=
  fold_right Rplus 0 (map Rabs l) / INR (length l).

(** By how much rounding can move the endpoint distances and the
    thresholds of the filter against each other: three roundings on either
    side. *)
Definition slack (u : R) : R := ((1 + u) / (1 - u)) ^ 3.

(** The endpoints of the segment are so close that no 32-bit integer in
    [dist_2_pts] wraps around. *)
Definition no_wrap (l : IntLine) : Prop :=
  let '(x1, y1, x2, y2) := l in
  (Z.abs (x2 - x1) <= 32767 /\ Z.abs (y2 - y1) <= 32767)%Z.

(** The acceptance rule in the words of the design, with every threshold
    moved by the factor [k] in favour of the segment ([k < 1]) or against
    it ([k > 1]). *)
Definition spec_qualifies_within (k : R) (x y r min_length
    r_inner_min r_inner_max r_outer_min r_outer_max : R) (l : IntLine)
    : Prop :=
  let '(x1, y1, x2, y2) := l in
  let length := distance (IZR x1) (IZR y1) (IZR x2) (IZR y2) in
  let d1 := Rmin (distance x y (IZR x1) (IZR y1))
                 (distance x y (IZR x2) (IZR y2)) in
  let d2 := Rmax (distance x y (IZR x1) (IZR y1))
                 (distance x y (IZR x2) (IZR y2)) in
  length >= k * (min_length * r)
  /\ (k * (r_inner_min * r) < d1 /\ k * d1 < r_inner_max * r)
  /\ (k * (r_outer_min * r) < d2 /\ k * d2 < r_outer_max * r).

End RoundedStatements.

Module RoundedExamples.
Import Cv2 Rounded.

(** Three circles around one centre. *)
Definition three_circles : list Circle :=
  [(100, 100, 100.5); (100, 100, 101); (100, 100, 102)].

(** The unit roundoff of binary32 and of binary64. *)
Definition u32 : R := / 16777216.
Definition u64 : R := / 9007199254740992.

End RoundedExamples.

Module BinaryExamples.
Local Open Scope float_scope.

Definition three_circles : list Binary.Circle :=
  [(100, 100, 100.5); (100, 100, 101); (100, 100, 102)].

End BinaryExamples.

(** ** Drawing: [draw_dial] *)

Module Drawing.
Import Numpy Cv2 GaugeReader.

(** [np.linspace(start, stop, num, endpoint=...)] for [num >= 0]. *)
Definition linspace (start stop : R) (num : nat) (endpoint : bool) : list R :=
  let div := if endpoint then (num - 1)%nat else num in
  map (fun i => if (div =? 0)%nat then start
                else start + INR i * ((stop - start) / INR div))
      (seq 0 num).

(** Lines 154-171 of [draw_dial] for one step: the inner end of the tick,
    its outer end and the anchor of its label, before [int()]. *)
Definition tick_points (x y r step_deg : R) : (R * R) * (R * R) * (R * R) :=
  let steps_rad := step_deg * PI / 180 in
  let x_c := sin (- steps_rad) in
  let y_c := cos (- steps_rad) in
  ((x + 0.9 * r * x_c, y + 0.9 * r * y_c),
   (x + r * x_c, y + r * y_c),
   (x + 1.2 * r * x_c, y + 1.2 * r * y_c)).

(** What [draw_dial] puts on the image for one step: [cv2.line] between
    the first two points and the label, written twice by [cv2.putText], at
    the third.  [text] is the number that the format ':g' turns into the
    label; [None] is the 'nan' that a scale with [max_angle = min_angle]
    gives.  The pixel positions are those of exact arithmetic: where a
    coordinate is a whole number in exact arithmetic, the binary64 result
    of the code can lie just below it and [int()] then gives the pixel
    before.  The properties below are about the number of ticks and their
    labels. *)
Record Tick := {
  line_from : Z * Z;
  line_to : Z * Z;
  text : option R;
  text_at : Z * Z
}.

Definition tick (getTextSize : option R -> Z * Z) (x y r text_scale : R)
    (step_deg : R) (label : option R) : Tick :=
  let '(p1, p2, p_text) := tick_points x y r step_deg in
  let '(w, h) := getTextSize label in
  {| line_from := (Py.int (fst p1), Py.int (snd p1));
     line_to := (Py.int (fst p2), Py.int (snd p2));
     text := label;
     text_at := (Py.int (fst p_text - IZR w / 2 * text_scale),
                 Py.int (snd p_text + IZR h / 2 * text_scale * 0)) |}.

(** [draw_dial]: the ticks drawn, in order.  [None] is an exception:
    [TypeError] for a scale given in part, [ValueError] for a negative
    [num].  [getTextSize] is the pixel size OpenCV reports for a label. *)
Definition draw_dial (getTextSize : option R -> Z * Z) (x y r text_scale : R)
    (num : option Z) (min_value max_value min_angle max_angle : option R)
    : option (list Tick) :=
  let falsy := match num with None => true | Some n => (n =? 0)%Z end in
  match min_value with
  | None =>
      let num := if falsy then 36%Z else match num with
                                          | Some n => n | None => 36%Z end in
      if (num <? 0)%Z then None
      else
        let steps_deg := linspace 0 360 (Z.to_nat num) false in
        Some (map (fun step => tick getTextSize x y r text_scale step
                                    (Some step))
                  steps_deg)
  | Some min_value =>
      let num := if falsy then 21%Z else match num with
                                          | Some n => n | None => 21%Z end in
      match min_angle, max_angle, max_value with
      | Some min_angle, Some max_angle, Some max_value =>
          if (num <? 0)%Z then None
          else
            let steps_deg :=
              linspace min_angle max_angle (Z.to_nat num) true in
            Some (map (fun step =>
                         tick getTextSize x y r text_scale step
                              (angle2value min_angle max_angle
                                           min_value max_value step))
                      steps_deg)
      | _, _, _ => None
      end
  end.

End Drawing.

(** ** Python strings

    Strings of 8-bit characters; [lower] is [str.lower] on ASCII text, which
    is what a URL is. *)

Module Str.

Definition lower_char (ch : Ascii.ascii) : Ascii.ascii :=
  let n := Ascii.N_of_ascii ch in
  if ((65 <=? n) && (n <=? 90))%N then Ascii.ascii_of_N (n + 32) else ch.

Fixpoint lower (s : String.string) : String.string :=
  match s with
  | String.EmptyString => String.EmptyString
  | String.String ch rest => String.String (lower_char ch) (lower rest)
  end.

(** [s.startswith(prefix)] *)
Fixpoint startswith (s prefix : String.string) {struct prefix} : bool :=
  match prefix, s with
  | String.EmptyString, _ => true
  | String.String p prefix, String.String c s =>
      Ascii.eqb c p && startswith s prefix
  | String.String _ _, String.EmptyString => false
  end.

(** [s[n:]] *)
Fixpoint drop (n : nat) (s : String.string) : String.string :=
  match n, s with
  | O, _ => s
  | S n, String.String _ s => drop n s
  | S _, String.EmptyString => s
  end.

(** [s[:n]] *)
Fixpoint take (n : nat) (s : String.string) : String.string :=
  match n, s with
  | S n, String.String c s => String.String c (take n s)
  | _, _ => String.EmptyString
  end.

(** [s[-n:]] for [n > 0]: the last [n] characters, or all of a shorter
    string. *)
Definition last (n : nat) (s : String.string) : String.string :=
  drop (String.length s - n) s.

(** [s[a:-b]] for [b > 0]: from index [a] up to [b] characters before the
    end; empty when these cross. *)
Definition slice (a b : nat) (s : String.string) : String.string :=
  take (String.length s - b - a) (drop a s).

End Str.

(** ** The frame source: the head of [get_image] *)

Module Acquisition.

(** Where [get_image] takes its frames from, or the [RuntimeError] it
    raises when the first frame is asked for. *)
Inductive source :=
| Download (url : String.string)       (* requests.get(url), for ever *)
| Files (pattern : String.string)      (* glob.glob(pattern), once each *)
| Camera (cam_id : Z)                  (* cv2.VideoCapture(cam_id), for ever *)
| EitherUrlOrCamera                    (* line 72 *)
| NotUnderstandable.                   (* line 127 *)

Definition is_none {A : Type} (o : option A) : bool :=
  match o with None => true | Some _ => false end.

Definition get_image (url : option String.string) (cam_id : option Z)
    : source :=
  if (is_none url && is_none cam_id)
     || (negb (is_none url) && negb (is_none cam_id))
  then EitherUrlOrCamera
  else
    match url with
    | Some u =>
        if Str.startswith (Str.lower u) "http"%string then Download u
        else if Str.startswith (Str.lower u) "file://"%string
             then Files (Str.drop 7 u)
             else match cam_id with
                  | Some c => Camera c
                  | None => NotUnderstandable
                  end
    | None =>
        match cam_id with
        | Some c => Camera c
        | None => NotUnderstandable
        end
    end.

(** The default of [main] for [cam_id] (line 131). *)
Definition main_cam_id_default : option Z := Some 0%Z.

End Acquisition.

(** ** __main__.py: the checks between the parser and [main] *)

Module CommandLine.
Import Acquisition.

(** Lines 115-117: [parser.error] unless all four bounds of the scale are
    given or none is. *)
Definition scale_error (min_value max_value min_angle max_angle : option R)
    : bool :=
  let scale := [min_value; max_value; min_angle; max_angle] in
  negb (forallb is_none scale || forallb (fun val => negb (is_none val)) scale).

(** Lines 119-120: [parser.error] unless exactly one of the two sources is
    given. *)
Definition source_error (url : option String.string) (cam_id : option Z)
    : bool :=
  (is_none url && is_none cam_id)
  || (negb (is_none url) && negb (is_none cam_id)).

End CommandLine.

(** ** _warnings.py *)

Module Warnings.

(** What [send_warning] does to the outside, in order. *)
Inductive output :=
| Stderr (s : String.string)             (* print(s, file=sys.stderr) *)
| LoggerWarning (s : String.string)      (* logger.warning(s) *)
| Sendxmpp (recipients : list String.string) (input : String.string).
                                         (* the subprocess, fed on stdin *)

(** [logging.WARNING] *)
Definition WARNING : Z := 30.

Definition nonempty (s : String.string) : bool :=
  match s with String.EmptyString => false | String.String _ _ => true end.

(** [send_warning]; [level] is [logger.level] and [sendxmpp] gives what the
    subprocess writes to its standard output and error. *)
Definition send_warning (level : Z)
    (sendxmpp : list String.string -> String.string
                -> String.string * String.string)
    (msg : String.string) (no_send : bool)
    (xmpp_recipients : option (list String.string)) : list output :=
  (if (level >? WARNING)%Z then [Stderr msg] else [LoggerWarning msg])
  ++ match xmpp_recipients with
     | Some recipients =>
         if negb no_send && (0 <? length recipients)%nat then
           let '(stdout_data, stderr_data) := sendxmpp recipients msg in
           Sendxmpp recipients msg
           :: (if (level >? WARNING)%Z then
                 [Stderr stdout_data; Stderr stderr_data]
               else
                 (if nonempty stdout_data then [LoggerWarning stdout_data]
                  else [])
                 ++ (if nonempty stderr_data then [LoggerWarning stderr_data]
                     else []))
         else []
     | None => []
     end.

(** The three calls in [main]: the test warning (line 150), the out-of-range
    alert (line 313) and the silence alert (line 351). *)
Definition test_warning_call (level : Z)
    (sendxmpp : list String.string -> String.string
                -> String.string * String.string)
    (test_warning : String.string)
    (xmpp_recipients : option (list String.string)) : list output :=
  send_warning level sendxmpp test_warning false xmpp_recipients.

Definition out_of_range_call (level : Z)
    (sendxmpp : list String.string -> String.string
                -> String.string * String.string)
    (msg : String.string) (no_warnings : bool)
    (xmpp_recipients : option (list String.string)) : list output :=
  send_warning level sendxmpp msg no_warnings xmpp_recipients.

Definition no_measurement_call (level : Z)
    (sendxmpp : list String.string -> String.string
                -> String.string * String.string)
    (msg : String.string) : list output :=
  send_warning level sendxmpp msg false None.

End Warnings.

(** ** _http_server.py and _http_request_handler.py: the debug viewer

    One request is handled at a time: every handler reads and writes
    [server_data] under the server's lock, or reads a key that is never
    removed.  Byte strings are strings of 8-bit characters.  The text
    stored under 'data' and 'time' is kept as the bytes it was decoded
    from, which [encode] gives back. *)

Module HttpServer.
Local Open Scope string_scope.

Definition bytes := String.string.

(** [server_data], a dict that only ever holds these five keys. *)
Record ServerData := {
  data : option bytes;
  time : option bytes;
  img : option bytes;
  debug_jpgs : option (list (String.string * bytes));
  last_time_debug_was_requested : option R
}.

(** [self.server_data = {}] *)
Definition empty : ServerData :=
  {| data := None; time := None; img := None; debug_jpgs := None;
     last_time_debug_was_requested := None |}.

Inductive method := GET | POST | HEAD.

(** A request.  [content] is what [rfile.read(int(content_len))] returns,
    [None] when the Content-Length header is missing or no number, so that
    [int] raises. *)
Record Request := {
  command : method;
  path : String.string;
  client_address : String.string;
  content : option bytes
}.

(** The pages, whose text is left out. *)
Inductive body :=
| NoBody
| Raw (b : bytes)
| LivePage                         (* lines 62-90 *)
| WaitingForData                   (* 'Waiting for first data sample...' *)
| AvailableDebugImages (keys : list String.string)   (* line 149 *)
| DebugViewer                      (* lines 172-202 *)
| DebugWaiting                     (* 'Debug images are generated...' *)
| ErrorPage                        (* send_error *)
| Favicon.

(** The response: the status, the Content-Type header, whether
    [end_headers] was called, and the body. *)
Record Response := {
  status : Z;
  content_type : option String.string;
  headers_ended : bool;
  payload : body
}.

Definition eqb_any (s : String.string) (l : list String.string) : bool :=
  existsb (String.eqb s) l.

(** [HTTPRequestHandler.is_localhost] *)
Definition is_localhost (req : Request) : bool :=
  eqb_any (client_address req)
          ["127.0.0.1"; "127.0.0.2"; "::ffff:127.0.0.1"; "::1"]%string.

Fixpoint lookup (key : String.string) (d : list (String.string * bytes))
    : option bytes :=
  match d with
  | [] => None
  | (k, v) :: d => if String.eqb key k then Some v else lookup key d
  end.

Definition set_last_time (t : R) (sd : ServerData) : ServerData :=
  {| data := data sd; time := time sd; img := img sd;
     debug_jpgs := debug_jpgs sd;
     last_time_debug_was_requested := Some t |}.

Definition set_data (b : bytes) (sd : ServerData) : ServerData :=
  {| data := Some b; time := time sd; img := img sd;
     debug_jpgs := debug_jpgs sd;
     last_time_debug_was_requested := last_time_debug_was_requested sd |}.

Definition set_time (b : bytes) (sd : ServerData) : ServerData :=
  {| data := data sd; time := Some b; img := img sd;
     debug_jpgs := debug_jpgs sd;
     last_time_debug_was_requested := last_time_debug_was_requested sd |}.

Definition set_img (b : bytes) (sd : ServerData) : ServerData :=
  {| data := data sd; time := time sd; img := Some b;
     debug_jpgs := debug_jpgs sd;
     last_time_debug_was_requested := last_time_debug_was_requested sd |}.

Definition set_debug_jpgs (d : list (String.string * bytes))
    (sd : ServerData) : ServerData :=
  {| data := data sd; time := time sd; img := img sd;
     debug_jpgs := Some d;
     last_time_debug_was_requested := last_time_debug_was_requested sd |}.

Definition ok (ctype : String.string) (b : body) : Response :=
  {| status := 200; content_type := Some ctype; headers_ended := true;
     payload := b |}.

(** [HTTPRequestHandler.do_GET] *)
Definition base_do_GET (req : Request) : Response :=
  if String.eqb (path req) "/favicon.ico" then
    ok "image/vnd.microsoft.icon" Favicon
  else
    {| status := 404; content_type := None; headers_ended := true;
       payload := NoBody |}.

(** [HTTPRequestHandler.do_HEAD] *)
Definition do_HEAD : Response := ok "text/html" NoBody.

(** [DebugViewerRequestHandler.do_GET]; [now] is [time.time()]. *)
Definition do_GET (now : R) (req : Request) (sd : ServerData)
    : Response * ServerData :=
  let p := path req in
  if String.eqb p "/" then (ok "text/html" LivePage, sd)
  else if String.eqb p "/data" then
    match data sd with
    | Some d => (ok "text/plain" (Raw d), sd)
    | None => (ok "text/html" WaitingForData, sd)
    end
  else if String.eqb p "/result.jpg" || Str.startswith p "/result.jpg#" then
    match img sd with
    | Some d => (ok "image/jpeg" (Raw d), sd)
    | None =>
        ({| status := 503; content_type := Some "text/html;charset=utf-8";
            headers_ended := true; payload := ErrorPage |}, sd)
    end
  else if Str.startswith p "/debug/" && String.eqb (Str.last 4 p) ".jpg" then
    let sd := set_last_time now sd in
    match match debug_jpgs sd with
          | Some d => lookup (Str.slice 7 4 p) d
          | None => None
          end with
    | Some d => (ok "image/jpeg" (Raw d), sd)
    | None =>
        let keys := match debug_jpgs sd with
                    | Some d => map fst d
                    | None => []
                    end in
        ({| status := 503; content_type := Some "text/html";
            headers_ended := false;
            payload := AvailableDebugImages keys |}, sd)
    end
  else if String.eqb p "/debug" then
    let sd := set_last_time now sd in
    match debug_jpgs sd with
    | Some _ => (ok "text/html" DebugViewer, sd)
    | None => (ok "text/html" DebugWaiting, sd)
    end
  else if String.eqb p "/is_debug" then
    let last_time := match last_time_debug_was_requested sd with
                     | Some t => t
                     | None => 0
                     end in
    (ok "text/plain"
        (Raw (if Rlt_dec now (last_time + 10) then "1" else "0")), sd)
  else (base_do_GET req, sd).

(** [DebugViewerRequestHandler.do_POST].  [utf8] tells whether
    [post_body.decode()] succeeds and [pickle_loads] is [pickle.loads],
    [None] when it raises.  An exception after the 200 was sent leaves
    [server_data] as it was. *)
Definition do_POST (utf8 : bytes -> bool)
    (pickle_loads : bytes -> option (list (String.string * bytes)))
    (req : Request) (sd : ServerData) : Response * ServerData :=
  if negb (is_localhost req) then
    ({| status := 403; content_type := None; headers_ended := true;
        payload := NoBody |}, sd)
  else
    let resp := {| status := 200; content_type := None;
                   headers_ended := true; payload := NoBody |} in
    match content req with
    | None => (resp, sd)
    | Some post_body =>
        let p := path req in
        if String.eqb p "/data" then
          if utf8 post_body then (resp, set_data post_body sd)
          else (resp, sd)
        else if String.eqb p "/time" then
          if utf8 post_body then (resp, set_time post_body sd)
          else (resp, sd)
        else if String.eqb p "/img" then (resp, set_img post_body sd)
        else if String.eqb p "/debug" then
          match pickle_loads post_body with
          | Some d => (resp, set_debug_jpgs d sd)
          | None => (resp, sd)
          end
        else (resp, sd)
    end.

Definition handle (utf8 : bytes -> bool)
    (pickle_loads : bytes -> option (list (String.string * bytes)))
    (now : R) (req : Request) (sd : ServerData) : Response * ServerData :=
  match command req with
  | GET => do_GET now req sd
  | POST => do_POST utf8 pickle_loads req sd
  | HEAD => (do_HEAD, sd)
  end.

(** The requests of a run, each with the clock at its handling, served in
    order. *)
Fixpoint serve (utf8 : bytes -> bool)
    (pickle_loads : bytes -> option (list (String.string * bytes)))
    (reqs : list (R * Request)) (sd : ServerData) : ServerData :=
  match reqs with
  | [] => sd
  | (now, req) :: reqs =>
      serve utf8 pickle_loads reqs
            (snd (handle utf8 pickle_loads now req sd))
  end.

(** Line 332 of [main]: [bool(int(content))] of the answer to /is_debug,
    for the two answers the server gives; [None] stands for any other
    content. *)
Definition is_debug (resp : Response) : option bool :=
  match payload resp with
  | Raw b => if String.eqb b "0" then Some false
             else if String.eqb b "1" then Some true
             else None
  | _ => None
  end.

End HttpServer.

(** Requests named in the statements about the debug viewer. *)
Module HttpStatements.
Import HttpServer.
Local Open Scope string_scope.

Definition get (p : String.string) : Request :=
  {| command := GET; path := p; client_address := "::1"; content := None |}.

Definition local_post (p : String.string) (b : bytes) : Request :=
  {| command := POST; path := p; client_address := "::1";
     content := Some b |}.

(** A request that asks for the debug page or one of its images. *)
Definition asks_for_debug (req : Request) : bool :=
  match command req with
  | GET =>
      String.eqb (path req) "/debug"
      || (Str.startswith (path req) "/debug/"
          && String.eqb (Str.last 4 (path req)) ".jpg")
  | _ => false
  end.

(** The clock at the last request of the run that asked for the debug
    page, 0 when none did. *)
Fixpoint last_debug (reqs : list (R * Request)) (t : R) : R :=
  match reqs with
  | [] => t
  | (now, req) :: reqs =>
      last_debug reqs (if asks_for_debug req then now else t)
  end.

(** A request that may write the key: a POST from the local host to the
    given path. *)
Definition writes (p : String.string) (req : Request) : bool :=
  match command req with
  | POST => is_localhost req && String.eqb (path req) p
  | _ => false
  end.

End HttpStatements.

(** ** Further concrete inputs *)

Module MoreExamples.
Import GaugeReader.

(** The configuration of [Examples.cfg0] with a window of three values. *)
Definition cfg3 : Config :=
  {| min_angle := None; max_angle := None;
     min_value := None; max_value := None;
     min_warn := Fin 5; max_warn := Fin 300;
     warn_interval := 600;
     warn_no_detections_s := 1800;
     r_inner_min := 0.15; r_inner_max := 0.6;
     r_outer_min := 0.65; r_outer_max := 1;
     threshold := 175; threshold_mode := None;
     blur_size := 5;
     min_measurement_interval := None;
     median_filter_dial_position_N := 1;
     median_filter_value_N := 3 |}.

(** A history of two values, one of them far out. *)
Definition st_outlier : State :=
  set_values_lst [10; 1000] Examples.st0.

End MoreExamples.

(** ** Definitions used in the further properties *)

Module LoopStatements.
Import Numpy Cv2 ImageProcessing GaugeReader Statements.

(** The histories are within their windows and the export counter is a
    digit. *)
Definition bounded (cfg : Config) (st : State) : Prop :=
  ((0 <= median_filter_value_N cfg)%Z ->
   (Z.of_nat (length (values_lst st)) <= median_filter_value_N cfg)%Z)
  /\ (Z.of_nat (length (calibration_lst st))
      <= Z.max 0 (median_filter_dial_position_N cfg))%Z
  /\ (0 <= debug_export_number st < 10)%Z.

(** A scale the loop can run with: [min_value] is absent, or all four
    bounds are given and the angles differ.  With [min_value] and without
    one of the others, [draw_dial] on line 232 raises a [TypeError], which
    the loop does not catch. *)
Definition calibration_ok (cfg : Config) : Prop :=
  match min_value cfg with
  | None => True
  | Some _ =>
      match min_angle cfg, max_angle cfg, max_value cfg with
      | Some a0, Some a1, Some _ => a1 <> a0
      | _, _, _ => False
      end
  end.

(** The circle detection returns nothing, or one row of at least one circle,
    all with positive radii. *)
Definition circles_well_formed (cv : Capability) : Prop :=
  forall img lo hi,
    HoughCircles cv img lo hi = None
    \/ exists c row,
         HoughCircles cv img lo hi = Some [c :: row]
         /\ forall c', In c' (c :: row) -> 0 < cr c'.

(** No circle is found in any of the frames. *)
Definition no_dial_found (cv : Capability) (frames : list Image) : Prop :=
  forall gray, In gray frames -> detect_dial cv gray true 5 0.4 0.9 = DialNone.

(** Whether [lo <= a <= hi], and how many of the numbers do. *)
Definition between (lo hi a : R) : bool :=
  if Rle_dec lo a then if Rle_dec a hi then true else false else false.

Definition inside (lo hi : R) (l : list R) : nat :=
  length (filter (between lo hi) l).

(** The clock readings still to come lie within [warn_interval] of each
    other: none is more than [warn_interval] after an earlier one. *)
Definition within_interval (cfg : Config) (w : World) : Prop :=
  forall i j, (ticks w <= i <= j)%nat ->
              clock w j <= clock w i + warn_interval cfg.

(** No clock reading still to come is more than [warn_interval] after the
    last alert. *)
Definition quiet (cfg : Config) (st : State) (w : World) : Prop :=
  forall k, (ticks w <= k)%nat ->
            clock w k <= last_warn_time st + warn_interval cfg.

(** A step from [st] and [w] to [r] and [w'] that lets time pass and sends
    nothing, keeping the time of the last alert, or sends one alert, after
    which no further one is due; from a state in which none is due it sends
    nothing. *)
Definition at_most_one_alert (cfg : Config) (st : State) (w : World)
    (r : option State) (w' : World) : Prop :=
  clock w' = clock w /\ (ticks w <= ticks w')%nat
  /\ ((sent w' = sent w
       /\ forall st', r = Some st' -> last_warn_time st' = last_warn_time st)
      \/ ((exists a, sent w' = sent w ++ [a])
          /\ forall st', r = Some st' -> quiet cfg st' w'))
  /\ (quiet cfg st w -> sent w' = sent w).

End LoopStatements.

Module ImageStatements.
Import Cv2.

(** The pixel in row [i] and column [j], when the array has one. *)
Definition pixel (img : Image) (i j : nat) : option Z :=
  match nth_error img i with
  | Some row => nth_error row j
  | None => None
  end.

End ImageStatements.

Module DrawingStatements.

(** The number of ticks asked for: [num], or the default when [num] is
    absent or zero. *)
Definition ticks_requested (default : Z) (num : option Z) : Z :=
  match num with
  | None => default
  | Some n => if (n =? 0)%Z then default else n
  end.

End DrawingStatements.

Import Numpy Py Cv2 ImageProcessing GaugeReader Statements.

(** ** Deciding comparisons of given numbers *)

Ltac Rcases :=
  repeat match goal with
  | |- context [Rlt_dec ?a ?b] => destruct (Rlt_dec a b); try lra
  | |- context [Rle_dec ?a ?b] => destruct (Rle_dec a b); try lra
  | |- context [Rgt_dec ?a ?b] => destruct (Rgt_dec a b); try lra
  | |- context [Rge_dec ?a ?b] => destruct (Rge_dec a b); try lra
  | |- context [Req_dec_T ?a ?b] => destruct (Req_dec_T a b); try lra
  end.

(** Closes a goal about clock readings from an instance of the bound on
    the readings, whose index side condition is arithmetic. *)
Ltac lra_clock :=
  match goal with
  | H : (_ <= _ <= _)%nat -> _ |- _ =>
      let H' := fresh in
      assert (H' := H ltac:(lia)); lra
  end.

Lemma Rltb_true (a b : R) : Rltb a b = true <-> a < b.
Proof. unfold Rltb. destruct (Rlt_dec a b); split; intros; try easy. Qed.

Lemma Rltb_false (a b : R) : Rltb a b = false <-> b <= a.
Proof.
  unfold Rltb. destruct (Rlt_dec a b); split; intros; try easy; lra.
Qed.

(** ** Rounding errors *)

Import RoundedStatements.

Lemma Rabs_le_between (a b : R) : Rabs a <= b -> - b <= a <= b.
Proof. unfold Rabs. destruct (Rcase_abs a); lra. Qed.

Lemma rel_of_abs (u x x' : R) :
  0 <= u -> Rabs (x' - x) <= u * Rabs x -> rel u x x'.
Proof.
  intros Hu H. destruct (Req_dec x 0) as [-> | Hx].
  - rewrite Rabs_R0, Rmult_0_r in H.
    assert (Hz : x' - 0 = 0).
    { destruct (Req_dec (x' - 0) 0) as [E | E]; [exact E |].
      apply Rabs_pos_lt in E. exfalso. exact (Rlt_not_le _ _ E H). }
    exists 0. split; lra.
  - assert (Hpos : 0 < Rabs x) by now apply Rabs_pos_lt.
    exists ((x' - x) / x). split; [field; exact Hx |].
    assert (Hd : Rabs ((x' - x) / x) <= u).
    { unfold Rdiv. rewrite Rabs_mult, Rabs_inv.
      apply Rmult_le_reg_r with (Rabs x); [exact Hpos |].
      rewrite Rmult_assoc, Rinv_l by lra. lra. }
    apply Rabs_le_between in Hd. exact Hd.
Qed.

Lemma rel_abs (e x x' : R) : rel e x x' -> Rabs (x' - x) <= e * Rabs x.
Proof.
  intros (d & -> & Hd).
  replace (x * (1 + d) - x) with (d * x) by ring.
  rewrite Rabs_mult. apply Rmult_le_compat_r; [apply Rabs_pos |].
  apply Rabs_le. exact Hd.
Qed.

Lemma rel_exact (x : R) : rel 0 x x.
Proof. exists 0. split; lra. Qed.

Lemma rel_weaken (e e' x x' : R) : e <= e' -> rel e x x' -> rel e' x x'.
Proof. intros He (d & E & Hd). exists d. split; [exact E | lra]. Qed.

Lemma rel_mul (e1 e2 x x' y y' : R) :
  rel e1 x x' -> rel e2 y y' ->
  rel (e1 + e2 + e1 * e2) (x * y) (x' * y').
Proof.
  intros (d1 & -> & H1) (d2 & -> & H2).
  exists (d1 + d2 + d1 * d2). split; [ring |]. nra.
Qed.

Lemma rel_div (e1 e2 x x' y y' : R) :
  e2 < 1 -> y <> 0 -> rel e1 x x' -> rel e2 y y' ->
  rel ((e1 + e2) / (1 - e2)) (x / y) (x' / y').
Proof.
  intros He Hy (d1 & -> & H1) (d2 & -> & H2).
  assert (Hd2 : 0 < 1 + d2) by lra.
  exists ((d1 - d2) / (1 + d2)). split; [field; lra |].
  assert (Hi : 0 < / (1 + d2)) by now apply Rinv_0_lt_compat.
  assert (Hj : 0 < / (1 - e2)) by (apply Rinv_0_lt_compat; lra).
  assert (Hk : / (1 + d2) <= / (1 - e2))
    by (apply Rinv_le_contravar; lra).
  assert (He1 : 0 <= e1) by lra.
  assert (He2 : 0 <= e2) by lra.
  unfold Rdiv. split.
  - assert (- (e1 + e2) * / (1 + d2) <= (d1 - d2) * / (1 + d2)) by nra.
    assert (- (e1 + e2) * / (1 - e2) <= - (e1 + e2) * / (1 + d2)) by nra.
    lra.
  - assert ((d1 - d2) * / (1 + d2) <= (e1 + e2) * / (1 + d2)) by nra.
    assert ((e1 + e2) * / (1 + d2) <= (e1 + e2) * / (1 - e2)) by nra.
    lra.
Qed.

Lemma rel_nonzero (e x x' : R) : e < 1 -> x <> 0 -> rel e x x' -> x' <> 0.
Proof. intros He Hx (d & -> & Hd). nra. Qed.

Lemma rel_zero (e x' : R) : rel e 0 x' -> x' = 0.
Proof. intros (d & -> & _). ring. Qed.

Section StandardModel.
Variables (u : R) (F : Rounded.Arithmetic).
Hypothesis HF : standard_model u F.

Lemma unit_roundoff : 0 <= u < 1.
Proof. exact (proj1 HF). Qed.

Lemma rel_single (t : R) : rel u t (Rounded.single F t).
Proof.
  apply rel_of_abs; [exact (proj1 (proj1 HF)) | exact (proj1 (proj2 HF) t)].
Qed.

Lemma rel_double (t : R) : rel u t (Rounded.double F t).
Proof.
  apply rel_of_abs;
    [exact (proj1 (proj1 HF)) | exact (proj1 (proj2 (proj2 HF)) t)].
Qed.

Lemma double_zero : Rounded.double F 0 = 0.
Proof. apply (rel_zero u), rel_double. Qed.

Lemma single_zero : Rounded.single F 0 = 0.
Proof. apply (rel_zero u), rel_single. Qed.

(** Rounding to binary64 a result that is already off by [e]. *)
Lemma rel_round_double (e x x' : R) :
  0 <= e -> rel e x x' -> rel (e + u + e * u) x (Rounded.double F x').
Proof.
  intros He H. destruct (rel_double x') as (d & E & Hd).
  destruct (rel_mul e u x x' 1 (1 + d) H) as (d' & E' & Hd').
  { exists d. split; [ring | exact Hd]. }
  exists d'. split; [| exact Hd']. rewrite E. lra.
Qed.

Lemma rel_round_single (e x x' : R) :
  0 <= e -> rel e x x' -> rel (e + u + e * u) x (Rounded.single F x').
Proof.
  intros He H. destruct (rel_single x') as (d & E & Hd).
  destruct (rel_mul e u x x' 1 (1 + d) H) as (d' & E' & Hd').
  { exists d. split; [ring | exact Hd]. }
  exists d'. split; [| exact Hd']. rewrite E. lra.
Qed.

End StandardModel.

(** ** The value converter *)

(** The quotient [angle2value] adds to [min_value], up to five roundings
    and one division by a rounded number. *)
Lemma angle2value_quotient (F : Rounded.Arithmetic)
    (u min_angle max_angle min_value max_value angle : R) :
  standard_model u F -> u <= / 1000 -> max_angle <> min_angle ->
  Rounded.double F (max_angle - min_angle) <> 0
  /\ rel (6 * u / (1 + u))
         ((angle - min_angle) * (max_value - min_value)
          / (max_angle - min_angle))
         (Rounded.double F
            (Rounded.double F
               (Rounded.double F (angle - min_angle)
                * Rounded.double F (max_value - min_value))
             / Rounded.double F (max_angle - min_angle))).
Proof.
  intros HF Hu Hne. pose proof (unit_roundoff u F HF) as Hu0.
  assert (Har : max_angle - min_angle <> 0) by lra.
  pose proof (rel_double u F HF (max_angle - min_angle)) as Ra.
  split; [exact (rel_nonzero u _ _ (proj2 Hu0) Har Ra) |].
  pose proof (rel_double u F HF (angle - min_angle)) as Rd.
  pose proof (rel_double u F HF (max_value - min_value)) as Rv.
  pose proof (rel_mul _ _ _ _ _ _ Rd Rv) as Rp.
  apply (rel_round_double u F HF) in Rp; [| nra].
  pose proof (rel_div _ _ _ _ _ _ (proj2 Hu0) Har Rp Ra) as Rq.
  assert (Hinv : 0 < / (1 - u)) by (apply Rinv_0_lt_compat; lra).
  assert (Hinv1 : / (1 - u) * (1 - u) = 1) by (apply Rinv_l; lra).
  assert (Hinv' : 0 < / (1 + u)) by (apply Rinv_0_lt_compat; lra).
  assert (Hinv1' : / (1 + u) * (1 + u) = 1) by (apply Rinv_l; lra).
  set (e2 := u + u + u * u + u + (u + u + u * u) * u) in *.
  set (e3 := (e2 + u) / (1 - u)) in *.
  assert (He2 : 0 <= e2 <= 41 / 10 * u - u - (41 / 10) * u * u)
    by (unfold e2; nra).
  assert (He3 : 0 <= e3 <= 41 / 10 * u).
  { unfold e3, Rdiv. split; [nra |].
    apply Rmult_le_reg_r with (1 - u); [lra |].
    rewrite Rmult_assoc, Hinv1. lra. }
  apply (rel_round_double u F HF) in Rq; [| lra].
  apply (rel_weaken _ _ _ _) with (2 := Rq).
  unfold Rdiv. apply Rmult_le_reg_r with (1 + u); [lra |].
  rewrite Rmult_assoc, Hinv1'. nra.
Qed.

Lemma Rabs_error_sum (a b c e f : R) :
  Rabs a <= e -> Rabs b <= f -> c = a + b -> Rabs c <= e + f.
Proof.
  intros Ha Hb ->. eapply Rle_trans; [apply Rabs_triang |]. lra.
Qed.

(** C5 (as amended). [angle2value] evaluates
    [min_value + ((angle - min_angle) * (max_value - min_value))
    / (max_angle - min_angle)] in binary64, rounding after each of its six
    operations.  With [max_angle <> min_angle] and a unit roundoff [u] the
    result differs from the exact affine value [min_value + q] by at most
    [u * |min_value + q| + 6 * u * |q|], where [q] is the exact quotient; so
    at [max_angle] it is [max_value], and at the angular midpoint the value
    midpoint, up to that error.  At [min_angle] it is [min_value] exactly.
    Without rounding it is the affine map exactly.  For the scale
    0..270 -> 0..10 binary64 returns 0, 5 and 10 at 0, 135 and 270. *)
Theorem angle2value_affine (F : Rounded.Arithmetic)
    (u min_angle max_angle min_value max_value angle : R) :
  standard_model u F -> u <= / 1000 -> max_angle <> min_angle ->
  let q := (angle - min_angle) * (max_value - min_value)
           / (max_angle - min_angle) in
  (exists v,
     Rounded.angle2value F min_angle max_angle min_value max_value angle
     = Some v
     /\ Rabs (v - (min_value + q))
        <= u * Rabs (min_value + q) + 6 * u * Rabs q)
  /\ (exists v,
        Rounded.angle2value F min_angle max_angle min_value max_value
                            max_angle = Some v
        /\ Rabs (v - max_value)
           <= u * Rabs max_value + 6 * u * Rabs (max_value - min_value))
  /\ (exists v,
        Rounded.angle2value F min_angle max_angle min_value max_value
                            ((min_angle + max_angle) / 2) = Some v
        /\ Rabs (v - (min_value + max_value) / 2)
           <= u * Rabs ((min_value + max_value) / 2)
              + 6 * u * Rabs ((max_value - min_value) / 2))
  /\ (Rounded.double F min_value = min_value ->
      Rounded.angle2value F min_angle max_angle min_value max_value
                          min_angle = Some min_value)
  /\ Rounded.angle2value Rounded.exact
                         min_angle max_angle min_value max_value angle
     = Some (min_value + q)
  /\ angle2value min_angle max_angle min_value max_value angle
     = Some (min_value + q)
  /\ Binary.angle2value 0 270 0 10 0 = Some 0%float
  /\ Binary.angle2value 0 270 0 10 135 = Some 5%float
  /\ Binary.angle2value 0 270 0 10 270 = Some 10%float.
Proof.
  intros HF Hu Hne q.
  pose proof (unit_roundoff u F HF) as Hu0.
  assert (Hgen : forall a,
            exists v,
              Rounded.angle2value F min_angle max_angle min_value max_value a
              = Some v
              /\ Rabs (v - (min_value
                            + (a - min_angle) * (max_value - min_value)
                              / (max_angle - min_angle)))
                 <= u * Rabs (min_value
                              + (a - min_angle) * (max_value - min_value)
                                / (max_angle - min_angle))
                    + 6 * u * Rabs ((a - min_angle) * (max_value - min_value)
                                    / (max_angle - min_angle))).
  { intros a.
    destruct (angle2value_quotient F u min_angle max_angle min_value
                max_value a HF Hu Hne) as (Har & (dq & Eq & Hdq)).
    unfold Rounded.angle2value.
    destruct (Req_dec_T (Rounded.double F (max_angle - min_angle)) 0)
      as [E | _]; [contradiction |].
    eexists. split; [reflexivity |].
    rewrite Eq.
    set (qa := (a - min_angle) * (max_value - min_value)
               / (max_angle - min_angle)).
    destruct (rel_double u F HF (min_value + qa * (1 + dq)))
      as (d6 & E6 & Hd6).
    rewrite E6.
    assert (Hinv' : 0 < / (1 + u)) by (apply Rinv_0_lt_compat; lra).
    assert (Hinv1' : / (1 + u) * (1 + u) = 1) by (apply Rinv_l; lra).
    assert (Hb : Rabs (dq * (1 + d6)) <= 6 * u).
    { apply Rabs_le. unfold Rdiv in Hdq.
      set (k := / (1 + u)) in *. nra. }
    apply (Rabs_error_sum ((min_value + qa) * d6) (qa * (dq * (1 + d6))));
      [| | ring].
    - rewrite Rabs_mult, Rmult_comm.
      apply Rmult_le_compat_r; [apply Rabs_pos |]. now apply Rabs_le.
    - rewrite Rabs_mult, Rmult_comm.
      apply Rmult_le_compat_r; [apply Rabs_pos | exact Hb]. }
  assert (Hd : max_angle - min_angle <> 0) by lra.
  split; [apply Hgen |].
  split.
  { destruct (Hgen max_angle) as (v & Hv & Hb). exists v.
    split; [exact Hv |].
    replace (min_value + (max_angle - min_angle) * (max_value - min_value)
                         / (max_angle - min_angle))
      with max_value in Hb by (field; exact Hd).
    replace ((max_angle - min_angle) * (max_value - min_value)
             / (max_angle - min_angle))
      with (max_value - min_value) in Hb by (field; exact Hd).
    exact Hb. }
  split.
  { destruct (Hgen ((min_angle + max_angle) / 2)) as (v & Hv & Hb). exists v.
    split; [exact Hv |].
    replace (min_value + ((min_angle + max_angle) / 2 - min_angle)
                         * (max_value - min_value)
                         / (max_angle - min_angle))
      with ((min_value + max_value) / 2) in Hb by (field; exact Hd).
    replace (((min_angle + max_angle) / 2 - min_angle)
             * (max_value - min_value) / (max_angle - min_angle))
      with ((max_value - min_value) / 2) in Hb by (field; exact Hd).
    exact Hb. }
  split.
  { intros Hrep. unfold Rounded.angle2value.
    destruct (angle2value_quotient F u min_angle max_angle min_value
                max_value min_angle HF Hu Hne) as (Har & _).
    destruct (Req_dec_T (Rounded.double F (max_angle - min_angle)) 0)
      as [E | _]; [contradiction |].
    replace (min_angle - min_angle) with 0 by ring.
    rewrite (double_zero u F HF), Rmult_0_l, (double_zero u F HF).
    unfold Rdiv. rewrite Rmult_0_l, (double_zero u F HF), Rplus_0_r.
    now rewrite Hrep. }
  split.
  { unfold Rounded.angle2value, Rounded.exact. cbn [Rounded.double].
    destruct (Req_dec_T (max_angle - min_angle) 0) as [E | _];
      [contradiction | reflexivity]. }
  split.
  { unfold angle2value.
    destruct (Req_dec_T (max_angle - min_angle) 0) as [E | _];
      [contradiction | reflexivity]. }
  repeat split; vm_compute; reflexivity.
Qed.

Lemma inflating_standard (u : R) :
  0 <= u < 1 -> standard_model u (Rounded.inflating u).
Proof.
  intros Hu. split; [exact Hu |]. cbn.
  assert (Hm : forall t, Rabs (t * (1 + u) - t) <= u * Rabs t).
  { intros t. replace (t * (1 + u) - t) with (u * t) by ring.
    rewrite Rabs_mult, (Rabs_right u) by lra. lra. }
  repeat split; intros; try apply Hm.
  - replace (b * b * (1 + u) - b * b) with (u * (b * b)) by ring.
    rewrite Rabs_mult, (Rabs_right u) by lra.
    rewrite (Rabs_right (b * b)) by nra. lra.
  - replace (sqrt b * (1 + u) - sqrt b) with (u * sqrt b) by ring.
    pose proof (sqrt_pos b).
    rewrite Rabs_mult, (Rabs_right u), (Rabs_right (sqrt b)) by lra. lra.
Qed.

Lemma angle2value_affine_witness :
  exists v,
    Rounded.angle2value (Rounded.inflating RoundedExamples.u64)
                        0 270 0 10 135 = Some v
    /\ Rabs (v - (0 + (135 - 0) * (10 - 0) / (270 - 0)))
       <= RoundedExamples.u64 * Rabs (0 + (135 - 0) * (10 - 0) / (270 - 0))
          + 6 * RoundedExamples.u64
            * Rabs ((135 - 0) * (10 - 0) / (270 - 0)).
Proof.
  assert (Hu : 0 <= RoundedExamples.u64 < 1)
    by (unfold RoundedExamples.u64; lra).
  assert (Hs : RoundedExamples.u64 <= / 1000)
    by (unfold RoundedExamples.u64; lra).
  assert (Hne : 270 <> 0) by lra.
  exact (proj1 (angle2value_affine
                  (Rounded.inflating RoundedExamples.u64)
                  RoundedExamples.u64 0 270 0 10 135
                  (inflating_standard _ Hu) Hs Hne)).
Defined.

(** Evaluates [Binary.to_R] on given floats. *)
Ltac float_value :=
  unfold Binary.to_R;
  repeat match goal with
  | |- context [Prim2SF ?f] =>
      let v := eval vm_compute in (Prim2SF f) in
      change (Prim2SF f) with v
  end;
  cbv beta iota;
  repeat match goal with
  | |- context [(0 <=? ?e)%Z] =>
      let v := eval vm_compute in (0 <=? e)%Z in
      change (0 <=? e)%Z with v
  end;
  cbv beta iota;
  repeat match goal with
  | |- context [IZR (?a ^ ?b)] =>
      let v := eval vm_compute in (a ^ b)%Z in
      change (a ^ b)%Z with v
  | |- context [IZR (?a * ?b)] =>
      let v := eval vm_compute in (a * b)%Z in
      change (a * b)%Z with v
  end.

(** C5, the claim as stated fails: for the scale 0..3 -> 0..0.1 the code
    returns, at [max_angle = 3], the binary64 number next above
    [max_value = 0.1], where the affine map gives [max_value]. *)
Lemma angle2value_affine_counterexample :
  Binary.angle2value 0 3 0 0.1 3 = Some 0.10000000000000002%float
  /\ Binary.to_R 0.10000000000000002 > Binary.to_R 0.1
  /\ Binary.to_R 0 + (Binary.to_R 3 - Binary.to_R 0)
                     * (Binary.to_R 0.1 - Binary.to_R 0)
                     / (Binary.to_R 3 - Binary.to_R 0)
     = Binary.to_R 0.1.
Proof.
  split; [vm_compute; reflexivity |].
  split; float_value; lra.
Qed.

(** C9. [angle2value] has no result exactly when [max_angle = min_angle],
    whatever the other arguments; the all-four-given test of [main] lets
    such a calibration through to the division. *)
Theorem angle2value_degenerate (min_angle max_angle min_value max_value angle : R) :
  (angle2value min_angle max_angle min_value max_value angle = None
   <-> max_angle = min_angle)
  /\ angle2value min_angle min_angle min_value max_value angle = None
  /\ forall cfg needle_angle,
       convert (calibrated min_angle min_angle min_value max_value cfg)
               needle_angle = None.
Proof.
  unfold convert, angle2value; simpl.
  destruct (Req_dec_T (min_angle - min_angle) 0) as [_ | E]; [| lra].
  destruct (Req_dec_T (max_angle - min_angle) 0) as [E | E].
  - repeat split; auto; lra.
  - repeat split; auto; try discriminate. intros; lra.
Qed.

(** ** The geometric filter *)

Lemma qualifies_spec (x y r min_length rim rix rom rox : R) (l : Line) :
  qualifies x y r min_length rim rix rom rox l = true
  <-> spec_qualifies x y r min_length rim rix rom rox l.
Proof.
  destruct l as [[[x1 y1] x2] y2]. unfold qualifies, spec_qualifies.
  set (len := dist_2_pts x1 y1 x2 y2).
  set (d1 := dist_2_pts x y x1 y1). set (d2 := dist_2_pts x y x2 y2).
  destruct (Rlt_dec len (min_length * r)) as [Hl | Hl].
  - split; [discriminate | intros [H _]; lra].
  - destruct (Rgt_dec d1 d2) as [Hd | Hd].
    + rewrite Rmin_right, Rmax_left by lra.
      rewrite !andb_true_iff, !Rltb_true. intuition lra.
    + rewrite Rmin_left, Rmax_right by lra.
      rewrite !andb_true_iff, !Rltb_true. intuition lra.
Qed.

(** *** The filter on rounded numbers *)

Lemma round_bounds (u t t' : R) :
  Rabs (t' - t) <= u * Rabs t -> 0 <= t ->
  (1 - u) * t <= t' <= (1 + u) * t.
Proof.
  intros H Ht. rewrite (Rabs_right t) in H by lra.
  apply Rabs_le_between in H. lra.
Qed.

Lemma wrap32_small (n : Z) :
  (- 2147483648 <= n < 2147483648)%Z -> Rounded.wrap32 n = n.
Proof.
  intros H. unfold Rounded.wrap32. rewrite Z.mod_small by lia. lia.
Qed.

Lemma square_small (d : Z) :
  (Z.abs d <= 32767)%Z -> (0 <= d ^ 2 <= 1073676289)%Z.
Proof. intros H. rewrite Z.pow_2_r. nia. Qed.

Lemma distance_nonneg (x y px py : R) : 0 <= distance x y px py.
Proof. apply sqrt_pos. Qed.

(** The length of a segment whose integers do not wrap around. *)
Lemma length_bounds (F : Rounded.Arithmetic) (u : R) (x1 y1 x2 y2 : Z) :
  standard_model u F -> no_wrap (x1, y1, x2, y2) ->
  exists len,
    Rounded.length_2_pts F x1 y1 x2 y2 = Some len
    /\ (1 - u) * distance (IZR x1) (IZR y1) (IZR x2) (IZR y2) <= len
       <= (1 + u) * distance (IZR x1) (IZR y1) (IZR x2) (IZR y2).
Proof.
  intros HF [Hx Hy]. unfold Rounded.length_2_pts.
  pose proof (square_small _ Hx) as Sx. pose proof (square_small _ Hy) as Sy.
  rewrite (wrap32_small (x2 - x1)), (wrap32_small (y2 - y1)) by lia.
  rewrite (wrap32_small ((x2 - x1) ^ 2)), (wrap32_small ((y2 - y1) ^ 2))
    by lia.
  rewrite wrap32_small by lia.
  destruct ((x2 - x1) ^ 2 + (y2 - y1) ^ 2 <? 0)%Z eqn:E;
    [apply Z.ltb_lt in E; lia |].
  eexists. split; [reflexivity |].
  assert (Hs : sqrt (IZR ((x2 - x1) ^ 2 + (y2 - y1) ^ 2))
               = distance (IZR x1) (IZR y1) (IZR x2) (IZR y2)).
  { unfold distance. f_equal.
    rewrite !Z.pow_2_r, plus_IZR, !mult_IZR, !minus_IZR. ring. }
  rewrite <- Hs.
  apply round_bounds; [| apply sqrt_pos].
  rewrite (Rabs_right (sqrt _)) by (apply Rle_ge, sqrt_pos).
  apply (proj2 (proj2 (proj2 (proj2 HF)))).
  apply IZR_le. lia.
Qed.

Lemma pow2_bounds (F : Rounded.Arithmetic) (u d : R) :
  standard_model u F ->
  (1 - u) ^ 3 * (d * d) <= Rounded.pow2 F (Rounded.double F d)
  <= (1 + u) ^ 3 * (d * d).
Proof.
  intros HF. pose proof (unit_roundoff u F HF) as Hu.
  destruct (rel_double u F HF d) as (e & E & He).
  pose proof (proj1 (proj2 (proj2 (proj2 HF))) (Rounded.double F d)) as Hp.
  set (dr := Rounded.double F d) in *.
  assert (Hsq : 0 <= dr * dr) by nra.
  rewrite <- (Rabs_right (dr * dr)) in Hp at 2 by lra.
  apply round_bounds in Hp; [| exact Hsq].
  assert (Hdd : 0 <= d * d) by nra.
  assert (Hlo : (1 - u) ^ 2 * (d * d) <= dr * dr).
  { rewrite E. replace (d * (1 + e) * (d * (1 + e)))
      with ((1 + e) ^ 2 * (d * d)) by ring.
    apply Rmult_le_compat_r; [exact Hdd | nra]. }
  assert (Hhi : dr * dr <= (1 + u) ^ 2 * (d * d)).
  { rewrite E. replace (d * (1 + e) * (d * (1 + e)))
      with ((1 + e) ^ 2 * (d * d)) by ring.
    apply Rmult_le_compat_r; [exact Hdd | nra]. }
  split.
  - apply Rle_trans with ((1 - u) * (dr * dr)); [| lra].
    replace ((1 - u) ^ 3 * (d * d)) with ((1 - u) * ((1 - u) ^ 2 * (d * d)))
      by ring.
    apply Rmult_le_compat_l; lra.
  - apply Rle_trans with ((1 + u) * (dr * dr)); [lra |].
    replace ((1 + u) ^ 3 * (d * d)) with ((1 + u) * ((1 + u) ^ 2 * (d * d)))
      by ring.
    apply Rmult_le_compat_l; lra.
Qed.

Lemma sqrt_scaled (c s : R) : 0 <= c -> 0 <= s -> sqrt (c ^ 2 * s) = c * sqrt s.
Proof.
  intros Hc Hs. rewrite sqrt_mult by nra.
  replace (c ^ 2) with (c * c) by ring. now rewrite sqrt_square.
Qed.

(** The distance of an endpoint from the centre. *)
Lemma dist_bounds (F : Rounded.Arithmetic) (u x y : R) (x1 y1 : Z) :
  standard_model u F ->
  (1 - u) ^ 3 * distance x y (IZR x1) (IZR y1)
  <= Rounded.dist_2_pts F x y x1 y1
  <= (1 + u) ^ 3 * distance x y (IZR x1) (IZR y1).
Proof.
  intros HF. pose proof (unit_roundoff u F HF) as Hu.
  unfold Rounded.dist_2_pts, distance.
  pose proof (pow2_bounds F u (IZR x1 - x) HF) as Hx.
  pose proof (pow2_bounds F u (IZR y1 - y) HF) as Hy.
  set (px := Rounded.pow2 F (Rounded.double F (IZR x1 - x))) in *.
  set (py := Rounded.pow2 F (Rounded.double F (IZR y1 - y))) in *.
  set (S := (IZR x1 - x) * (IZR x1 - x) + (IZR y1 - y) * (IZR y1 - y)).
  assert (HS : 0 <= S)
    by (unfold S; apply Rplus_le_le_0_compat; apply Rle_0_sqr).
  assert (Hlo3 : 0 <= (1 - u) ^ 3) by (apply pow_le; lra).
  assert (Hsum : (1 - u) ^ 3 * S <= px + py <= (1 + u) ^ 3 * S)
    by (unfold S; lra).
  assert (Hsum0 : 0 <= px + py) by nra.
  pose proof (proj1 (proj2 (proj2 HF)) (px + py)) as Hd.
  apply round_bounds in Hd; [| exact Hsum0].
  set (sr := Rounded.double F (px + py)) in *.
  assert (Hsr : (1 - u) ^ 4 * S <= sr <= (1 + u) ^ 4 * S).
  { split.
    - apply Rle_trans with ((1 - u) * (px + py)); [| lra].
      replace ((1 - u) ^ 4 * S) with ((1 - u) * ((1 - u) ^ 3 * S)) by ring.
      apply Rmult_le_compat_l; lra.
    - apply Rle_trans with ((1 + u) * (px + py)); [lra |].
      replace ((1 + u) ^ 4 * S) with ((1 + u) * ((1 + u) ^ 3 * S)) by ring.
      apply Rmult_le_compat_l; lra. }
  assert (Hsr0 : 0 <= sr).
  { apply Rle_trans with ((1 - u) ^ 4 * S); [| lra].
    apply Rmult_le_pos; [apply pow_le; lra | exact HS]. }
  pose proof (proj2 (proj2 (proj2 (proj2 HF))) sr Hsr0) as Hr.
  rewrite <- (Rabs_right (sqrt sr)) in Hr at 2 by (apply Rle_ge, sqrt_pos).
  apply round_bounds in Hr; [| apply sqrt_pos].
  assert (Hq : (1 - u) ^ 2 * sqrt S <= sqrt sr <= (1 + u) ^ 2 * sqrt S).
  { split.
    - rewrite <- (sqrt_scaled ((1 - u) ^ 2) S) by (try apply pow_le; lra).
      apply sqrt_le_1_alt.
      replace (((1 - u) ^ 2) ^ 2) with ((1 - u) ^ 4) by ring. lra.
    - rewrite <- (sqrt_scaled ((1 + u) ^ 2) S) by (try apply pow_le; lra).
      apply sqrt_le_1_alt.
      replace (((1 + u) ^ 2) ^ 2) with ((1 + u) ^ 4) by ring. lra. }
  pose proof (sqrt_pos S) as HD. pose proof (sqrt_pos sr) as HD'.
  split.
  - apply Rle_trans with ((1 - u) * sqrt sr); [| lra].
    replace ((1 - u) ^ 3 * sqrt S) with ((1 - u) * ((1 - u) ^ 2 * sqrt S))
      by ring.
    apply Rmult_le_compat_l; lra.
  - apply Rle_trans with ((1 + u) * sqrt sr); [lra |].
    replace ((1 + u) ^ 3 * sqrt S) with ((1 + u) * ((1 + u) ^ 2 * sqrt S))
      by ring.
    apply Rmult_le_compat_l; lra.
Qed.

(** A threshold: the bound times the radius. *)
Lemma scaled_bounds (F : Rounded.Arithmetic) (u bound r : R) :
  standard_model u F -> 0 <= bound -> 0 < r ->
  (1 - u) ^ 2 * (bound * r) <= Rounded.scaled F bound r
  <= (1 + u) ^ 2 * (bound * r).
Proof.
  intros HF Hb Hr. pose proof (unit_roundoff u F HF) as Hu.
  unfold Rounded.scaled.
  pose proof (proj1 (proj2 HF) bound) as H1.
  apply round_bounds in H1; [| exact Hb].
  set (sb := Rounded.single F bound) in *.
  assert (Hsb0 : 0 <= sb).
  { apply Rle_trans with ((1 - u) * bound); [| lra].
    apply Rmult_le_pos; lra. }
  assert (Hsb : 0 <= sb * r) by (apply Rmult_le_pos; lra).
  pose proof (proj1 (proj2 HF) (sb * r)) as H2.
  apply round_bounds in H2; [| exact Hsb].
  assert (Hbr : 0 <= bound * r) by (apply Rmult_le_pos; lra).
  assert (Hlo : (1 - u) * (bound * r) <= sb * r).
  { rewrite <- Rmult_assoc. apply Rmult_le_compat_r; lra. }
  assert (Hhi : sb * r <= (1 + u) * (bound * r)).
  { rewrite <- Rmult_assoc. apply Rmult_le_compat_r; lra. }
  split.
  - apply Rle_trans with ((1 - u) * (sb * r)); [| lra].
    replace ((1 - u) ^ 2 * (bound * r))
      with ((1 - u) * ((1 - u) * (bound * r))) by ring.
    apply Rmult_le_compat_l; lra.
  - apply Rle_trans with ((1 + u) * (sb * r)); [lra |].
    replace ((1 + u) ^ 2 * (bound * r))
      with ((1 + u) * ((1 + u) * (bound * r))) by ring.
    apply Rmult_le_compat_l; lra.
Qed.

(** What the test of the code compares. *)
Lemma rounded_qualifies_spec (F : Rounded.Arithmetic)
    (x y r min_length rim rix rom rox : R) (x1 y1 x2 y2 : Z) :
  Rounded.qualifies F x y r min_length rim rix rom rox (x1, y1, x2, y2)
  = true
  <-> match Rounded.length_2_pts F x1 y1 x2 y2 with
      | Some len => Rounded.scaled F min_length r <= len
      | None => True
      end
      /\ Rounded.scaled F rim r
         < Rmin (Rounded.dist_2_pts F x y x1 y1)
                (Rounded.dist_2_pts F x y x2 y2)
         < Rounded.scaled F rix r
      /\ Rounded.scaled F rom r
         < Rmax (Rounded.dist_2_pts F x y x1 y1)
                (Rounded.dist_2_pts F x y x2 y2)
         < Rounded.scaled F rox r.
Proof.
  unfold Rounded.qualifies.
  set (d1 := Rounded.dist_2_pts F x y x1 y1).
  set (d2 := Rounded.dist_2_pts F x y x2 y2).
  assert (Hband :
    (let '(diff1, diff2) :=
       if Rgt_dec d1 d2 then (d2, d1) else (d1, d2) in
     (Rltb (Rounded.scaled F rim r) diff1
      && Rltb diff1 (Rounded.scaled F rix r))
     && (Rltb (Rounded.scaled F rom r) diff2
         && Rltb diff2 (Rounded.scaled F rox r))) = true
    <-> Rounded.scaled F rim r < Rmin d1 d2 < Rounded.scaled F rix r
        /\ Rounded.scaled F rom r < Rmax d1 d2 < Rounded.scaled F rox r).
  { destruct (Rgt_dec d1 d2) as [Hd | Hd].
    - rewrite Rmin_right, Rmax_left by lra.
      rewrite !andb_true_iff, !Rltb_true. tauto.
    - rewrite Rmin_left, Rmax_right by lra.
      rewrite !andb_true_iff, !Rltb_true. tauto. }
  destruct (Rounded.length_2_pts F x1 y1 x2 y2) as [len |].
  - destruct (Rltb len (Rounded.scaled F min_length r)) eqn:E.
    + apply Rltb_true in E. split; [discriminate | intros [H _]; lra].
    + apply Rltb_false in E. rewrite Hband. tauto.
  - rewrite Hband. tauto.
Qed.

Lemma Rmin_bounds (a b d1 d2 e1 e2 : R) :
  0 <= a -> 0 <= b ->
  a * d1 <= e1 <= b * d1 -> a * d2 <= e2 <= b * d2 ->
  a * Rmin d1 d2 <= Rmin e1 e2 <= b * Rmin d1 d2.
Proof.
  intros Ha Hb H1 H2. unfold Rmin.
  destruct (Rle_dec d1 d2) as [Hd | Hd]; destruct (Rle_dec e1 e2) as [He | He];
    try lra.
  - assert (a * d1 <= a * d2) by (apply Rmult_le_compat_l; lra). lra.
  - assert (a * d2 <= a * d1) by (apply Rmult_le_compat_l; lra). lra.
Qed.

Lemma Rmax_bounds (a b d1 d2 e1 e2 : R) :
  0 <= a -> 0 <= b ->
  a * d1 <= e1 <= b * d1 -> a * d2 <= e2 <= b * d2 ->
  a * Rmax d1 d2 <= Rmax e1 e2 <= b * Rmax d1 d2.
Proof.
  intros Ha Hb H1 H2. unfold Rmax.
  destruct (Rle_dec d1 d2) as [Hd | Hd]; destruct (Rle_dec e1 e2) as [He | He];
    try lra.
  - assert (b * d1 <= b * d2) by (apply Rmult_le_compat_l; lra). lra.
  - assert (b * d2 <= b * d1) by (apply Rmult_le_compat_l; lra). lra.
Qed.

Lemma slack_facts (u : R) :
  0 <= u < 1 ->
  0 < (1 - u) ^ 3 /\ (1 - u) ^ 3 <= (1 - u) ^ 2 /\ (1 - u) ^ 3 <= 1 - u
  /\ 1 + u <= (1 + u) ^ 3 /\ (1 + u) ^ 2 <= (1 + u) ^ 3
  /\ slack u * (1 - u) ^ 3 = (1 + u) ^ 3
  /\ / slack u * (1 + u) ^ 3 = (1 - u) ^ 3
  /\ 0 < slack u.
Proof.
  intros Hu.
  assert (H3 : 0 < (1 - u) ^ 3) by (apply pow_lt; lra).
  assert (H3' : 0 < (1 + u) ^ 3) by (apply pow_lt; lra).
  assert (H2 : 0 <= (1 - u) ^ 2) by (apply pow_le; lra).
  assert (H2' : 1 <= (1 + u) ^ 2) by (apply pow_R1_Rle; lra).
  assert (Hs : slack u = (1 + u) ^ 3 / (1 - u) ^ 3)
    by (unfold slack; field; lra).
  split; [exact H3 |].
  split; [replace ((1 - u) ^ 3) with ((1 - u) * (1 - u) ^ 2) by ring; nra |].
  split; [replace ((1 - u) ^ 3) with ((1 - u) * (1 - u) ^ 2) by ring; nra |].
  split; [replace ((1 + u) ^ 3) with ((1 + u) * (1 + u) ^ 2) by ring; nra |].
  split; [replace ((1 + u) ^ 3) with ((1 + u) * (1 + u) ^ 2) by ring; nra |].
  split; [rewrite Hs; field; lra |].
  split; [rewrite Hs; field; split; lra |].
  rewrite Hs. apply Rdiv_lt_0_compat; assumption.
Qed.

(** Every number the test compares is the exact one up to the factors
    [(1 - u)^3] and [(1 + u)^3]. *)
Lemma compared_numbers (F : Rounded.Arithmetic)
    (u x y r min_length rim rix rom rox : R) (x1 y1 x2 y2 : Z) :
  standard_model u F -> 0 < r ->
  0 <= min_length -> 0 <= rim -> 0 <= rix -> 0 <= rom -> 0 <= rox ->
  no_wrap (x1, y1, x2, y2) ->
  let a := (1 - u) ^ 3 in
  let b := (1 + u) ^ 3 in
  let within q q' := a * q <= q' <= b * q in
  (exists len,
     Rounded.length_2_pts F x1 y1 x2 y2 = Some len
     /\ within (distance (IZR x1) (IZR y1) (IZR x2) (IZR y2)) len)
  /\ within (Rmin (distance x y (IZR x1) (IZR y1))
                  (distance x y (IZR x2) (IZR y2)))
            (Rmin (Rounded.dist_2_pts F x y x1 y1)
                  (Rounded.dist_2_pts F x y x2 y2))
  /\ within (Rmax (distance x y (IZR x1) (IZR y1))
                  (distance x y (IZR x2) (IZR y2)))
            (Rmax (Rounded.dist_2_pts F x y x1 y1)
                  (Rounded.dist_2_pts F x y x2 y2))
  /\ within (min_length * r) (Rounded.scaled F min_length r)
  /\ within (rim * r) (Rounded.scaled F rim r)
  /\ within (rix * r) (Rounded.scaled F rix r)
  /\ within (rom * r) (Rounded.scaled F rom r)
  /\ within (rox * r) (Rounded.scaled F rox r).
Proof.
  intros HF Hr H0 H1 H2 H3 H4 Hw a b within.
  pose proof (unit_roundoff u F HF) as Hu.
  destruct (slack_facts u Hu) as (Ha & Ha2 & Ha1 & Hb1 & Hb2 & _).
  fold a in Ha, Ha2, Ha1. fold b in Hb1, Hb2.
  assert (Hb : 0 <= b) by lra.
  assert (Hscaled : forall bound, 0 <= bound ->
            within (bound * r) (Rounded.scaled F bound r)).
  { intros bound Hbound.
    pose proof (scaled_bounds F u bound r HF Hbound Hr) as Hs.
    assert (Hbr : 0 <= bound * r) by (apply Rmult_le_pos; lra).
    assert (a * (bound * r) <= (1 - u) ^ 2 * (bound * r))
      by (apply Rmult_le_compat_r; lra).
    assert ((1 + u) ^ 2 * (bound * r) <= b * (bound * r))
      by (apply Rmult_le_compat_r; lra).
    unfold within. lra. }
  split.
  { destruct (length_bounds F u x1 y1 x2 y2 HF Hw) as (len & Hlen & Hl).
    exists len. split; [exact Hlen |].
    pose proof (distance_nonneg (IZR x1) (IZR y1) (IZR x2) (IZR y2)) as Hd.
    set (L := distance (IZR x1) (IZR y1) (IZR x2) (IZR y2)) in *.
    assert (a * L <= (1 - u) * L) by (apply Rmult_le_compat_r; lra).
    assert ((1 + u) * L <= b * L) by (apply Rmult_le_compat_r; lra).
    unfold within. lra. }
  split.
  { apply Rmin_bounds; try lra; apply dist_bounds; exact HF. }
  split.
  { apply Rmax_bounds; try lra; apply dist_bounds; exact HF. }
  repeat split; apply Hscaled; assumption.
Qed.

(** C4 (as amended). The filter tests the segment's length and its sorted
    endpoint distances against the five thresholds as the claim says, but
    on rounded numbers: the thresholds are binary32 products, the distances
    binary64, and the length is computed from 32-bit integers.  For a
    segment whose integers do not wrap around, with [r > 0], bounds that
    are not negative and a unit roundoff [u]: the segment is accepted when
    it meets the conditions with every threshold moved against it by the
    factor [((1 + u) / (1 - u))^3]; when it is accepted, it meets them with
    every threshold moved in its favour by that factor; and without
    rounding it is accepted exactly when it meets them. *)
Theorem filter_lines_for_needle_iff
    (F : Rounded.Arithmetic) (u : R) (lines : list (list Rounded.IntLine))
    (x y r min_length r_inner_min r_inner_max r_outer_min r_outer_max : R)
    (l : Rounded.IntLine) :
  standard_model u F -> 0 < r ->
  0 <= min_length -> 0 <= r_inner_min -> 0 <= r_inner_max ->
  0 <= r_outer_min -> 0 <= r_outer_max ->
  no_wrap l ->
  let accepted :=
    In l (Rounded.filter_lines_for_needle F lines x y r min_length
            r_inner_min r_inner_max r_outer_min r_outer_max) in
  (In l (concat lines) ->
   spec_qualifies_within (slack u) x y r min_length
     r_inner_min r_inner_max r_outer_min r_outer_max l ->
   accepted)
  /\ (accepted ->
      In l (concat lines)
      /\ spec_qualifies_within (/ slack u) x y r min_length
           r_inner_min r_inner_max r_outer_min r_outer_max l)
  /\ (u = 0 ->
      (accepted <->
       In l (concat lines)
       /\ spec_qualifies_within 1 x y r min_length
            r_inner_min r_inner_max r_outer_min r_outer_max l)).
Proof.
  intros HF Hr H0 H1 H2 H3 H4 Hw accepted.
  pose proof (unit_roundoff u F HF) as Hu.
  destruct (slack_facts u Hu) as (Ha & _ & _ & _ & _ & Hk & Hk' & Hkpos).
  destruct l as [[[x1 y1] x2] y2].
  pose proof (compared_numbers F u x y r min_length r_inner_min r_inner_max
                r_outer_min r_outer_max x1 y1 x2 y2 HF Hr H0 H1 H2 H3 H4 Hw)
    as Hc.
  cbv zeta in Hc.
  destruct Hc as ((len & Hlen & HL) & Hm & HM & T0 & T1 & T2 & T3 & T4).
  pose proof (rounded_qualifies_spec F x y r min_length r_inner_min
                r_inner_max r_outer_min r_outer_max x1 y1 x2 y2) as Hq.
  rewrite Hlen in Hq.
  set (a := (1 - u) ^ 3) in *. set (b := (1 + u) ^ 3) in *.
  assert (Hbpos : 0 < b) by (unfold b; apply pow_lt; lra).
  set (k := slack u) in *.
  set (L := distance (IZR x1) (IZR y1) (IZR x2) (IZR y2)) in *.
  set (d1 := Rmin (distance x y (IZR x1) (IZR y1))
                  (distance x y (IZR x2) (IZR y2))) in *.
  set (d2 := Rmax (distance x y (IZR x1) (IZR y1))
                  (distance x y (IZR x2) (IZR y2))) in *.
  set (m' := Rmin (Rounded.dist_2_pts F x y x1 y1)
                  (Rounded.dist_2_pts F x y x2 y2)) in *.
  set (M' := Rmax (Rounded.dist_2_pts F x y x1 y1)
                  (Rounded.dist_2_pts F x y x2 y2)) in *.
  set (t0 := Rounded.scaled F min_length r) in *.
  set (t1 := Rounded.scaled F r_inner_min r) in *.
  set (t2 := Rounded.scaled F r_inner_max r) in *.
  set (t3 := Rounded.scaled F r_outer_min r) in *.
  set (t4 := Rounded.scaled F r_outer_max r) in *.
  assert (Hsuff :
    spec_qualifies_within k x y r min_length
      r_inner_min r_inner_max r_outer_min r_outer_max (x1, y1, x2, y2) ->
    t0 <= len /\ t1 < m' < t2 /\ t3 < M' < t4).
  { unfold spec_qualifies_within. fold L. fold d1. fold d2.
    intros (S0 & (S1 & S2) & (S3 & S4)).
    assert (b * (min_length * r) <= a * L) by (rewrite <- Hk; nra).
    assert (b * (r_inner_min * r) < a * d1) by (rewrite <- Hk; nra).
    assert (b * d1 < a * (r_inner_max * r)) by (rewrite <- Hk; nra).
    assert (b * (r_outer_min * r) < a * d2) by (rewrite <- Hk; nra).
    assert (b * d2 < a * (r_outer_max * r)) by (rewrite <- Hk; nra).
    lra. }
  assert (Hnec :
    t0 <= len /\ t1 < m' < t2 /\ t3 < M' < t4 ->
    spec_qualifies_within (/ k) x y r min_length
      r_inner_min r_inner_max r_outer_min r_outer_max (x1, y1, x2, y2)).
  { unfold spec_qualifies_within. fold L. fold d1. fold d2.
    intros (S0 & (S1 & S2) & (S3 & S4)).
    assert (a * (min_length * r) <= b * L) by lra.
    assert (a * (r_inner_min * r) < b * d1) by lra.
    assert (a * d1 < b * (r_inner_max * r)) by lra.
    assert (a * (r_outer_min * r) < b * d2) by lra.
    assert (a * d2 < b * (r_outer_max * r)) by lra.
    rewrite <- Hk' in *.
    repeat split; nra. }
  assert (Hin : accepted
                <-> In (x1, y1, x2, y2) (concat lines)
                    /\ (t0 <= len /\ t1 < m' < t2 /\ t3 < M' < t4)).
  { unfold accepted, Rounded.filter_lines_for_needle.
    rewrite filter_In, Hq. tauto. }
  split; [| split].
  - intros Hl Hs. apply Hin. split; [exact Hl | now apply Hsuff].
  - intros Hacc. apply Hin in Hacc. split; [tauto | apply Hnec; tauto].
  - intros Hu0.
    assert (Hk1 : k = 1) by (unfold k, slack; rewrite Hu0; field).
    rewrite Hk1 in Hsuff, Hnec. rewrite Rinv_1 in Hnec.
    rewrite Hin. tauto.
Qed.

Lemma distance_value (x y px py v : R) :
  0 <= v -> (px - x) * (px - x) + (py - y) * (py - y) = v * v ->
  distance x y px py = v.
Proof. intros Hv H. unfold distance. rewrite H. now apply sqrt_square. Qed.

Lemma slack_u32 : 1 <= slack RoundedExamples.u32 <= 101 / 100.
Proof.
  unfold slack, RoundedExamples.u32.
  assert (H : 1 <= (1 + / 16777216) / (1 - / 16777216) <= 1001 / 1000).
  { split.
    - apply Rmult_le_reg_r with (1 - / 16777216); [lra |].
      unfold Rdiv. rewrite Rmult_assoc, Rinv_l by lra. lra.
    - apply Rmult_le_reg_r with (1 - / 16777216); [lra |].
      unfold Rdiv. rewrite Rmult_assoc, Rinv_l by lra. lra. }
  set (q := (1 + / 16777216) / (1 - / 16777216)) in *.
  split; nra.
Qed.

Lemma filter_lines_for_needle_iff_witness :
  In (400, 350, 400, 542)%Z
     (Rounded.filter_lines_for_needle
        (Rounded.inflating RoundedExamples.u32)
        [[(400, 350, 400, 542)%Z]; [(260, 300, 196, 300)%Z]]
        400 300 300 0.2 0.15 0.6 0.65 1).
Proof.
  assert (Hu : 0 <= RoundedExamples.u32 < 1)
    by (unfold RoundedExamples.u32; lra).
  apply (proj1 (filter_lines_for_needle_iff
                  (Rounded.inflating RoundedExamples.u32)
                  RoundedExamples.u32
                  [[(400, 350, 400, 542)%Z]; [(260, 300, 196, 300)%Z]]
                  400 300 300 0.2 0.15 0.6 0.65 1 (400, 350, 400, 542)%Z
                  (inflating_standard _ Hu)
                  ltac:(lra) ltac:(lra) ltac:(lra) ltac:(lra) ltac:(lra)
                  ltac:(lra) ltac:(cbn; lia))).
  - cbn. now left.
  - unfold spec_qualifies_within.
    rewrite (distance_value 400 350 400 542 192) by (try lra; ring).
    rewrite (distance_value 400 300 400 350 50) by (try lra; ring).
    rewrite (distance_value 400 300 400 542 242) by (try lra; ring).
    rewrite Rmin_left, Rmax_right by lra.
    pose proof slack_u32 as Hs. lra.
Defined.

(** C4, the claim as stated fails, in two ways.  First: with the radius
    100 and [r_inner_max = 0.6] the threshold is the binary32 product
    60.000003814697266, so a segment whose nearer endpoint is at the
    distance 60 is accepted, though 60 is not below [0.6 * 100].  Second:
    for the segment from (150000, 0) to (200000, 0) the square of the
    difference wraps around to a negative 32-bit integer and the length is
    NaN; no comparison with NaN holds, so with the radius 300000 the segment
    is accepted though its length, 50000, is below [0.2 * 300000]. *)
Lemma filter_lines_for_needle_counterexample :
  (Binary.filter_lines_for_needle [[(0, 60, 0, 90)%Z]]
     0 0 100 0.2 0.15 0.6 0.65 1
   = [(0, 60, 0, 90)%Z]
   /\ Binary.scaled 0.6 100 = 60.000003814697266%float
   /\ Rmin (distance (Binary.to_R 0) (Binary.to_R 0) 0 60)
           (distance (Binary.to_R 0) (Binary.to_R 0) 0 90) = 60
   /\ ~ 60 < Binary.to_R 0.6 * Binary.to_R 100)
  /\ (Binary.filter_lines_for_needle [[(150000, 0, 200000, 0)%Z]]
        0 0 300000 0.2 0.15 0.6 0.65 1
      = [(150000, 0, 200000, 0)%Z]
      /\ Binary.length_2_pts 150000 0 200000 0 = nan
      /\ distance 150000 0 200000 0 = 50000
      /\ ~ 50000 >= Binary.to_R 0.2 * Binary.to_R 300000).
Proof.
  split; (split; [vm_compute; reflexivity |]);
    (split; [vm_compute; reflexivity |]).
  - split.
    + replace (Binary.to_R 0) with 0 by (float_value; lra).
      rewrite (distance_value 0 0 0 60 60) by (try lra; ring).
      rewrite (distance_value 0 0 0 90 90) by (try lra; ring).
      apply Rmin_left. lra.
    + float_value. lra.
  - split.
    + apply distance_value; [lra | ring].
    + float_value. lra.
Qed.

(** ** Distances and angles *)

Lemma dist_2_pts_nonneg (x1 y1 x2 y2 : R) : 0 <= dist_2_pts x1 y1 x2 y2.
Proof. apply sqrt_pos. Qed.

Lemma dist_2_pts_sym (x1 y1 x2 y2 : R) :
  dist_2_pts x1 y1 x2 y2 = dist_2_pts x2 y2 x1 y1.
Proof. unfold dist_2_pts. f_equal. ring. Qed.

Lemma dist_2_pts_same_x (x y1 y2 : R) :
  dist_2_pts x y1 x y2 = Rabs (y2 - y1).
Proof.
  unfold dist_2_pts. rewrite <- sqrt_Rsqr_abs. f_equal. unfold Rsqr. ring.
Qed.

Lemma dist_2_pts_same_y (x1 x2 y : R) :
  dist_2_pts x1 y x2 y = Rabs (x2 - x1).
Proof.
  unfold dist_2_pts. rewrite <- sqrt_Rsqr_abs. f_equal. unfold Rsqr. ring.
Qed.

Lemma atan_nonpos (t : R) : t <= 0 -> atan t <= 0.
Proof.
  intros [H | H].
  - left. rewrite <- atan_0. now apply atan_increasing.
  - subst. rewrite atan_0. lra.
Qed.

Lemma atan_pos (t : R) : 0 < t -> 0 < atan t.
Proof. intros H. rewrite <- atan_0. now apply atan_increasing. Qed.

Lemma arctan2_bounds (y x : R) : - PI < arctan2 y x <= PI.
Proof.
  pose proof PI_RGT_0 as Hpi. unfold arctan2.
  destruct (Rlt_dec 0 x) as [Hx | Hx].
  - pose proof (atan_bound (y / x)). lra.
  - destruct (Rlt_dec x 0) as [Hx' | Hx'].
    + pose proof (atan_bound (y / x)) as Hb.
      destruct (Rle_dec 0 y) as [Hy | Hy].
      * assert (atan (y / x) <= 0).
        { apply atan_nonpos. unfold Rdiv.
          assert (/ x < 0) by now apply Rinv_lt_0_compat. nra. }
        lra.
      * assert (0 < atan (y / x)).
        { apply atan_pos. unfold Rdiv.
          assert (/ x < 0) by now apply Rinv_lt_0_compat. nra. }
        lra.
    + destruct (Rlt_dec 0 y); [lra |]. destruct (Rlt_dec y 0); lra.
Qed.

Lemma wrap_range (a : R) : - PI < a <= PI -> 0 <= wrap a < 2 * PI.
Proof.
  intros H. pose proof PI_RGT_0. unfold wrap. destruct (Rlt_dec a 0); lra.
Qed.

Lemma candidate_angle_wrap (x y x1 y1 x2 y2 : R) :
  candidate_angle x y (x1, y1, x2, y2)
  = wrap (if Rgt_dec (dist_2_pts x y x1 y1) (dist_2_pts x y x2 y2)
          then arctan2 (- (x1 - x)) (y1 - y)
          else arctan2 (- (x2 - x)) (y2 - y)).
Proof. reflexivity. Qed.

Lemma candidate_angle_range (x y : R) (l : Line) :
  0 <= candidate_angle x y l < 2 * PI.
Proof.
  destruct l as [[[x1 y1] x2] y2]. rewrite candidate_angle_wrap.
  apply wrap_range.
  destruct (Rgt_dec _ _); apply arctan2_bounds.
Qed.

(** The endpoint [candidate_angle] reads is a farther one. *)
Lemma candidate_angle_farther (x y : R) (l : Line) :
  exists xe ye,
    farther_endpoint x y l xe ye
    /\ candidate_angle x y l = wrap (arctan2 (- (xe - x)) (ye - y)).
Proof.
  destruct l as [[[x1 y1] x2] y2]. rewrite candidate_angle_wrap.
  unfold farther_endpoint.
  destruct (Rgt_dec (dist_2_pts x y x1 y1) (dist_2_pts x y x2 y2)) as [H | H].
  - exists x1, y1. split; [left; repeat split; lra | reflexivity].
  - exists x2, y2. split; [right; repeat split; lra | reflexivity].
Qed.

(** With the inner band below the outer band, the two endpoints of an
    accepted segment are at different distances from the centre. *)
Lemma accepted_distances_differ
    (lines : list (list Line))
    (x y r min_length r_inner_min r_inner_max r_outer_min r_outer_max : R)
    (x1 y1 x2 y2 : R) :
  r_inner_max <= r_outer_min -> 0 <= r ->
  In (x1, y1, x2, y2)
     (filter_lines_for_needle lines x y r min_length
        r_inner_min r_inner_max r_outer_min r_outer_max) ->
  dist_2_pts x y x1 y1 <> dist_2_pts x y x2 y2.
Proof.
  intros Hb Hr Hin. unfold filter_lines_for_needle in Hin.
  apply filter_In in Hin. destruct Hin as [_ Hq].
  apply qualifies_spec in Hq. destruct Hq as (_ & [_ Hi] & [Ho _]).
  assert (r_inner_max * r <= r_outer_min * r) by nra.
  intros E. rewrite E in *.
  unfold Rmin, Rmax in *. destruct (Rle_dec _ _); lra.
Qed.

Lemma Rabs_of_nonneg (a : R) : 0 <= a -> Rabs a = a.
Proof. intros. now apply Rabs_pos_eq. Qed.

Lemma Rabs_of_neg (a : R) : a <= 0 -> Rabs a = - a.
Proof.
  intros [H | H]; [now apply Rabs_left |].
  subst. rewrite Rabs_R0. lra.
Qed.

(** The status for a single segment that passes the filter. *)
Lemma angle_from_single_line (l : Line) (x y r rim rix rom rox : R) :
  qualifies x y r 0.2 rim rix rom rox l = true ->
  candidate_length l <> 0 ->
  angle_from_lines (Some [[l]]) x y r rim rix rom rox
  = Angle (candidate_angle x y l).
Proof.
  intros Hq Hl. unfold angle_from_lines, filter_lines_for_needle.
  cbn [concat app filter]. rewrite Hq. cbn [length Nat.ltb Nat.leb map].
  unfold average. cbn [map combine Rsum fold_right fst snd].
  destruct (Req_dec_T (candidate_length l + 0) 0) as [E | _]; [lra |].
  f_equal. field. lra.
Qed.

(** ** Endpoint order *)

(** C2 (as amended). When the two endpoints of a segment are at different
    distances from the centre, [candidate_angle] and the weight
    [candidate_length] are the same for both endpoint orders. *)
Theorem candidate_angle_swap (x y x1 y1 x2 y2 : R) :
  dist_2_pts x y x1 y1 <> dist_2_pts x y x2 y2 ->
  candidate_angle x y (swap_endpoints (x1, y1, x2, y2))
    = candidate_angle x y (x1, y1, x2, y2)
  /\ candidate_length (swap_endpoints (x1, y1, x2, y2))
    = candidate_length (x1, y1, x2, y2).
Proof.
  intros Hne. split.
  - unfold swap_endpoints. rewrite !candidate_angle_wrap. f_equal.
    destruct (Rgt_dec (dist_2_pts x y x2 y2) (dist_2_pts x y x1 y1));
      destruct (Rgt_dec (dist_2_pts x y x1 y1) (dist_2_pts x y x2 y2));
      try reflexivity; lra.
  - apply dist_2_pts_sym.
Qed.

Lemma candidate_angle_swap_witness :
  candidate_angle 0 0 (swap_endpoints (0, 20, 0, 80))
    = candidate_angle 0 0 (0, 20, 0, 80)
  /\ candidate_length (swap_endpoints (0, 20, 0, 80))
    = candidate_length (0, 20, 0, 80).
Proof.
  apply (candidate_angle_swap 0 0 0 20 0 80).
  rewrite !dist_2_pts_same_x, !Rabs_of_nonneg; lra.
Defined.

(** C2, the claim as stated fails: a segment with both endpoints at
    distance 1 from the centre passes the filter when the bands overlap, and
    its angle is 3*pi/2 in one endpoint order and pi/2 in the other. *)
Lemma candidate_angle_swap_counterexample :
  In (-1, 0, 1, 0)
     (filter_lines_for_needle [[(-1, 0, 1, 0)]] 0 0 2 0.2 0.15 0.6 0.4 1)
  /\ dist_2_pts 0 0 (-1) 0 = dist_2_pts 0 0 1 0
  /\ candidate_angle 0 0 (-1, 0, 1, 0) = 3 * PI / 2
  /\ candidate_angle 0 0 (swap_endpoints (-1, 0, 1, 0)) = PI / 2
  /\ candidate_angle 0 0 (swap_endpoints (-1, 0, 1, 0))
     <> candidate_angle 0 0 (-1, 0, 1, 0)
  /\ angle_from_lines (Some [[(-1, 0, 1, 0)]]) 0 0 2 0.15 0.6 0.4 1
     = Angle (3 * PI / 2)
  /\ angle_from_lines (Some [[swap_endpoints (-1, 0, 1, 0)]])
                      0 0 2 0.15 0.6 0.4 1
     = Angle (PI / 2).
Proof.
  pose proof PI_RGT_0 as Hpi.
  assert (D1 : dist_2_pts 0 0 (-1) 0 = 1)
    by (rewrite dist_2_pts_same_y, Rabs_of_neg; lra).
  assert (D2 : dist_2_pts 0 0 1 0 = 1)
    by (rewrite dist_2_pts_same_y, Rabs_of_nonneg; lra).
  assert (L1 : dist_2_pts (-1) 0 1 0 = 2)
    by (rewrite dist_2_pts_same_y, Rabs_of_nonneg; lra).
  assert (L2 : dist_2_pts 1 0 (-1) 0 = 2)
    by (rewrite dist_2_pts_same_y, Rabs_of_neg; lra).
  assert (Q1 : qualifies 0 0 2 0.2 0.15 0.6 0.4 1 (-1, 0, 1, 0) = true).
  { apply qualifies_spec. unfold spec_qualifies.
    rewrite D1, D2, L1, Rmin_left, Rmax_left by lra. lra. }
  assert (Q2 : qualifies 0 0 2 0.2 0.15 0.6 0.4 1 (1, 0, -1, 0) = true).
  { apply qualifies_spec. unfold spec_qualifies.
    rewrite D1, D2, L2, Rmin_left, Rmax_left by lra. lra. }
  assert (A1 : candidate_angle 0 0 (-1, 0, 1, 0) = 3 * PI / 2).
  { rewrite candidate_angle_wrap, D1, D2.
    destruct (Rgt_dec 1 1) as [H | _]; [lra |].
    unfold arctan2, wrap. Rcases. }
  assert (A2 : candidate_angle 0 0 (1, 0, -1, 0) = PI / 2).
  { rewrite candidate_angle_wrap, D1, D2.
    destruct (Rgt_dec 1 1) as [H | _]; [lra |].
    unfold arctan2, wrap. Rcases. }
  repeat split.
  - unfold filter_lines_for_needle. apply filter_In. split; [| exact Q1].
    left; reflexivity.
  - now rewrite D1, D2.
  - exact A1.
  - exact A2.
  - unfold swap_endpoints. rewrite A1, A2. lra.
  - rewrite angle_from_single_line, A1; [reflexivity | exact Q1 |].
    unfold candidate_length. rewrite L1. lra.
  - unfold swap_endpoints.
    rewrite angle_from_single_line, A2; [reflexivity | exact Q2 |].
    unfold candidate_length. rewrite L2. lra.
Qed.

(** ** The weighted angle *)

Lemma Rsum_pos (l : list R) :
  l <> [] -> Forall (fun v => 0 < v) l -> 0 < Rsum l.
Proof.
  intros Hne Hall. induction Hall as [| v l Hv Hall IH]; [congruence |].
  cbn [Rsum fold_right]. destruct l as [| w l'].
  - cbn. lra.
  - assert (0 < Rsum (w :: l')) by (apply IH; discriminate).
    unfold Rsum in *. lra.
Qed.

Lemma accepted_length (lines : list (list Line))
    (x y r min_length rim rix rom rox : R) (l : Line) :
  In l (filter_lines_for_needle lines x y r min_length rim rix rom rox) ->
  candidate_length l >= min_length * r.
Proof.
  intros Hin. unfold filter_lines_for_needle in Hin.
  apply filter_In in Hin. destruct Hin as [_ Hq].
  apply qualifies_spec in Hq. destruct l as [[[x1 y1] x2] y2].
  destruct Hq as [Hl _]. exact Hl.
Qed.

Lemma average_weighted_mean (a w : list R) :
  Rsum w <> 0 -> average a w = Some (weighted_mean a w).
Proof.
  intros H. unfold average, weighted_mean.
  destruct (Req_dec_T (Rsum w) 0); [contradiction | reflexivity].
Qed.

Lemma get_needle_angle_status (cv : Capability) (h : Heap) (gray : ref)
    (x y r : R) (threshold : Z) (use_filter : bool) (blur_size : Z)
    (min_line_length : R) (threshold_mode : option ThresholdMode.t)
    (rim rix rom rox : R) :
  fst (fst (get_needle_angle cv h gray x y r threshold use_filter blur_size
              min_line_length threshold_mode rim rix rom rox))
  = angle_from_lines
      (fst (fst (detect_lines cv h gray x y r threshold use_filter blur_size
                   min_line_length threshold_mode rim rox)))
      x y r rim rix rom rox.
Proof.
  unfold get_needle_angle.
  destruct (detect_lines cv h gray x y r threshold use_filter blur_size
              min_line_length threshold_mode rim rox) as [[lines a] h'].
  reflexivity.
Qed.

Lemma angle_from_candidates (lines : list (list Line))
    (x y r rim rix rom rox : R) :
  let final_line_list :=
    filter_lines_for_needle lines x y r 0.2 rim rix rom rox in
  0 < r -> final_line_list <> [] -> (length final_line_list <= 75)%nat ->
  angle_from_lines (Some lines) x y r rim rix rom rox
  = Angle (weighted_mean (map (candidate_angle x y) final_line_list)
                         (map candidate_length final_line_list)).
Proof.
  intros fl Hr Hne Hlen. unfold angle_from_lines. fold fl.
  assert (Hlt : (75 <? length fl)%nat = false) by (apply Nat.ltb_ge; lia).
  rewrite Hlt.
  assert (Hsum : 0 < Rsum (map candidate_length fl)).
  { apply Rsum_pos.
    - destruct fl; [congruence | discriminate].
    - apply Forall_forall. intros v Hv. apply in_map_iff in Hv.
      destruct Hv as (l & <- & Hl). apply accepted_length in Hl. lra. }
  rewrite average_weighted_mean by lra.
  destruct fl; [congruence | reflexivity].
Qed.






(** *** The scripted capabilities and the straight-down needle *)

Lemma scripted_detect_lines circles lines (h : Heap) (gray : ref)
    (x y r : R) (threshold : Z) (use_filter : bool) (blur_size : Z)
    (min_line_length : R) (threshold_mode : option ThresholdMode.t)
    (rim rox : R) :
  fst (fst (detect_lines (Examples.scripted circles lines) h gray x y r
              threshold use_filter blur_size min_line_length threshold_mode
              rim rox))
  = lines.
Proof. unfold detect_lines, alloc. destruct use_filter; reflexivity. Qed.

Lemma needle_down_qualifies :
  qualifies 0 0 100 0.2 0.15 0.6 0.65 1 (0, 20, 0, 80) = true.
Proof.
  apply qualifies_spec. unfold spec_qualifies.
  rewrite !dist_2_pts_same_x, !Rabs_of_nonneg by lra.
  rewrite Rmin_left, Rmax_right by lra. lra.
Qed.

Lemma needle_down_candidates :
  filter_lines_for_needle [[(0, 20, 0, 80)]] 0 0 100 0.2 0.15 0.6 0.65 1
  = [(0, 20, 0, 80)].
Proof.
  unfold filter_lines_for_needle. cbn [concat app filter].
  now rewrite needle_down_qualifies.
Qed.

Lemma needle_down_angle : candidate_angle 0 0 (0, 20, 0, 80) = 0.
Proof.
  rewrite candidate_angle_wrap, !dist_2_pts_same_x, !Rabs_of_nonneg by lra.
  destruct (Rgt_dec (20 - 0) (80 - 0)) as [H | _]; [lra |].
  unfold arctan2. destruct (Rlt_dec 0 (80 - 0)) as [_ | H]; [| lra].
  replace (- (0 - 0) / (80 - 0)) with 0 by (field; lra).
  rewrite atan_0. unfold wrap. destruct (Rlt_dec 0 0); lra.
Qed.

Lemma needle_down_status :
  angle_from_lines Examples.needle_down 0 0 100 0.15 0.6 0.65 1 = Angle 0.
Proof.
  unfold Examples.needle_down.
  rewrite angle_from_single_line, needle_down_angle;
    [reflexivity | exact needle_down_qualifies |].
  unfold candidate_length.
  rewrite dist_2_pts_same_x, Rabs_of_nonneg; lra.
Qed.

(** *** Two segments of one needle *)





(** ** The dial locator *)

Lemma mean_cons (v : R) (l : list R) :
  mean (v :: l) = Some (Rsum (v :: l) / INR (length (v :: l))).
Proof. reflexivity. Qed.

(** *** The mean of the circles *)

Lemma pow_1u_ge_1 (u : R) (n : nat) : 0 <= u -> 1 <= (1 + u) ^ n.
Proof. intros Hu. apply pow_R1_Rle. lra. Qed.

Lemma Rabs_sum_le (l : list R) :
  Rabs (fold_right Rplus 0 l) <= fold_right Rplus 0 (map Rabs l).
Proof.
  induction l as [| v t IH]; cbn [fold_right map].
  - rewrite Rabs_R0. lra.
  - eapply Rle_trans; [apply Rabs_triang |]. lra.
Qed.

Lemma sum_abs_nonneg (l : list R) : 0 <= fold_right Rplus 0 (map Rabs l).
Proof.
  induction l as [| v t IH]; cbn [fold_right map]; [lra |].
  pose proof (Rabs_pos v). lra.
Qed.

(** Adding up in binary32, one number after the other: [acc] stands for
    the exact sum [s] of the first [j + 1] numbers, whose absolute values
    add up to at most [A]. *)
Lemma sum_error (F : Rounded.Arithmetic) (u : R) (t : list R) :
  standard_model u F ->
  forall (acc s A : R) (j : nat),
    Rabs (acc - s) <= ((1 + u) ^ j - 1) * A -> Rabs s <= A ->
    Rabs (fold_left (fun a w => Rounded.single F (a + w)) t acc
          - (s + fold_right Rplus 0 t))
    <= ((1 + u) ^ (j + length t) - 1)
       * (A + fold_right Rplus 0 (map Rabs t)).
Proof.
  intros HF. pose proof (unit_roundoff u F HF) as Hu.
  induction t as [| w t IH]; intros acc s A j Hacc Hs.
  - cbn [fold_left fold_right map length].
    rewrite Nat.add_0_r, !Rplus_0_r. exact Hacc.
  - cbn [fold_left fold_right map length].
    replace (s + (w + fold_right Rplus 0 t))
      with ((s + w) + fold_right Rplus 0 t) by ring.
    replace (A + (Rabs w + fold_right Rplus 0 (map Rabs t)))
      with ((A + Rabs w) + fold_right Rplus 0 (map Rabs t)) by ring.
    rewrite Nat.add_succ_r. change (S (j + length t)) with (S j + length t)%nat.
    apply IH.
    + pose proof (proj1 (proj2 HF) (acc + w)) as Hr.
      pose proof (pow_1u_ge_1 u j (proj1 Hu)) as Hp.
      pose proof (Rabs_pos w) as Hw. pose proof (Rabs_pos s) as Hs0.
      assert (Ht : Rabs (acc + w) <= Rabs (acc - s) + (A + Rabs w)).
      { replace (acc + w) with ((acc - s) + (s + w)) by ring.
        eapply Rle_trans; [apply Rabs_triang |].
        pose proof (Rabs_triang s w). lra. }
      replace (Rounded.single F (acc + w) - (s + w))
        with ((Rounded.single F (acc + w) - (acc + w)) + (acc - s)) by ring.
      eapply Rle_trans; [apply Rabs_triang |].
      change ((1 + u) ^ S j) with ((1 + u) * (1 + u) ^ j).
      set (E := (1 + u) ^ j) in *.
      set (a1 := Rabs (Rounded.single F (acc + w) - (acc + w))) in *.
      set (a2 := Rabs (acc - s)) in *. set (a3 := Rabs (acc + w)) in *.
      set (aw := Rabs w) in *.
      assert (H1 : u * a3 <= u * (a2 + (A + aw)))
        by (apply Rmult_le_compat_l; lra).
      assert (H2 : (1 + u) * a2 <= (1 + u) * ((E - 1) * A))
        by (apply Rmult_le_compat_l; lra).
      assert (H3 : 0 <= (1 + u) * ((E - 1) * aw))
        by (apply Rmult_le_pos; [lra | apply Rmult_le_pos; lra]).
      lra.
    + eapply Rle_trans; [apply Rabs_triang |]. lra.
Qed.

Lemma mean_error (F : Rounded.Arithmetic) (u : R) (v : R) (t : list R) :
  standard_model u F ->
  exists m,
    Rounded.mean F (v :: t) = Some m
    /\ Rabs (m - arithmetic_mean (v :: t))
       <= ((1 + u) ^ length (v :: t) - 1) * mean_magnitude (v :: t).
Proof.
  intros HF. pose proof (unit_roundoff u F HF) as Hu.
  eexists. split; [reflexivity |].
  unfold Rounded.sum, arithmetic_mean, mean_magnitude.
  set (n := INR (length (v :: t))).
  assert (Hn : 0 < n) by (apply lt_0_INR; cbn; lia).
  assert (Hi : 0 < / n) by now apply Rinv_0_lt_compat.
  set (s' := fold_left (fun a w => Rounded.single F (a + w)) t v).
  set (S := fold_right Rplus 0 (v :: t)).
  set (A := fold_right Rplus 0 (map Rabs (v :: t))).
  assert (Hsum : Rabs (s' - S) <= ((1 + u) ^ length t - 1) * A).
  { pose proof (sum_error F u t HF v v (Rabs v) 0) as H.
    cbn [pow Nat.add] in H. unfold s', S, A. cbn [fold_right map].
    apply H; [| lra].
    replace (v - v) with 0 by ring. rewrite Rabs_R0. lra. }
  assert (HSA : Rabs S <= A) by apply Rabs_sum_le.
  pose proof (proj1 (proj2 HF) (s' / n)) as Hr.
  pose proof (pow_1u_ge_1 u (length t) (proj1 Hu)) as Hp.
  assert (Hq : Rabs (s' / n) = Rabs s' * / n).
  { unfold Rdiv. rewrite Rabs_mult. f_equal. apply Rabs_right. lra. }
  assert (Hd : Rabs (s' / n - S / n) = Rabs (s' - S) * / n).
  { replace (s' / n - S / n) with ((s' - S) * / n) by (unfold Rdiv; ring).
    rewrite Rabs_mult. f_equal. apply Rabs_right. lra. }
  assert (Hs' : Rabs s' <= Rabs (s' - S) + A).
  { replace s' with ((s' - S) + S) at 1 by ring.
    eapply Rle_trans; [apply Rabs_triang |]. lra. }
  replace (Rounded.single F (s' / n) - S / n)
    with ((Rounded.single F (s' / n) - s' / n) + (s' / n - S / n)) by ring.
  eapply Rle_trans; [apply Rabs_triang |].
  rewrite Hd. rewrite Hq in Hr.
  change (length (v :: t)) with (Datatypes.S (length t)).
  change ((1 + u) ^ Datatypes.S (length t))
    with ((1 + u) * (1 + u) ^ length t).
  pose proof (Rabs_pos (s' - S)) as H0.
  assert (HA : 0 <= A) by apply sum_abs_nonneg.
  set (E := (1 + u) ^ length t) in *.
  set (a1 := Rabs (Rounded.single F (s' / n) - s' / n)) in *.
  set (a2 := Rabs (s' - S)) in *. set (a3 := Rabs s') in *.
  unfold Rdiv.
  set (X := A * / n). set (Y := a2 * / n).
  assert (H3 : 0 <= X) by (apply Rmult_le_pos; lra).
  assert (H2 : Y <= (E - 1) * X).
  { unfold X, Y. rewrite <- Rmult_assoc.
    apply Rmult_le_compat_r; lra. }
  assert (H1 : a1 <= u * (Y + X)).
  { eapply Rle_trans; [exact Hr |]. apply Rmult_le_compat_l; [lra |].
    unfold X, Y. rewrite <- Rmult_plus_distr_r.
    apply Rmult_le_compat_r; lra. }
  assert (H4 : (1 + u) * Y <= (1 + u) * ((E - 1) * X))
    by (apply Rmult_le_compat_l; lra).
  lra.
Qed.

Lemma fold_left_plus (t : list R) (acc : R) :
  fold_left (fun a w => a + w) t acc = acc + fold_right Rplus 0 t.
Proof.
  revert acc. induction t as [| w t IH]; intros acc; cbn [fold_left fold_right].
  - ring.
  - rewrite IH. ring.
Qed.

Lemma mean_exact (v : R) (t : list R) :
  Rounded.mean Rounded.exact (v :: t) = Some (arithmetic_mean (v :: t))
  /\ mean (v :: t) = Some (arithmetic_mean (v :: t)).
Proof.
  split; [| reflexivity].
  unfold Rounded.mean, Rounded.sum, Rounded.exact, arithmetic_mean.
  cbn [Rounded.single]. now rewrite fold_left_plus.
Qed.

Lemma mean_single (F : Rounded.Arithmetic) (v : R) :
  Rounded.single F v = v -> Rounded.mean F [v] = Some v.
Proof.
  intros H. unfold Rounded.mean, Rounded.sum. cbn [fold_left length INR].
  replace (v / 1) with v by field. now rewrite H.
Qed.

Lemma mean_circle_unfold (F : Rounded.Arithmetic) (row : list Circle) :
  Rounded.mean_circle F row
  = match Rounded.mean F (map cx row), Rounded.mean F (map cy row),
          Rounded.mean F (map cr row) with
    | Some x, Some y, Some r => Some (x, y, r)
    | _, _, _ => None
    end.
Proof. reflexivity. Qed.

(** What [detect_dial] returns for one row of at least one circle. *)
Lemma detect_dial_error
    (F : Rounded.Arithmetic) (u : R)
    (cv : Capability) (gray : Image) (use_filter : bool) (blur_size : Z)
    (min_diameter max_diameter : R) (c : Circle) (cs : list Circle) :
  standard_model u F ->
  HoughCircles cv
    (if use_filter then medianBlur cv gray blur_size else gray)
    (Py.int (Rounded.double F
               (Rounded.double F
                  (IZR (Z.min (height gray) (width gray)) * 0.5)
                * min_diameter)))
    (Py.int (Rounded.double F
               (Rounded.double F
                  (IZR (Z.min (height gray) (width gray)) * 0.5)
                * max_diameter)))
  = Some [c :: cs] ->
  exists x y r,
    Rounded.detect_dial F cv gray use_filter blur_size
                        min_diameter max_diameter
    = Dial x y r
    /\ Rabs (x - arithmetic_mean (map cx (c :: cs)))
       <= ((1 + u) ^ length (c :: cs) - 1)
          * mean_magnitude (map cx (c :: cs))
    /\ Rabs (y - arithmetic_mean (map cy (c :: cs)))
       <= ((1 + u) ^ length (c :: cs) - 1)
          * mean_magnitude (map cy (c :: cs))
    /\ Rabs (r - arithmetic_mean (map cr (c :: cs)))
       <= ((1 + u) ^ length (c :: cs) - 1)
          * mean_magnitude (map cr (c :: cs)).
Proof.
  intros HF H. unfold Rounded.detect_dial. cbv zeta.
  rewrite H. unfold Rounded.average_circles.
  rewrite mean_circle_unfold. cbn [map].
  destruct (mean_error F u (cx c) (map cx cs) HF) as (x & Hx & Bx).
  destruct (mean_error F u (cy c) (map cy cs) HF) as (y & Hy & By).
  destruct (mean_error F u (cr c) (map cr cs) HF) as (r & Hr & Br).
  rewrite Hx, Hy, Hr. exists x, y, r.
  cbn [length] in Bx, By, Br. rewrite length_map in Bx, By, Br.
  split; [reflexivity |]. split; [exact Bx |]. split; [exact By | exact Br].
Qed.

(** C8 (as amended). When the circle detection returns [k >= 1] circles,
    [detect_dial] returns for x, for y and for r the binary32 result of
    adding the [k] values up one after the other and dividing by [k].  It
    differs from the arithmetic mean of the values by at most
    [(1 + u)^k - 1] times the mean of their absolute values, where [u] is
    the unit roundoff; it is the arithmetic mean when nothing is rounded,
    and the circle itself when [k = 1].  When the detection returns none,
    [detect_dial] returns [None] for the three, and the loop raises the
    [DetectionError] 'No circles found'.  Of three circles with radii 100.5,
    101 and 102, binary32 makes the radius 101.16666412353516. *)
Theorem detect_dial_mean
    (F : Rounded.Arithmetic) (u : R)
    (cv : Capability) (gray : Image) (use_filter : bool) (blur_size : Z)
    (min_diameter max_diameter : R) (c : Circle) (cs : list Circle) :
  standard_model u F ->
  let blurred := if use_filter then medianBlur cv gray blur_size else gray in
  let r_max :=
    Rounded.double F (IZR (Z.min (height gray) (width gray)) * 0.5) in
  let circles :=
    HoughCircles cv blurred
      (Py.int (Rounded.double F (r_max * min_diameter)))
      (Py.int (Rounded.double F (r_max * max_diameter))) in
  let e := (1 + u) ^ length (c :: cs) - 1 in
  (circles = Some [c :: cs] ->
   exists x y r,
     Rounded.detect_dial F cv gray use_filter blur_size
                         min_diameter max_diameter
     = Dial x y r
     /\ Rabs (x - arithmetic_mean (map cx (c :: cs)))
        <= e * mean_magnitude (map cx (c :: cs))
     /\ Rabs (y - arithmetic_mean (map cy (c :: cs)))
        <= e * mean_magnitude (map cy (c :: cs))
     /\ Rabs (r - arithmetic_mean (map cr (c :: cs)))
        <= e * mean_magnitude (map cr (c :: cs)))
  /\ (circles = None \/ circles = Some [] ->
      Rounded.detect_dial F cv gray use_filter blur_size
                          min_diameter max_diameter
      = DialNone)
  /\ Rounded.average_circles Rounded.exact (Some [c :: cs])
     = Dial (arithmetic_mean (map cx (c :: cs)))
            (arithmetic_mean (map cy (c :: cs)))
            (arithmetic_mean (map cr (c :: cs)))
  /\ average_circles (Some [c :: cs])
     = Dial (arithmetic_mean (map cx (c :: cs)))
            (arithmetic_mean (map cy (c :: cs)))
            (arithmetic_mean (map cr (c :: cs)))
  /\ (Rounded.single F (cx c) = cx c -> Rounded.single F (cy c) = cy c ->
      Rounded.single F (cr c) = cr c ->
      Rounded.average_circles F (Some [[c]]) = Dial (cx c) (cy c) (cr c))
  /\ (forall cfg calibration_lst,
        detect_dial cv gray true 5 0.4 0.9 = DialNone ->
        measure cfg cv gray calibration_lst
        = DetectionError NoCirclesFound calibration_lst)
  /\ Binary.average_circles (Some [BinaryExamples.three_circles])
     = Binary.Dial 100 100 101.16666412353516.
Proof.
  intros HF blurred r_max circles e.
  split; [| split; [| split; [| split; [| split; [| split]]]]].
  - intros H.
    exact (detect_dial_error F u cv gray use_filter blur_size
             min_diameter max_diameter c cs HF H).
  - intros H. unfold Rounded.detect_dial. cbv zeta.
    fold blurred. fold r_max. fold circles.
    destruct H as [H | H]; now rewrite H.
  - unfold Rounded.average_circles. rewrite mean_circle_unfold. cbn [map].
    rewrite !(proj1 (mean_exact _ _)). reflexivity.
  - reflexivity.
  - intros Hx Hy Hr. unfold Rounded.average_circles.
    rewrite mean_circle_unfold. cbn [map].
    now rewrite !mean_single.
  - intros cfg lst H. unfold measure. now rewrite H.
  - vm_compute. reflexivity.
Qed.

Lemma detect_dial_mean_witness :
  exists x y r,
    Rounded.detect_dial (Rounded.inflating RoundedExamples.u32)
      (Examples.scripted (Some [RoundedExamples.three_circles]) None)
      Examples.blank true 5 0.4 0.9
    = Dial x y r
    /\ Rabs (x - arithmetic_mean (map cx RoundedExamples.three_circles))
       <= ((1 + RoundedExamples.u32) ^ 3 - 1)
          * mean_magnitude (map cx RoundedExamples.three_circles)
    /\ Rabs (y - arithmetic_mean (map cy RoundedExamples.three_circles))
       <= ((1 + RoundedExamples.u32) ^ 3 - 1)
          * mean_magnitude (map cy RoundedExamples.three_circles)
    /\ Rabs (r - arithmetic_mean (map cr RoundedExamples.three_circles))
       <= ((1 + RoundedExamples.u32) ^ 3 - 1)
          * mean_magnitude (map cr RoundedExamples.three_circles).
Proof.
  assert (Hu : 0 <= RoundedExamples.u32 < 1)
    by (unfold RoundedExamples.u32; lra).
  exact (proj1 (detect_dial_mean
                  (Rounded.inflating RoundedExamples.u32)
                  RoundedExamples.u32
                  (Examples.scripted (Some [RoundedExamples.three_circles])
                                     None)
                  Examples.blank true 5 0.4 0.9
                  (100, 100, 100.5) [(100, 100, 101); (100, 100, 102)]
                  (inflating_standard _ Hu))
               eq_refl).
Defined.

(** C8, the claim as stated fails: three circles with the radii 100.5, 101
    and 102, which are binary32 numbers, give the radius
    101.16666412353516, the binary32 number nearest to their mean
    303.5 / 3; the mean itself is no binary32 number. *)
Lemma detect_dial_mean_counterexample :
  Binary.average_circles (Some [BinaryExamples.three_circles])
  = Binary.Dial 100 100 101.16666412353516
  /\ map Binary.single [100.5; 101; 102]%float = [100.5; 101; 102]%float
  /\ Binary.to_R 101.16666412353516
     <> (Binary.to_R 100.5 + Binary.to_R 101 + Binary.to_R 102) / 3.
Proof.
  split; [vm_compute; reflexivity |].
  split; [vm_compute; reflexivity |].
  float_value. lra.
Qed.

(** ** The dial stabiliser *)

Lemma trim_skipn {A : Type} (N : Z) (l : list A) :
  (0 <= N)%Z ->
  Py.trim N l = Some (skipn (length l - Z.to_nat N) l).
Proof.
  intros HN. induction l as [| a t IH].
  - cbn. destruct (0 >? N)%Z eqn:E; [lia | reflexivity].
  - cbn [Py.trim]. rewrite Z.gtb_ltb.
    destruct (N <? Z.of_nat (length (a :: t)))%Z eqn:E.
    + apply Z.ltb_lt in E. rewrite IH. f_equal.
      change (length (a :: t)) with (S (length t)) in *.
      replace (S (length t) - Z.to_nat N)%nat
        with (S (length t - Z.to_nat N)) by lia.
      reflexivity.
    + apply Z.ltb_ge in E. f_equal.
      replace (length (a :: t) - Z.to_nat N)%nat with 0%nat by lia.
      reflexivity.
Qed.

Lemma lastn_length {A : Type} (n : nat) (l : list A) :
  length (lastn n l) = Nat.min (length l) n.
Proof. unfold lastn. rewrite length_skipn. lia. Qed.

Lemma lastn_snoc {A : Type} (n : nat) (l : list A) (p : A) :
  (1 <= n)%nat -> lastn n (lastn n l ++ [p]) = lastn n (l ++ [p]).
Proof.
  intros Hn. unfold lastn at 1 3.
  rewrite !length_app, lastn_length. cbn [length]. unfold lastn.
  destruct (Nat.le_gt_cases (length l) n) as [Hle | Hgt].
  - replace (length l - n)%nat with 0%nat by lia. cbn [skipn].
    now rewrite Nat.min_l by lia.
  - rewrite Nat.min_r by lia.
    replace (n + 1 - n)%nat with 1%nat by lia.
    rewrite !skipn_app, skipn_skipn, length_skipn.
    replace (1 - (length l - (length l - n)))%nat with 0%nat by lia.
    replace (length l + 1 - n - length l)%nat with 0%nat by lia.
    f_equal. f_equal. lia.
Qed.

Lemma insert_sorted_length (v : R) (l : list R) :
  length (insert_sorted v l) = S (length l).
Proof.
  induction l as [| h t IH]; [reflexivity |].
  cbn. destruct (Rle_dec v h); cbn; [reflexivity | now rewrite IH].
Qed.

Lemma sort_length (l : list R) : length (sort l) = length l.
Proof.
  unfold sort. induction l as [| h t IH]; [reflexivity |].
  cbn [fold_right length]. now rewrite insert_sorted_length, IH.
Qed.

Ltac sort_given :=
  unfold sort; cbn [fold_right insert_sorted];
  repeat (Rcases; cbn [insert_sorted]); try reflexivity.

Lemma median_examples :
  median [3; 1; 2] = Some 2 /\ median [4; 1] = Some (5 / 2).
Proof.
  assert (S1 : sort [3; 1; 2] = [1; 2; 3]) by sort_given.
  assert (S2 : sort [4; 1] = [1; 4]) by sort_given.
  unfold median. rewrite S1, S2. cbn. split; f_equal; lra.
Qed.

Lemma median_defined (l : list R) : l <> [] -> exists m, median l = Some m.
Proof.
  intros Hne. unfold median. rewrite sort_length.
  destruct l as [| a t]; [congruence |]. cbn [length].
  destruct (Nat.even (S (length t))); eauto.
Qed.

Lemma median_axis0_defined (l : list Circle) :
  l <> [] ->
  exists mx my mr,
    median (map cx l) = Some mx /\ median (map cy l) = Some my
    /\ median (map cr l) = Some mr
    /\ median_axis0 l = Some (mx, my, mr).
Proof.
  intros Hne.
  assert (Hm : forall f : Circle -> R, map f l <> [])
    by (intros f E; apply map_eq_nil in E; contradiction).
  destruct (median_defined (map cx l) (Hm cx)) as [mx Hx].
  destruct (median_defined (map cy l) (Hm cy)) as [my Hy].
  destruct (median_defined (map cr l) (Hm cr)) as [mr Hr].
  exists mx, my, mr. repeat split; try assumption.
  assert (E : median_axis0 l
              = match median (map cx l), median (map cy l),
                      median (map cr l) with
                | Some x, Some y, Some r => Some (x, y, r)
                | _, _, _ => None
                end) by reflexivity.
  now rewrite E, Hx, Hy, Hr.
Qed.

Lemma lastn_snoc_nonempty {A : Type} (n : nat) (l : list A) (p : A) :
  (1 <= n)%nat -> lastn n (l ++ [p]) <> [].
Proof.
  intros Hn E. apply (f_equal (@length A)) in E.
  rewrite lastn_length, length_app in E. cbn in E. lia.
Qed.

(** One push into a history that holds the last [N] of the earlier pushes. *)
Lemma stabilize_push (N : Z) (prev : list Circle) (raw : Circle) :
  (1 < N)%Z ->
  exists mx my mr,
    let window := lastn (Z.to_nat N) (prev ++ [raw]) in
    median (map cx window) = Some mx /\ median (map cy window) = Some my
    /\ median (map cr window) = Some mr
    /\ stabilize N (lastn (Z.to_nat N) prev) raw
       = Some (window, (mx, my, mr)).
Proof.
  intros HN. cbn zeta.
  destruct (median_axis0_defined (lastn (Z.to_nat N) (prev ++ [raw])))
    as (mx & my & mr & Hx & Hy & Hr & Hm).
  { apply lastn_snoc_nonempty. lia. }
  exists mx, my, mr. repeat split; try assumption.
  unfold stabilize. destruct (N >? 1)%Z eqn:E; [| lia].
  rewrite trim_skipn by lia.
  change (skipn (length (lastn (Z.to_nat N) prev ++ [raw]) - Z.to_nat N)
                (lastn (Z.to_nat N) prev ++ [raw]))
    with (lastn (Z.to_nat N) (lastn (Z.to_nat N) prev ++ [raw])).
  rewrite lastn_snoc by lia. now rewrite Hm.
Qed.


Lemma insert_sorted_in (v w : R) (l : list R) :
  In w (insert_sorted v l) -> w = v \/ In w l.
Proof.
  induction l as [| h t IH]; cbn.
  - intros [<- | []]. now left.
  - destruct (Rle_dec v h); cbn.
    + intros [<- | H]; [now left | now right].
    + intros [<- | H]; [right; now left |].
      destruct (IH H) as [-> | Ht]; [now left | right; now right].
Qed.

Lemma sort_in (w : R) (l : list R) : In w (sort l) -> In w l.
Proof.
  unfold sort. induction l as [| h t IH]; cbn [fold_right]; [easy |].
  intros H. apply insert_sorted_in in H.
  destruct H as [-> | H]; [now left | right; now apply IH].
Qed.

Lemma insert_sorted_sorted (v : R) (l : list R) :
  StronglySorted Rle l -> StronglySorted Rle (insert_sorted v l).
Proof.
  induction 1 as [| h t Hs IH Hall]; cbn.
  - constructor; constructor.
  - destruct (Rle_dec v h) as [Hle | Hgt].
    + constructor; [now constructor |].
      constructor; [exact Hle |].
      apply (Forall_impl _ (fun a (Ha : h <= a) => Rle_trans _ _ _ Hle Ha)).
      exact Hall.
    + constructor; [exact IH |].
      apply Forall_forall. intros a Ha.
      apply insert_sorted_in in Ha. destruct Ha as [-> | Ha]; [lra |].
      rewrite Forall_forall in Hall. now apply Hall.
Qed.

Lemma sort_sorted (l : list R) : StronglySorted Rle (sort l).
Proof.
  unfold sort. induction l as [| h t IH]; cbn [fold_right].
  - constructor.
  - now apply insert_sorted_sorted.
Qed.







(** ** The main loop *)

Ltac run_io :=
  unfold bind, ret, time_time, send_warning, time_sleep;
  cbn [fst snd clock ticks sent
       debug_export_number last_warn_time calibration_lst values_lst avg
       loop_start_time last_successful_detection_time
       set_debug_export_number set_last_warn_time set_calibration_lst
       set_values_lst set_avg set_loop_start_time
       set_last_successful_detection_time].

Lemma rate_limit_run (cfg : Config) (st : State) (w : World) :
  exists w',
    rate_limit cfg st w = (tt, w')
    /\ clock w' = clock w /\ sent w' = sent w
    /\ (ticks w <= ticks w' <= S (ticks w))%nat.
Proof.
  unfold rate_limit.
  destruct (truthy (min_measurement_interval cfg));
    [destruct (min_measurement_interval cfg) |];
    run_io; eexists; (split; [reflexivity |]); cbn; auto with arith.
Qed.

Lemma watchdog_run (cfg : Config) (st : State) (w : World) :
  exists st' w',
    watchdog cfg st w = (st', w')
    /\ clock w' = clock w /\ (ticks w < ticks w')%nat
    /\ last_successful_detection_time st' = last_successful_detection_time st
    /\ values_lst st' = values_lst st
    /\ calibration_lst st' = calibration_lst st
    /\ debug_export_number st' = debug_export_number st
    /\ (Rltb (last_successful_detection_time st + warn_no_detections_s cfg)
             (clock w (ticks w)) = false ->
        sent w' = sent w /\ last_warn_time st' = last_warn_time st).
Proof.
  unfold watchdog. run_io.
  destruct (Rltb (last_successful_detection_time st
                  + warn_no_detections_s cfg) (clock w (ticks w))); run_io.
  - destruct (Rltb (last_warn_time st + warn_interval cfg)
                   (clock w (S (ticks w)))); run_io;
      do 2 eexists; (split; [reflexivity |]); cbn;
      repeat split; auto with arith; discriminate.
  - do 2 eexists. split; [reflexivity |]. cbn. repeat split; auto with arith.
Qed.

Lemma process_value_run (cfg : Config) (value : R) (st : State) (w : World)
    (lst : list R) :
  Py.trim (median_filter_value_N cfg) (values_lst st ++ [value]) = Some lst ->
  exists st' w' k,
    process_value cfg value st w = (Some st', w')
    /\ clock w' = clock w /\ ticks w' = S k /\ (ticks w <= k)%nat
    /\ last_successful_detection_time st' = clock w k
    /\ values_lst st' = lst
    /\ calibration_lst st' = calibration_lst st
    /\ debug_export_number st' = debug_export_number st
    /\ (if alert_due cfg st lst (clock w (ticks w))
        then exists m, median lst = Some m
                       /\ sent w' = sent w ++ [OutOfRange m]
                       /\ last_warn_time st' = clock w (S (ticks w))
        else sent w' = sent w /\ last_warn_time st' = last_warn_time st).
Proof.
  intros Htrim. unfold process_value, alert_due. rewrite Htrim.
  destruct (Z.of_nat (length lst) >=? median_filter_value_N cfg)%Z;
    cbn [andb]; run_io.
  - destruct (Rltb (last_warn_time st + warn_interval cfg)
                   (clock w (ticks w))); cbn [andb]; run_io.
    + destruct (median lst) as [m |] eqn:Em; run_io.
      * destruct (out_of_range cfg (Some m)); run_io;
          do 3 eexists; (split; [reflexivity |]); cbn;
          repeat split; eauto with arith.
      * do 3 eexists. split; [reflexivity |]. cbn.
        repeat split; eauto with arith.
    + do 3 eexists. split; [reflexivity |]. cbn.
      repeat split; eauto with arith.
  - do 3 eexists. split; [reflexivity |]. cbn. repeat split; eauto with arith.
Qed.

Lemma measure_detection_error (cfg : Config) (cv : Capability) (gray : Image)
    (lst lst' : list Circle) (e : detection_error) :
  measure cfg cv gray lst = DetectionError e lst' ->
  e = NoCirclesFound \/ e = NeedleNotFound NoLines
  \/ (exists n, e = NeedleNotFound (TooMany n))
  \/ e = NeedleNotFound NoNeedle.
Proof.
  unfold measure.
  destruct (detect_dial cv gray true 5 0.4 0.9) as [| x y r |];
    [intros [= <- _]; now left | | discriminate].
  destruct (stabilize _ _ _) as [[l [[x' y'] r']] |]; [| discriminate].
  destruct (draw_dial_raises cfg); [discriminate |].
  destruct (get_needle_angle _ _ _ _ _ _ _ _ _ _ _ _ _ _ _)
    as [[[| n | | a |] af] h]; try discriminate.
  - intros [= <- _]. right; now left.
  - intros [= <- _]. right; right; left. now exists n.
  - intros [= <- _]. right; right; now right.
  - destruct (convert cfg a); discriminate.
Qed.

Lemma iteration_unfold (cfg : Config) (cv : Capability) (gray : Image)
    (st : State) (w : World) :
  iteration cfg cv gray st w
  = let w1 := snd (rate_limit cfg st w) in
    let st1 := set_loop_start_time (clock w1 (ticks w1)) st in
    let w2 := {| clock := clock w1; ticks := S (ticks w1); sent := sent w1 |} in
    let '(r, w3) :=
      match measure cfg cv gray (calibration_lst st) with
      | Value value lst =>
          process_value cfg value (set_calibration_lst lst st1) w2
      | DetectionError _ lst =>
          (Some (set_debug_export_number
                   ((debug_export_number st + 1) mod 10)
                   (set_calibration_lst lst st1)), w2)
      | NotANumber | Uncaught => (None, w2)
      end in
    match r with
    | Some st3 => let '(st4, w4) := watchdog cfg st3 w3 in (Some st4, w4)
    | None => (None, w3)
    end.
Proof.
  unfold iteration. unfold bind at 1.
  destruct (rate_limit cfg st w) as [[] w1]. cbn [snd].
  unfold bind at 1. unfold time_time at 1.
  cbn [calibration_lst set_loop_start_time]. unfold bind at 1.
  destruct (measure cfg cv gray (calibration_lst st)); try reflexivity.
  cbn zeta.
  destruct (process_value _ _ _ _) as [[st3 |] w3]; reflexivity.
Qed.

(** How one iteration ends, by the outcome of lines 214-263. *)
Lemma iteration_run (cfg : Config) (cv : Capability) (gray : Image)
    (st : State) (w : World) :
  match measure cfg cv gray (calibration_lst st) with
  | DetectionError e lst =>
      exists st' w',
        iteration cfg cv gray st w = (Some st', w')
        /\ clock w' = clock w /\ (ticks w < ticks w')%nat
        /\ last_successful_detection_time st'
           = last_successful_detection_time st
        /\ values_lst st' = values_lst st
        /\ calibration_lst st' = lst
        /\ debug_export_number st' = ((debug_export_number st + 1) mod 10)%Z
  | Value value lst =>
      match Py.trim (median_filter_value_N cfg) (values_lst st ++ [value]) with
      | Some vals =>
          exists st' w' k,
            iteration cfg cv gray st w = (Some st', w')
            /\ clock w' = clock w
            /\ (ticks w < k < ticks w')%nat
            /\ last_successful_detection_time st' = clock w k
            /\ values_lst st' = vals
            /\ calibration_lst st' = lst
      | None => fst (iteration cfg cv gray st w) = None
      end
  | NotANumber | Uncaught => fst (iteration cfg cv gray st w) = None
  end.
Proof.
  rewrite iteration_unfold.
  destruct (rate_limit_run cfg st w) as (w1 & Hrl & Hc1 & Hs1 & Ht1).
  rewrite Hrl. cbn [snd]. cbn zeta.
  set (w2 := {| clock := clock w1; ticks := S (ticks w1); sent := sent w1 |}).
  set (st1 := set_loop_start_time (clock w1 (ticks w1)) st).
  destruct (measure cfg cv gray (calibration_lst st)) as [v lst | e lst | |].
  - destruct (Py.trim (median_filter_value_N cfg) (values_lst st ++ [v]))
      as [vals |] eqn:Htrim.
    + destruct (process_value_run cfg v (set_calibration_lst lst st1) w2 vals)
        as (st3 & w3 & k & Hpv & Hc3 & Ht3 & Hk & Hl & Hv & Hcal & _);
        [exact Htrim |].
      destruct (watchdog_run cfg st3 w3)
        as (st4 & w4 & Hwd & Hc4 & Ht4 & Hl4 & Hv4 & Hcal4 & _).
      rewrite Hpv, Hwd. exists st4, w4, k. split; [reflexivity |].
      cbn in Hk, Hl, Hcal, Hc3. rewrite Hl4, Hl, Hv4, Hv, Hcal4, Hcal, Hc1.
      rewrite Hc4, Hc3, Hc1.
      repeat split; try reflexivity; lia.
    + unfold process_value.
      change (values_lst (set_calibration_lst lst st1)) with (values_lst st).
      rewrite Htrim. reflexivity.
  - set (st3 := set_debug_export_number _ _).
    destruct (watchdog_run cfg st3 w2)
      as (st4 & w4 & Hwd & Hc4 & Ht4 & Hl4 & Hv4 & Hcal4 & Hd4 & _).
    rewrite Hwd. exists st4, w4.
    split; [reflexivity |]. rewrite Hl4, Hv4, Hcal4, Hd4, Hc4.
    cbn in Ht4 |- *. repeat split; try assumption; lia.
  - reflexivity.
  - reflexivity.
Qed.

(** What lines 214-263 do to [calibration_lst]. *)
Lemma measure_history (cfg : Config) (cv : Capability) (gray : Image)
    (lst : list Circle) :
  match measure cfg cv gray lst with
  | Value _ lst' | DetectionError _ lst' =>
      lst' = lst
      \/ exists raw out,
           stabilize (median_filter_dial_position_N cfg) lst raw
           = Some (lst', out)
  | NotANumber | Uncaught => True
  end.
Proof.
  unfold measure.
  destruct (detect_dial cv gray true 5 0.4 0.9) as [| x y r |];
    [now left | | exact I].
  destruct (stabilize _ _ _) as [[l [[x' y'] r']] |] eqn:Es; [| exact I].
  destruct (draw_dial_raises cfg); [exact I |].
  destruct (get_needle_angle _ _ _ _ _ _ _ _ _ _ _ _ _ _ _)
    as [[[| n | | a |] af] h]; try exact I; try (right; eauto).
  destruct (convert cfg a); [right; eauto | exact I].
Qed.

(** What the silence watchdog does to the state and to the world: it reads
    the clock once, or up to three times, and writes [last_warn_time] and
    nothing else. *)
Lemma watchdog_effect (cfg : Config) (st : State) (w : World) :
  exists st' w',
    watchdog cfg st w = (st', w')
    /\ clock w' = clock w /\ (ticks w < ticks w')%nat
    /\ st' = set_last_warn_time (last_warn_time st') st
    /\ (if silence_alert_due cfg st (clock w (ticks w)) (clock w (S (ticks w)))
        then sent w' = sent w
                       ++ [NoMeasurement (last_successful_detection_time st)]
             /\ last_warn_time st' = clock w (S (S (ticks w)))
        else sent w' = sent w /\ last_warn_time st' = last_warn_time st).
Proof.
  unfold watchdog, silence_alert_due. run_io. destruct st.
  cbn [last_successful_detection_time last_warn_time].
  destruct (Rltb _ (clock w (ticks w))); cbn [andb]; run_io.
  - destruct (Rltb _ (clock w (S (ticks w)))); run_io;
      do 2 eexists; (split; [reflexivity |]); cbn;
      repeat split; auto with arith.
  - do 2 eexists. split; [reflexivity |]. cbn. repeat split; auto with arith.
Qed.

Lemma rate_limit_exact (cfg : Config) (st : State) (w : World) :
  rate_limit cfg st w
  = (tt, {| clock := clock w; ticks := line_195 cfg w; sent := sent w |}).
Proof.
  unfold rate_limit, line_195. destruct w as [c t s].
  destruct (truthy (min_measurement_interval cfg)) eqn:E.
  - destruct (min_measurement_interval cfg); [| discriminate].
    run_io. now rewrite Nat.add_1_r.
  - run_io. now rewrite Nat.add_0_r.
Qed.

(** A frame that ends in a [DetectionError], in full. *)
Lemma iteration_detection_error (cfg : Config) (cv : Capability)
    (gray : Image) (st : State) (w : World) (e : detection_error)
    (lst : list Circle) :
  measure cfg cv gray (calibration_lst st) = DetectionError e lst ->
  exists st' w',
    iteration cfg cv gray st w = (Some st', w')
    /\ last_successful_detection_time st' = last_successful_detection_time st
    /\ values_lst st' = values_lst st
    /\ avg st' = avg st
    /\ debug_export_number st' = ((debug_export_number st + 1) mod 10)%Z
    /\ calibration_lst st' = lst
    /\ loop_start_time st' = clock w (line_195 cfg w)
    /\ (if silence_alert_due cfg st (clock w (S (line_195 cfg w)))
                             (clock w (S (S (line_195 cfg w))))
        then sent w' = sent w
                       ++ [NoMeasurement (last_successful_detection_time st)]
             /\ last_warn_time st' = clock w (S (S (S (line_195 cfg w))))
        else sent w' = sent w /\ last_warn_time st' = last_warn_time st).
Proof.
  intros Hm. rewrite iteration_unfold, Hm, rate_limit_exact.
  cbn [snd clock ticks sent]. cbn zeta.
  set (k := line_195 cfg w).
  set (st3 := set_debug_export_number _ _).
  set (w2 := {| clock := clock w; ticks := S k; sent := sent w |}).
  destruct (watchdog_effect cfg st3 w2) as (st4 & w4 & Hwd & _ & _ & Hst & Hal).
  rewrite Hwd. exists st4, w4. split; [reflexivity |].
  rewrite Hst. unfold st3. destruct st. cbn.
  repeat split.
  unfold silence_alert_due in *. cbn in Hal. exact Hal.
Qed.

(** C1 (as amended). A frame that ends in a [DetectionError] (no circles,
    no lines, too many candidates, no needle after filtering) leaves
    [last_successful_detection_time], [values_lst] and [avg] as they were.
    It advances [debug_export_number] modulo 10, leaves [calibration_lst]
    as it was or as the dial stabiliser left it after the push of line 225,
    and has set [loop_start_time] on line 195; the silence watchdog at the
    end of the iteration then sends its alert and sets [last_warn_time], or
    does neither.  A frame that resolves a needle angle sets
    [last_successful_detection_time] to a clock reading of that iteration
    and appends its value to the history. *)
Theorem detection_error_keeps_reference
    (cfg : Config) (cv : Capability) (gray : Image) (st : State) (w : World) :
  match measure cfg cv gray (calibration_lst st) with
  | DetectionError e lst =>
      (e = NoCirclesFound \/ e = NeedleNotFound NoLines
       \/ (exists n, e = NeedleNotFound (TooMany n))
       \/ e = NeedleNotFound NoNeedle)
      /\ (lst = calibration_lst st
          \/ exists raw out,
               stabilize (median_filter_dial_position_N cfg)
                         (calibration_lst st) raw = Some (lst, out))
      /\ exists st' w',
           iteration cfg cv gray st w = (Some st', w')
           /\ last_successful_detection_time st'
              = last_successful_detection_time st
           /\ values_lst st' = values_lst st
           /\ avg st' = avg st
           /\ debug_export_number st'
              = ((debug_export_number st + 1) mod 10)%Z
           /\ calibration_lst st' = lst
           /\ loop_start_time st' = clock w (line_195 cfg w)
           /\ (if silence_alert_due cfg st
                    (clock w (S (line_195 cfg w)))
                    (clock w (S (S (line_195 cfg w))))
               then sent w'
                    = sent w
                      ++ [NoMeasurement (last_successful_detection_time st)]
                    /\ last_warn_time st'
                       = clock w (S (S (S (line_195 cfg w))))
               else sent w' = sent w
                    /\ last_warn_time st' = last_warn_time st)
  | Value value lst =>
      match Py.trim (median_filter_value_N cfg) (values_lst st ++ [value]) with
      | Some vals =>
          exists st' w' k,
            iteration cfg cv gray st w = (Some st', w')
            /\ (ticks w < k < ticks w')%nat
            /\ last_successful_detection_time st' = clock w k
            /\ values_lst st' = vals
      | None => fst (iteration cfg cv gray st w) = None
      end
  | NotANumber | Uncaught => fst (iteration cfg cv gray st w) = None
  end.
Proof.
  pose proof (iteration_run cfg cv gray st w) as H.
  destruct (measure cfg cv gray (calibration_lst st)) as [v lst | e lst | |]
    eqn:Hm.
  - destruct (Py.trim _ _); [| exact H].
    destruct H as (st' & w' & k & H1 & _ & H2 & H3 & H4 & _).
    now exists st', w', k.
  - split; [exact (measure_detection_error cfg cv gray _ lst e Hm) |].
    split.
    + pose proof (measure_history cfg cv gray (calibration_lst st)) as Hh.
      rewrite Hm in Hh. exact Hh.
    + apply (iteration_detection_error cfg cv gray st w e lst Hm).
  - exact H.
  - exact H.
Qed.

(** C1, the claim as stated fails: with no circle found, the clock reading
    100 at every call and the reference point at 0, the iteration leaves the
    reference point at 0. *)
Lemma detection_error_counterexample :
  measure Examples.cfg0 (Examples.scripted None None) Examples.blank
          (calibration_lst Examples.st0)
  = DetectionError NoCirclesFound []
  /\ iteration Examples.cfg0 (Examples.scripted None None) Examples.blank
               Examples.st0 (Examples.world (fun _ => 100))
     = (Some {| debug_export_number := 1;
                last_warn_time := 0;
                calibration_lst := [];
                values_lst := [];
                avg := None;
                loop_start_time := 100;
                last_successful_detection_time := 0 |},
        {| clock := fun _ => 100; ticks := 2; sent := [] |})
  /\ last_successful_detection_time Examples.st0 = 0
  /\ 0 <> 100.
Proof.
  assert (Hm : measure Examples.cfg0 (Examples.scripted None None)
                 Examples.blank (calibration_lst Examples.st0)
               = DetectionError NoCirclesFound []) by reflexivity.
  repeat split; try exact Hm; try lra.
  rewrite iteration_unfold, Hm. cbn [snd rate_limit]. cbn zeta.
  unfold rate_limit, watchdog. cbn [Examples.cfg0 min_measurement_interval truthy].
  run_io. cbn [Examples.world Examples.st0 Examples.cfg0 clock ticks sent
               warn_no_detections_s last_successful_detection_time
               set_debug_export_number set_calibration_lst
               set_loop_start_time debug_export_number last_warn_time
               calibration_lst values_lst avg loop_start_time].
  assert (Hq : Rltb (0 + 1800) 100 = false) by (apply Rltb_false; lra).
  rewrite Hq. reflexivity.
Qed.

(** ** The out-of-range alert *)

Lemma le_bound_spec (m : R) (b : bound) :
  le_bound m b = true <-> at_or_below m b.
Proof.
  destruct b; cbn; try (split; intros; easy).
  destruct (Rle_dec m v); split; intros; easy.
Qed.

Lemma ge_bound_spec (m : R) (b : bound) :
  ge_bound m b = true <-> at_or_above m b.
Proof.
  destruct b; cbn; try (split; intros; easy).
  destruct (Rge_dec m v); split; intros; easy.
Qed.

Lemma alert_due_spec (cfg : Config) (st : State) (lst : list R) (now : R) :
  alert_due cfg st lst now = true
  <-> (median_filter_value_N cfg <= Z.of_nat (length lst))%Z
      /\ now - last_warn_time st > warn_interval cfg
      /\ exists m, median lst = Some m
                   /\ (at_or_below m (min_warn cfg)
                       \/ at_or_above m (max_warn cfg)).
Proof.
  unfold alert_due, out_of_range.
  rewrite !andb_true_iff, Z.geb_le, Rltb_true.
  destruct (median lst) as [m |].
  - rewrite orb_true_iff, le_bound_spec, ge_bound_spec. split.
    + intros [[H1 H2] H3]. repeat split; [lia | lra | eauto].
    + intros (H1 & H2 & m' & [= <-] & H3). repeat split; [lia | lra | auto].
  - split; [intros [_ H]; discriminate | intros (_ & _ & m & H & _)].
    discriminate.
Qed.

(** An iteration that resolves a value, when the silence watchdog has no
    reason to fire at its end. *)
Lemma iteration_value_run (cfg : Config) (cv : Capability) (gray : Image)
    (st : State) (w : World) (v : R) (lst : list Circle) (vals : list R) :
  measure cfg cv gray (calibration_lst st) = Value v lst ->
  Py.trim (median_filter_value_N cfg) (values_lst st ++ [v]) = Some vals ->
  exists st' w' kc k,
    iteration cfg cv gray st w = (Some st', w')
    /\ clock w' = clock w
    /\ (ticks w < kc <= k)%nat /\ (k < ticks w')%nat
    /\ last_successful_detection_time st' = clock w k
    /\ values_lst st' = vals
    /\ calibration_lst st' = lst
    /\ (Rltb (clock w k + warn_no_detections_s cfg) (clock w (S k)) = false ->
        if alert_due cfg st vals (clock w kc)
        then exists m, median vals = Some m
                       /\ sent w' = sent w ++ [OutOfRange m]
                       /\ last_warn_time st' = clock w (S kc)
        else sent w' = sent w /\ last_warn_time st' = last_warn_time st).
Proof.
  intros Hm Htrim. rewrite iteration_unfold, Hm.
  destruct (rate_limit_run cfg st w) as (w1 & Hrl & Hc1 & Hs1 & Ht1).
  rewrite Hrl. cbn [snd]. cbn zeta.
  set (w2 := {| clock := clock w1; ticks := S (ticks w1); sent := sent w1 |}).
  set (st1 := set_loop_start_time (clock w1 (ticks w1)) st).
  destruct (process_value_run cfg v (set_calibration_lst lst st1) w2 vals)
    as (st3 & w3 & k & Hpv & Hc3 & Ht3 & Hk & Hl & Hv & Hcal & _ & Hal);
    [exact Htrim |].
  destruct (watchdog_run cfg st3 w3)
    as (st4 & w4 & Hwd & Hc4 & Ht4 & Hl4 & Hv4 & Hcal4 & _ & Hq).
  rewrite Hpv, Hwd. exists st4, w4, (S (ticks w1)), k.
  cbn in Hk, Hl, Hcal, Hc3, Hal.
  change (alert_due cfg (set_calibration_lst lst st1) vals)
    with (alert_due cfg st vals) in Hal.
  rewrite Hc1 in *.
  split; [reflexivity |]. rewrite Hc4, Hc3, Hl4, Hl, Hv4, Hv, Hcal4, Hcal.
  repeat split; try lia.
  intros Hno. rewrite Hl, Hc3, Ht3 in Hq. cbn [clock w2] in Hq.
  try rewrite Hc1 in Hq.
  destruct (Hq Hno) as [Hs4 Hw4]. rewrite Hs4, Hw4.
  destruct (alert_due cfg st vals (clock w (S (ticks w1)))).
  - destruct Hal as (m & Hmed & Hs & Hw). exists m.
    rewrite Hs, Hw. cbn [sent w2]. now rewrite Hs1.
  - destruct Hal as [Hs Hw]. rewrite Hs, Hw. cbn [sent w2]. now rewrite Hs1.
Qed.

Lemma one_circle_dial (lines : option (list (list Line))) (gray : Image) :
  detect_dial (Examples.scripted Examples.one_circle lines) gray
              true 5 0.4 0.9
  = Dial 0 0 100.
Proof.
  unfold detect_dial, Examples.scripted, Examples.one_circle.
  cbn [HoughCircles medianBlur average_circles].
  unfold mean_circle. cbn [map fst snd].
  rewrite !mean_cons. cbn [Rsum fold_right length INR].
  f_equal; field.
Qed.

Lemma measure_needle_down (gray : Image) (lst : list Circle) :
  measure Examples.cfg0
          (Examples.scripted Examples.one_circle Examples.needle_down)
          gray lst
  = Value 0 lst.
Proof.
  unfold measure. rewrite one_circle_dial.
  cbn [Examples.cfg0 median_filter_dial_position_N threshold blur_size
       threshold_mode r_inner_min r_inner_max r_outer_min r_outer_max].
  assert (Hst : stabilize 1 lst (0, 0, 100) = Some (lst, (0, 0, 100)))
    by reflexivity.
  rewrite Hst.
  pose proof (get_needle_angle_status
                (Examples.scripted Examples.one_circle Examples.needle_down)
                [gray] 0%nat 0 0 100 175 false 5 10 None 0.15 0.6 0.65 1)
    as Hs.
  rewrite scripted_detect_lines, needle_down_status in Hs.
  destruct (get_needle_angle _ _ _ _ _ _ _ _ _ _ _ _ _ _ _) as [[s a] h].
  cbn [fst] in Hs. subst s.
  unfold convert. cbn [min_angle max_angle min_value max_value].
  replace (0 * 180 / PI) with 0 by (field; apply PI_neq0).
  reflexivity.
Qed.

Lemma median_single (v : R) : median [v] = Some v.
Proof. reflexivity. Qed.

Lemma out_of_range_zero : out_of_range Examples.cfg0 (median [0]) = true.
Proof.
  rewrite median_single. unfold out_of_range. apply orb_true_iff. left.
  apply le_bound_spec. cbn. lra.
Qed.

Lemma out_of_range_alerts_app (a b : list Warning) :
  out_of_range_alerts (a ++ b)
  = out_of_range_alerts a ++ out_of_range_alerts b.
Proof. apply filter_app. Qed.

Lemma snoc_neq {A : Type} (l : list A) (a : A) : l ++ [a] <> l.
Proof.
  intros E. apply (f_equal (@length A)) in E.
  rewrite length_app in E. cbn in E. lia.
Qed.

(** A frame that resolves a value, in full: the history, the out-of-range
    alert, and what the silence watchdog adds after it. *)
Lemma iteration_value_frame (cfg : Config) (cv : Capability) (gray : Image)
    (st : State) (w : World) (v : R) (lst : list Circle) (vals : list R) :
  measure cfg cv gray (calibration_lst st) = Value v lst ->
  Py.trim (median_filter_value_N cfg) (values_lst st ++ [v]) = Some vals ->
  exists st' w',
    iteration cfg cv gray st w = (Some st', w')
    /\ values_lst st' = vals
    /\ (if alert_due cfg st vals (clock w (line_306 cfg w))
        then exists m k,
               median vals = Some m
               /\ out_of_range_alerts (sent w')
                  = out_of_range_alerts (sent w) ++ [OutOfRange m]
               /\ (line_306 cfg w < k)%nat
               /\ last_warn_time st' = clock w k
        else out_of_range_alerts (sent w') = out_of_range_alerts (sent w)
             /\ (sent w' = sent w ->
                 last_warn_time st' = last_warn_time st)).
Proof.
  intros Hm Htrim. rewrite iteration_unfold, Hm, rate_limit_exact.
  cbn [snd clock ticks sent]. cbn zeta.
  set (st1 := set_loop_start_time _ st).
  set (w2 := {| clock := clock w; ticks := S (line_195 cfg w);
                sent := sent w |}).
  assert (H306 : ticks w2 = line_306 cfg w).
  { cbn. unfold line_195, line_306.
    destruct (truthy (min_measurement_interval cfg)); lia. }
  destruct (process_value_run cfg v (set_calibration_lst lst st1) w2 vals)
    as (st3 & w3 & k & Hpv & Hc3 & Ht3 & Hk & Hl & Hv & _ & _ & Hal);
    [exact Htrim |].
  change (alert_due cfg (set_calibration_lst lst st1) vals)
    with (alert_due cfg st vals) in Hal.
  rewrite H306 in Hal, Hk. cbn [clock w2] in Hal, Hc3.
  change (sent w2) with (sent w) in Hal.
  change (last_warn_time (set_calibration_lst lst st1))
    with (last_warn_time st) in Hal.
  destruct (watchdog_effect cfg st3 w3)
    as (st4 & w4 & Hwd & Hc4 & Ht4 & Hst & Hsil).
  rewrite Hpv, Hwd. exists st4, w4. split; [reflexivity |].
  split; [rewrite Hst; destruct st3; exact Hv |].
  rewrite Hc3 in Hsil.
  destruct (alert_due cfg st vals (clock w (line_306 cfg w))).
  - destruct Hal as (m & Hmed & Hs3 & Hw3).
    destruct (silence_alert_due cfg st3 _ _).
    + destruct Hsil as [Hs4 Hw4].
      exists m, (S (S (ticks w3))). rewrite Hs4, Hs3, Hw4.
      rewrite !out_of_range_alerts_app. cbn. rewrite app_nil_r.
      repeat split; [exact Hmed | lia].
    + destruct Hsil as [Hs4 Hw4].
      exists m, (S (line_306 cfg w)). rewrite Hs4, Hs3, Hw4, Hw3.
      rewrite out_of_range_alerts_app. cbn.
      repeat split; [exact Hmed | lia].
  - destruct Hal as [Hs3 Hw3].
    destruct (silence_alert_due cfg st3 _ _).
    + destruct Hsil as [Hs4 Hw4]. rewrite Hs4, Hs3.
      rewrite out_of_range_alerts_app. cbn. rewrite app_nil_r.
      split; [reflexivity |]. intros E. now apply snoc_neq in E.
    + destruct Hsil as [Hs4 Hw4]. rewrite Hs4, Hs3, Hw4, Hw3.
      split; [reflexivity | reflexivity].
Qed.

(** C6 (as amended). A frame that resolves a needle angle sends the
    out-of-range alert exactly when the history has reached its size, its
    median is at or below [min_warn] or at or above [max_warn], and the clock
    reading of line 306 is strictly more than [warn_interval] after the last
    alert; sending sets [last_warn_time] to a later clock reading.  A frame
    that ends in a [DetectionError] sends no out-of-range alert.  So with
    [warn_interval = 600], two frames with out-of-range medians whose clock
    readings all lie within 10 seconds send one alert: the first frame's. *)
Theorem out_of_range_alert_rate_limited
    (cfg : Config) (cv : Capability) (g1 g2 : Image) (st : State) (w : World)
    (v1 v2 : R) (c1 c2 : list Circle) (l1 l2 : list R)
    (e : detection_error) :
  (measure cfg cv g1 (calibration_lst st) = Value v1 c1 ->
   Py.trim (median_filter_value_N cfg) (values_lst st ++ [v1]) = Some l1 ->
   exists st' w',
     iteration cfg cv g1 st w = (Some st', w')
     /\ values_lst st' = l1
     /\ (if alert_due cfg st l1 (clock w (line_306 cfg w))
         then exists m k,
                median l1 = Some m
                /\ out_of_range_alerts (sent w')
                   = out_of_range_alerts (sent w) ++ [OutOfRange m]
                /\ (line_306 cfg w < k)%nat
                /\ last_warn_time st' = clock w k
         else out_of_range_alerts (sent w') = out_of_range_alerts (sent w)
              /\ (sent w' = sent w ->
                  last_warn_time st' = last_warn_time st)))
  /\ (forall now,
        alert_due cfg st l1 now = true
        <-> (median_filter_value_N cfg <= Z.of_nat (length l1))%Z
            /\ now - last_warn_time st > warn_interval cfg
            /\ exists m, median l1 = Some m
                         /\ (at_or_below m (min_warn cfg)
                             \/ at_or_above m (max_warn cfg)))
  /\ (measure cfg cv g1 (calibration_lst st) = DetectionError e c1 ->
      exists st' w',
        iteration cfg cv g1 st w = (Some st', w')
        /\ out_of_range_alerts (sent w') = out_of_range_alerts (sent w))
  /\ (warn_interval cfg = 600 ->
      10 <= warn_no_detections_s cfg ->
      measure cfg cv g1 (calibration_lst st) = Value v1 c1 ->
      measure cfg cv g2 c1 = Value v2 c2 ->
      Py.trim (median_filter_value_N cfg) (values_lst st ++ [v1]) = Some l1 ->
      Py.trim (median_filter_value_N cfg) (l1 ++ [v2]) = Some l2 ->
      (median_filter_value_N cfg <= Z.of_nat (length l1))%Z ->
      (median_filter_value_N cfg <= Z.of_nat (length l2))%Z ->
      out_of_range cfg (median l1) = true ->
      out_of_range cfg (median l2) = true ->
      last_warn_time st + 600 < clock w (ticks w) ->
      (forall i j, (ticks w <= i <= j)%nat ->
                   clock w i <= clock w j <= clock w i + 10) ->
      exists st' w' m,
        loop cfg cv [g1; g2] st w = (Some st', w')
        /\ median l1 = Some m
        /\ sent w' = sent w ++ [OutOfRange m]).
Proof.
  split; [| split; [| split]].
  - apply iteration_value_frame.
  - intros now. apply alert_due_spec.
  - intros Hm.
    destruct (iteration_detection_error cfg cv g1 st w e c1 Hm)
      as (st' & w' & Hit & _ & _ & _ & _ & _ & _ & Hal).
    exists st', w'. split; [exact Hit |].
    destruct (silence_alert_due cfg st _ _); destruct Hal as [Hs _];
      rewrite Hs; [| reflexivity].
    rewrite out_of_range_alerts_app. cbn. now rewrite app_nil_r.
  - intros Hwi Hwnd Hm1 Hm2 Ht1 Ht2 Hf1 Hf2 Ho1 Ho2 Hdue Hclk.
    destruct (iteration_value_run cfg cv g1 st w v1 c1 l1 Hm1 Ht1)
      as (st1 & w1 & kc & k & Hit & Hc & Hkc & Hk & Hl & Hv & Hcal & Hal).
    assert (Hq1 : Rltb (clock w k + warn_no_detections_s cfg)
                       (clock w (S k)) = false).
    { apply Rltb_false. pose proof (Hclk k (S k)). lra_clock. }
    specialize (Hal Hq1).
    assert (Hd1 : alert_due cfg st l1 (clock w kc) = true).
    { unfold alert_due. rewrite Ho1, andb_true_r, andb_true_iff.
      split; [apply Z.geb_le; lia |].
      apply Rltb_true. rewrite Hwi.
      pose proof (Hclk (ticks w) kc). lra_clock. }
    rewrite Hd1 in Hal. destruct Hal as (m & Hmed & Hs1 & Hw1).
    rewrite <- Hcal in Hm2. rewrite <- Hv in Ht2.
    destruct (iteration_value_run cfg cv g2 st1 w1 v2 c2 l2 Hm2 Ht2)
      as (st2 & w2 & kc2 & k2 & Hit2 & Hc2 & Hkc2 & Hk2 & _ & _ & _ & Hal2).
    rewrite Hc in Hal2.
    assert (Hq2 : Rltb (clock w k2 + warn_no_detections_s cfg)
                       (clock w (S k2)) = false).
    { apply Rltb_false. pose proof (Hclk k2 (S k2)). lra_clock. }
    specialize (Hal2 Hq2).
    assert (Hd2 : alert_due cfg st1 l2 (clock w kc2) = false).
    { unfold alert_due. rewrite Ho2, andb_true_r, andb_false_iff.
      right. apply Rltb_false. rewrite Hw1, Hwi.
      pose proof (Hclk (S kc) kc2). lra_clock. }
    rewrite Hd2 in Hal2. destruct Hal2 as [Hs2 _].
    exists st2, w2, m. repeat split; try assumption.
    + unfold loop. unfold bind at 1. rewrite Hit.
      unfold bind at 1. rewrite Hit2. reflexivity.
    + now rewrite Hs2, Hs1.
Qed.

Lemma out_of_range_alert_rate_limited_witness :
  exists st' w' m,
    loop Examples.cfg0
         (Examples.scripted Examples.one_circle Examples.needle_down)
         [Examples.blank; Examples.blank] Examples.st0
         (Examples.world (fun _ => 1000))
    = (Some st', w')
    /\ median [0] = Some m
    /\ sent w' = sent (Examples.world (fun _ => 1000)) ++ [OutOfRange m].
Proof.
  destruct (out_of_range_alert_rate_limited
              Examples.cfg0
              (Examples.scripted Examples.one_circle Examples.needle_down)
              Examples.blank Examples.blank Examples.st0
              (Examples.world (fun _ => 1000)) 0 0 [] [] [0] [0]
              NoCirclesFound)
    as (_ & _ & _ & H).
  apply H.
  - reflexivity.
  - cbn. lra.
  - apply measure_needle_down.
  - apply measure_needle_down.
  - reflexivity.
  - reflexivity.
  - cbn. lia.
  - cbn. lia.
  - apply out_of_range_zero.
  - apply out_of_range_zero.
  - cbn. lra.
  - intros i j _. cbn. lra.
Defined.

(** C6, the claim as stated fails, in two ways.  First: the history is
    full, its median 0 is below [min_warn = 5], and exactly
    [warn_interval = 600] seconds have passed since the last alert, yet no
    alert is sent.  Second: with the same full history and 1000 seconds
    since the last alert, a frame in which no circle is found sends no
    alert either. *)
Lemma out_of_range_alert_counterexample :
  (process_value Examples.cfg0 0 Examples.st0 (Examples.world (fun _ => 600))
   = (Some {| debug_export_number := 0;
              last_warn_time := 0;
              calibration_lst := [];
              values_lst := [0];
              avg := None;
              loop_start_time := 0;
              last_successful_detection_time := 600 |},
      {| clock := fun _ => 600; ticks := 2; sent := [] |})
   /\ (median_filter_value_N Examples.cfg0 <= Z.of_nat (length [0%R]))%Z
   /\ median [0] = Some 0
   /\ at_or_below 0 (min_warn Examples.cfg0)
   /\ 600 - last_warn_time Examples.st0 >= warn_interval Examples.cfg0)
  /\ (iteration Examples.cfg0 (Examples.scripted None None) Examples.blank
                Examples.st_full (Examples.world (fun _ => 1000))
      = (Some {| debug_export_number := 1;
                 last_warn_time := 0;
                 calibration_lst := [];
                 values_lst := [0];
                 avg := None;
                 loop_start_time := 1000;
                 last_successful_detection_time := 0 |},
         {| clock := fun _ => 1000; ticks := 2; sent := [] |})
      /\ (median_filter_value_N Examples.cfg0
          <= Z.of_nat (length (values_lst Examples.st_full)))%Z
      /\ median (values_lst Examples.st_full) = Some 0
      /\ at_or_below 0 (min_warn Examples.cfg0)
      /\ 1000 - last_warn_time Examples.st_full
         >= warn_interval Examples.cfg0).
Proof.
  split; repeat split.
  - unfold process_value.
    assert (Ht : Py.trim (median_filter_value_N Examples.cfg0)
                         (values_lst Examples.st0 ++ [0]) = Some [0])
      by reflexivity.
    rewrite Ht.
    assert (Hf : (Z.of_nat (length [0%R])
                  >=? median_filter_value_N Examples.cfg0)%Z = true)
      by reflexivity.
    rewrite Hf. run_io.
    cbn [Examples.world Examples.st0 Examples.cfg0 clock ticks sent
         warn_interval last_warn_time].
    assert (Hq : Rltb (0 + 600) 600 = false) by (apply Rltb_false; lra).
    rewrite Hq. reflexivity.
  - cbn. lia.
  - cbn. lra.
  - cbn. lra.
  - assert (Hm : measure Examples.cfg0 (Examples.scripted None None)
                   Examples.blank (calibration_lst Examples.st_full)
                 = DetectionError NoCirclesFound []) by reflexivity.
    rewrite iteration_unfold, Hm. cbn zeta.
    unfold rate_limit, watchdog.
    cbn [Examples.cfg0 min_measurement_interval truthy].
    run_io.
    cbn [Examples.world Examples.st_full Examples.cfg0 clock ticks sent
         warn_no_detections_s last_successful_detection_time
         set_debug_export_number set_calibration_lst
         set_loop_start_time debug_export_number last_warn_time
         calibration_lst values_lst avg loop_start_time].
    assert (Hq : Rltb (0 + 1800) 1000 = false) by (apply Rltb_false; lra).
    rewrite Hq. reflexivity.
  - cbn. lia.
  - cbn. lra.
  - cbn. lra.
Qed.

(** ** Arrays written by [get_needle_angle] *)

Lemma store_length (h : Heap) (p : ref) (img : Image) :
  length (store h p img) = length h.
Proof.
  revert p. induction h as [| a t IH]; intros [| p]; cbn; auto.
Qed.

Lemma load_store_same (h : Heap) (p : ref) (img : Image) :
  (p < length h)%nat -> load (store h p img) p = img.
Proof.
  unfold load. revert p.
  induction h as [| a t IH]; intros [| p] Hp; cbn in *; try lia; auto.
  apply IH. lia.
Qed.

Lemma load_store_other (h : Heap) (p q : ref) (img : Image) :
  p <> q -> load (store h p img) q = load h q.
Proof.
  unfold load. revert p q.
  induction h as [| a t IH]; intros [| p] [| q] Hne; cbn; auto; try lia.
Qed.

Lemma load_alloc_old (h : Heap) (img : Image) (p : ref) :
  (p < length h)%nat -> load (snd (alloc h img)) p = load h p.
Proof. intros Hp. unfold load, alloc. cbn. now apply app_nth1. Qed.

Lemma load_alloc_new (h : Heap) (img : Image) :
  load (snd (alloc h img)) (fst (alloc h img)) = img.
Proof.
  unfold load, alloc. cbn. rewrite app_nth2 by lia.
  now rewrite Nat.sub_diag.
Qed.

Lemma alloc_length (h : Heap) (img : Image) :
  length (snd (alloc h img)) = S (length h).
Proof. unfold alloc. cbn. rewrite length_app. cbn. lia. Qed.

Lemma py_int_spec (x : R) (z : Z) :
  0 <= x -> IZR z <= x < IZR z + 1 -> Py.int x = z.
Proof.
  intros Hx Hz. unfold Py.int. destruct (Rle_dec 0 x) as [_ | H]; [| lra].
  symmetry. apply Int_part_spec. lra.
Qed.

(** The heap [detect_lines] leaves: the caller's array overwritten by the
    inner disc, then the new arrays in the order they are made. *)
Lemma detect_lines_heap (cv : Capability) (h : Heap) (gray : ref)
    (x y r : R) (threshold : Z) (use_filter : bool) (blur_size : Z)
    (min_line_length : R) (threshold_mode : option ThresholdMode.t)
    (rim rox : R) :
  (gray < length h)%nat ->
  let centre := (Py.int x, Py.int y) in
  let drawn := circle cv (load h gray) centre (Py.int (r * rim)) 255 LINE_AA in
  let mask := circle cv (ones_like_255 drawn) centre (Py.int (r * rox))
                     0 LINE_8 in
  let masked := bitwise_or drawn mask in
  let thresholded :=
    apply_threshold cv masked threshold_mode threshold blur_size in
  exists rest,
    detect_lines cv h gray x y r threshold use_filter blur_size
                 min_line_length threshold_mode rim rox
    = (HoughLinesP cv
         (if use_filter
          then GaussianBlur cv
                 (Canny cv (medianBlur cv thresholded blur_size) 50 150)
                 blur_size
          else thresholded)
         min_line_length,
       (2 + length h)%nat,
       store h gray drawn ++ [mask; masked; thresholded] ++ rest).
Proof.
  intros Hg centre drawn mask masked thresholded.
  unfold detect_lines. fold centre. fold drawn.
  set (h1 := store h gray drawn).
  assert (Hl1 : length h1 = length h) by apply store_length.
  assert (Hd : load h1 gray = drawn) by now apply load_store_same.
  rewrite Hd. fold mask. unfold alloc at 1.
  assert (Hd2 : load (h1 ++ [mask]) gray = drawn).
  { unfold load. rewrite app_nth1 by lia. exact Hd. }
  assert (Hm2 : load (h1 ++ [mask]) (length h1) = mask).
  { unfold load. rewrite app_nth2 by lia. now rewrite Nat.sub_diag. }
  rewrite Hd2, Hm2. fold masked. unfold alloc at 1.
  assert (Hk : load ((h1 ++ [mask]) ++ [masked]) (length (h1 ++ [mask]))
               = masked).
  { unfold load. rewrite app_nth2 by lia. now rewrite Nat.sub_diag. }
  rewrite Hk. fold thresholded. unfold alloc at 1.
  set (h3 := (h1 ++ [mask]) ++ [masked]).
  assert (Hl3 : length h3 = (2 + length h)%nat).
  { unfold h3. rewrite !length_app. cbn. lia. }
  assert (Ht : load (h3 ++ [thresholded]) (length h3) = thresholded).
  { unfold load. rewrite app_nth2 by lia. now rewrite Nat.sub_diag. }
  destruct use_filter.
  - unfold alloc. rewrite Ht.
    set (h4 := h3 ++ [thresholded]).
    set (mb := medianBlur cv thresholded blur_size).
    assert (H5 : load (h4 ++ [mb]) (length h4) = mb).
    { unfold load. rewrite app_nth2 by lia. now rewrite Nat.sub_diag. }
    rewrite H5. set (cn := Canny cv mb 50 150).
    assert (H6 : load ((h4 ++ [mb]) ++ [cn]) (length (h4 ++ [mb])) = cn).
    { unfold load. rewrite app_nth2 by lia. now rewrite Nat.sub_diag. }
    rewrite H6. set (gb := GaussianBlur cv cn blur_size).
    assert (H7 : load (((h4 ++ [mb]) ++ [cn]) ++ [gb])
                      (length ((h4 ++ [mb]) ++ [cn])) = gb).
    { unfold load. rewrite app_nth2 by lia. now rewrite Nat.sub_diag. }
    rewrite H7. exists [mb; cn; gb]. rewrite Hl3.
    unfold h4, h3. now rewrite <- !app_assoc.
  - rewrite Ht. exists []. rewrite Hl3.
    unfold h3. now rewrite <- !app_assoc.
Qed.

(** C10 (as amended). [get_needle_angle] draws on the array it is given,
    not on a copy.  When [cv2.circle] accepts the two radii (they are not
    negative), whatever [get_needle_angle] returns, the array the caller
    passed is afterwards the one [cv2.circle] drew the inner disc (radius
    [int(r*r_inner_min)], colour 255) into; every other array of the caller
    is untouched; the outer mask and its [bitwise_or] with the frame are new
    arrays, and thresholding reads the latter. *)
Theorem get_needle_angle_draws_on_input
    (cv : Capability) (h : Heap) (gray : ref)
    (x y r : R) (threshold : Z) (use_filter : bool) (blur_size : Z)
    (min_line_length : R) (threshold_mode : option ThresholdMode.t)
    (r_inner_min r_inner_max r_outer_min r_outer_max : R) :
  (gray < length h)%nat ->
  (0 <= Py.int (r * r_inner_min))%Z ->
  (0 <= Py.int (r * r_outer_max))%Z ->
  let result :=
    get_needle_angle cv h gray x y r threshold use_filter blur_size
      min_line_length threshold_mode
      r_inner_min r_inner_max r_outer_min r_outer_max in
  let h' := snd result in
  let after_threshold := snd (fst result) in
  let centre := (Py.int x, Py.int y) in
  let drawn :=
    circle cv (load h gray) centre (Py.int (r * r_inner_min)) 255 LINE_AA in
  let mask :=
    circle cv (ones_like_255 drawn) centre (Py.int (r * r_outer_max))
           0 LINE_8 in
  load h' gray = drawn
  /\ (forall p, (p < length h)%nat -> p <> gray -> load h' p = load h p)
  /\ (length h < length h')%nat
  /\ load h' (length h) = mask
  /\ load h' (S (length h)) = bitwise_or drawn mask
  /\ after_threshold = S (S (length h))
  /\ load h' after_threshold
     = apply_threshold cv (bitwise_or drawn mask) threshold_mode
                       threshold blur_size.
Proof.
  intros Hg _ _ result h' after_threshold centre drawn mask.
  destruct (detect_lines_heap cv h gray x y r threshold use_filter blur_size
              min_line_length threshold_mode r_inner_min r_outer_max Hg)
    as (rest & Hdl).
  cbn zeta in Hdl. fold centre in Hdl. fold drawn in Hdl. fold mask in Hdl.
  assert (Hh : h' = store h gray drawn
                    ++ [mask; bitwise_or drawn mask;
                        apply_threshold cv (bitwise_or drawn mask)
                          threshold_mode threshold blur_size] ++ rest).
  { unfold h', result, get_needle_angle. now rewrite Hdl. }
  assert (Ha : after_threshold = (2 + length h)%nat).
  { unfold after_threshold, result, get_needle_angle. now rewrite Hdl. }
  pose proof (store_length h gray drawn) as Hl.
  assert (Hgray : load h' gray = drawn).
  { rewrite Hh. unfold load. rewrite app_nth1 by lia.
    now apply load_store_same. }
  repeat split.
  - exact Hgray.
  - intros p Hp Hne. rewrite Hh. unfold load. rewrite app_nth1 by lia.
    apply load_store_other. congruence.
  - rewrite Hh, length_app, Hl. cbn. lia.
  - rewrite Hh. unfold load. rewrite app_nth2 by lia.
    rewrite Hl, Nat.sub_diag. reflexivity.
  - rewrite Hh. unfold load. rewrite app_nth2 by lia.
    rewrite Hl. replace (S (length h) - length h)%nat with 1%nat by lia.
    reflexivity.
  - exact Ha.
  - rewrite Ha, Hh. unfold load. rewrite app_nth2 by lia.
    rewrite Hl. replace (2 + length h - length h)%nat with 2%nat by lia.
    reflexivity.
Qed.

Lemma get_needle_angle_draws_on_input_witness :
  let cv := Examples.scripted Examples.one_circle Examples.needle_down in
  let h' :=
    snd (get_needle_angle cv [Examples.blank; Examples.white] 0%nat
                          1 1 10 175 false 5 10 None 0.15 0.6 0.65 1) in
  load h' 0%nat = circle cv Examples.blank (1, 1)%Z 1 255 LINE_AA
  /\ load h' 1%nat = Examples.white
  /\ (2 < length h')%nat.
Proof.
  assert (Hg : (0 < length [Examples.blank; Examples.white])%nat)
    by (cbn; lia).
  assert (Hc : Py.int 1 = 1%Z) by (apply py_int_spec; lra).
  assert (Hr : Py.int (10 * 0.15) = 1%Z) by (apply py_int_spec; lra).
  assert (Ho : Py.int (10 * 1) = 10%Z) by (apply py_int_spec; lra).
  destruct (get_needle_angle_draws_on_input
              (Examples.scripted Examples.one_circle Examples.needle_down)
              [Examples.blank; Examples.white] 0%nat 1 1 10 175 false 5 10
              None 0.15 0.6 0.65 1 Hg
              ltac:(rewrite Hr; lia) ltac:(rewrite Ho; lia))
    as (H1 & H2 & H3 & _).
  rewrite Hc, Hr in H1. cbn zeta.
  split; [exact H1 |]. split; [| exact H3].
  apply (H2 1%nat); [cbn; lia | discriminate].
Defined.

(** C10, the claim as stated fails: on a frame that is 255 throughout, the
    inner disc is drawn in the colour its pixels already have, and the
    frame is after the call what it was before. *)
Lemma get_needle_angle_draws_on_input_counterexample :
  load (snd (get_needle_angle
               (Examples.scripted Examples.one_circle Examples.needle_down)
               [Examples.white] 0%nat 1 1 10 175 false 5 10 None
               0.15 0.6 0.65 1)) 0%nat
  = load [Examples.white] 0%nat
  /\ (0 <= Py.int (10 * 0.15))%Z.
Proof.
  assert (Hc : Py.int 1 = 1%Z) by (apply py_int_spec; lra).
  assert (Hr : Py.int (10 * 0.15) = 1%Z) by (apply py_int_spec; lra).
  split; [| rewrite Hr; lia].
  destruct (detect_lines_heap
              (Examples.scripted Examples.one_circle Examples.needle_down)
              [Examples.white] 0%nat 1 1 10 175 false 5 10 None 0.15 1)
    as (rest & Hdl); [cbn; lia |].
  unfold get_needle_angle. cbn zeta in Hdl. rewrite Hdl. cbn [snd].
  rewrite Hc, Hr. reflexivity.
Qed.

(** * Further properties of the pipeline *)

(** ** The filter at its edges *)

Lemma filter_none {A : Type} (f : A -> bool) (l : list A) :
  (forall a, In a l -> f a = false) -> filter f l = [].
Proof.
  intros H. induction l as [| a t IH]; [reflexivity |].
  cbn. rewrite (H a) by now left. apply IH. intros b Hb. apply H. now right.
Qed.

(** X2. With a radius that is zero or negative (and [r_inner_max >= 0]) no
    segment passes the filter, so [get_needle_angle] reports that no line
    is left after filtering whenever the line detection returned
    anything. *)
Theorem no_candidates_without_radius
    (lines : list (list Line))
    (x y r min_length r_inner_min r_inner_max r_outer_min r_outer_max : R) :
  r <= 0 -> 0 <= r_inner_max ->
  filter_lines_for_needle lines x y r min_length
    r_inner_min r_inner_max r_outer_min r_outer_max = []
  /\ angle_from_lines (Some lines) x y r
       r_inner_min r_inner_max r_outer_min r_outer_max = NoNeedle.
Proof.
  intros Hr Hb.
  assert (Hnone : forall ml,
            filter_lines_for_needle lines x y r ml
              r_inner_min r_inner_max r_outer_min r_outer_max = []).
  { intros ml. unfold filter_lines_for_needle. apply filter_none.
    intros [[[x1 y1] x2] y2] _.
    destruct (qualifies x y r ml r_inner_min r_inner_max r_outer_min
                r_outer_max (x1, y1, x2, y2)) eqn:E; [| reflexivity].
    apply qualifies_spec in E. destruct E as (_ & [_ Hi] & _).
    pose proof (dist_2_pts_nonneg x y x1 y1).
    pose proof (dist_2_pts_nonneg x y x2 y2).
    assert (r_inner_max * r <= 0) by nra.
    unfold Rmin in Hi. destruct (Rle_dec _ _); lra. }
  split; [apply Hnone |].
  unfold angle_from_lines. now rewrite Hnone.
Qed.

Lemma no_candidates_without_radius_witness :
  filter_lines_for_needle [[(0, 20, 0, 80)]] 0 0 0 0.2 0.15 0.6 0.65 1 = []
  /\ angle_from_lines (Some [[(0, 20, 0, 80)]]) 0 0 0 0.15 0.6 0.65 1
     = NoNeedle.
Proof.
  apply (no_candidates_without_radius [[(0, 20, 0, 80)]] 0 0 0 0.2
           0.15 0.6 0.65 1); lra.
Defined.

(** X3. Filtering works segment by segment: the result for rows put
    together is the results put together, in the same order, and filtering
    the accepted segments again accepts all of them. *)
Theorem filter_lines_for_needle_compositional
    (rows1 rows2 : list (list Line))
    (x y r min_length r_inner_min r_inner_max r_outer_min r_outer_max : R) :
  let f := fun rows =>
    filter_lines_for_needle rows x y r min_length
      r_inner_min r_inner_max r_outer_min r_outer_max in
  f (rows1 ++ rows2) = f rows1 ++ f rows2
  /\ f [f rows1] = f rows1
  /\ (length (f rows1) <= length (concat rows1))%nat.
Proof.
  cbn zeta. unfold filter_lines_for_needle. repeat split.
  - now rewrite concat_app, filter_app.
  - cbn [concat]. rewrite app_nil_r.
    set (q := qualifies _ _ _ _ _ _ _ _).
    induction (concat rows1) as [| a t IH]; [reflexivity |].
    cbn. destruct (q a) eqn:E; [| exact IH].
    cbn. now rewrite E, IH.
  - apply filter_length_le.
Qed.

(** ** The range of the resolved angle *)

Lemma weighted_sum_bounds {A : Type} (f g : A -> R) (lo hi : R) (l : list A) :
  (forall a, lo <= f a < hi /\ 0 <= g a) ->
  let T := Rsum (map (fun p => fst p * snd p) (combine (map f l) (map g l))) in
  let S := Rsum (map g l) in
  0 <= S /\ lo * S <= T /\ T <= hi * S /\ (0 < S -> T < hi * S).
Proof.
  intros H. induction l as [| a t IH]; cbn zeta in *.
  - cbn. repeat split; lra.
  - cbn [map combine Rsum fold_right fst snd]. unfold Rsum in IH.
    destruct IH as (HS & Hlo & Hhi & Hst). destruct (H a) as [[Ha1 Ha2] Hg].
    set (S := fold_right Rplus 0 (map g t)) in *.
    set (T := fold_right Rplus 0
                (map (fun p => fst p * snd p) (combine (map f t) (map g t))))
      in *.
    repeat split; nra.
Qed.

Lemma angle_from_lines_range (lines : option (list (list Line)))
    (x y r rim rix rom rox a : R) :
  angle_from_lines lines x y r rim rix rom rox = Angle a ->
  0 <= a < 2 * PI.
Proof.
  unfold angle_from_lines. destruct lines as [ls |]; [| discriminate].
  set (fl := filter_lines_for_needle ls x y r 0.2 rim rix rom rox).
  destruct (75 <? length fl)%nat; [discriminate |].
  destruct fl as [| l0 fl'] eqn:Efl; [discriminate |].
  unfold average.
  destruct (Req_dec_T (Rsum (map candidate_length (l0 :: fl'))) 0)
    as [| Hne]; [discriminate |].
  intros [= <-].
  destruct (weighted_sum_bounds (candidate_angle x y) candidate_length
              0 (2 * PI) (l0 :: fl'))
    as (HS & Hlo & _ & Hst).
  { intros l. split; [apply candidate_angle_range |].
    destruct l as [[[x1 y1] x2] y2]. apply dist_2_pts_nonneg. }
  unfold Rsum in *. cbn [map combine fold_right fst snd] in *.
  set (S := candidate_length l0
            + fold_right Rplus 0 (map candidate_length fl')) in *.
  set (T := candidate_angle x y l0 * candidate_length l0
            + fold_right Rplus 0
                (map (fun p => fst p * snd p)
                     (combine (map (candidate_angle x y) fl')
                              (map candidate_length fl')))) in *.
  assert (HSpos : 0 < S) by lra. specialize (Hst HSpos).
  split.
  - apply Rmult_le_reg_r with S; [exact HSpos |].
    unfold Rdiv. rewrite Rmult_assoc, Rinv_l by lra. lra.
  - apply Rmult_lt_reg_r with S; [exact HSpos |].
    unfold Rdiv. rewrite Rmult_assoc, Rinv_l by lra. lra.
Qed.

(** X4. Whenever [get_needle_angle] returns an angle, the angle lies in
    [0, 2*pi), for every frame, geometry and configuration. *)
Theorem get_needle_angle_range
    (cv : Capability) (h : Heap) (gray : ref)
    (x y r : R) (threshold : Z) (use_filter : bool) (blur_size : Z)
    (min_line_length : R) (threshold_mode : option ThresholdMode.t)
    (r_inner_min r_inner_max r_outer_min r_outer_max a : R) :
  fst (fst (get_needle_angle cv h gray x y r threshold use_filter blur_size
              min_line_length threshold_mode
              r_inner_min r_inner_max r_outer_min r_outer_max))
    = Angle a ->
  0 <= a < 2 * PI.
Proof.
  rewrite get_needle_angle_status. apply angle_from_lines_range.
Qed.

Lemma get_needle_angle_range_witness : 0 <= 0 < 2 * PI.
Proof.
  apply (get_needle_angle_range
           (Examples.scripted Examples.one_circle Examples.needle_down)
           [Examples.blank] 0%nat 0 0 100 175 false 5 10 None
           0.15 0.6 0.65 1 0).
  rewrite get_needle_angle_status, scripted_detect_lines.
  apply needle_down_status.
Defined.

(** X5. With [r > 0] the four outcomes of [get_needle_angle] are decided by
    the line detection and the number of accepted segments alone: no lines,
    more than 75 candidates, no candidate, or an angle; [np.average] never
    divides by zero. *)
Theorem get_needle_angle_outcomes
    (cv : Capability) (h : Heap) (gray : ref)
    (x y r : R) (threshold : Z) (use_filter : bool) (blur_size : Z)
    (min_line_length : R) (threshold_mode : option ThresholdMode.t)
    (r_inner_min r_inner_max r_outer_min r_outer_max : R) :
  0 < r ->
  let status :=
    fst (fst (get_needle_angle cv h gray x y r threshold use_filter
                blur_size min_line_length threshold_mode
                r_inner_min r_inner_max r_outer_min r_outer_max)) in
  match fst (fst (detect_lines cv h gray x y r threshold use_filter
                    blur_size min_line_length threshold_mode
                    r_inner_min r_outer_max)) with
  | None => status = NoLines
  | Some lines =>
      let n := length (filter_lines_for_needle lines x y r 0.2
                         r_inner_min r_inner_max r_outer_min r_outer_max) in
      if (75 <? n)%nat then status = TooMany n
      else if (n =? 0)%nat then status = NoNeedle
      else exists a, status = Angle a
  end.
Proof.
  intros Hr. cbn zeta. rewrite get_needle_angle_status.
  destruct (fst (fst (detect_lines _ _ _ _ _ _ _ _ _ _ _ _ _)))
    as [lines |]; [| reflexivity].
  set (fl := filter_lines_for_needle lines x y r 0.2
               r_inner_min r_inner_max r_outer_min r_outer_max).
  destruct (75 <? length fl)%nat eqn:E75.
  - unfold angle_from_lines. fold fl. now rewrite E75.
  - destruct (length fl =? 0)%nat eqn:E0.
    + apply Nat.eqb_eq in E0. apply length_zero_iff_nil in E0.
      unfold angle_from_lines. fold fl. now rewrite E75, E0.
    + eexists. apply angle_from_candidates; fold fl.
      * exact Hr.
      * intros E. rewrite E in E0. discriminate.
      * apply Nat.ltb_ge in E75. exact E75.
Qed.

Lemma get_needle_angle_outcomes_witness :
  exists a,
    fst (fst (get_needle_angle
                (Examples.scripted Examples.one_circle Examples.needle_down)
                [Examples.blank] 0%nat 0 0 100 175 false 5 10 None
                0.15 0.6 0.65 1))
    = Angle a.
Proof.
  assert (Hr : 0 < 100) by lra.
  pose proof (get_needle_angle_outcomes
                (Examples.scripted Examples.one_circle Examples.needle_down)
                [Examples.blank] 0%nat 0 0 100 175 false 5 10 None
                0.15 0.6 0.65 1 Hr) as H.
  cbn zeta in H. rewrite scripted_detect_lines in H.
  unfold Examples.needle_down in H. rewrite needle_down_candidates in H.
  exact H.
Defined.

(** ** Averages and medians stay within the data *)

Lemma Rsum_bounds (lo hi : R) (l : list R) :
  Forall (fun v => lo <= v <= hi) l ->
  lo * INR (length l) <= Rsum l <= hi * INR (length l).
Proof.
  intros H. induction H as [| v l Hv Hl IH].
  - cbn. lra.
  - change (length (v :: l)) with (S (length l)). rewrite S_INR.
    cbn [Rsum fold_right]. unfold Rsum in IH. lra.
Qed.

Lemma mean_bounds (lo hi m : R) (l : list R) :
  Forall (fun v => lo <= v <= hi) l -> mean l = Some m -> lo <= m <= hi.
Proof.
  intros H Hm. destruct l as [| v t]; [discriminate |].
  pose proof (Rsum_bounds lo hi (v :: t) H) as Hb.
  assert (Hn : 0 < INR (length (v :: t))) by (apply lt_0_INR; cbn; lia).
  rewrite mean_cons in Hm.
  set (n := INR (length (v :: t))) in *. set (s := Rsum (v :: t)) in *.
  injection Hm as <-.
  split.
  - apply Rmult_le_reg_r with n; [exact Hn |].
    unfold Rdiv. rewrite Rmult_assoc, Rinv_l by lra. lra.
  - apply Rmult_le_reg_r with n; [exact Hn |].
    unfold Rdiv. rewrite Rmult_assoc, Rinv_l by lra. lra.
Qed.

Lemma mean_magnitude_nonneg (l : list R) :
  Forall (fun v => 0 <= v) l -> mean_magnitude l = arithmetic_mean l.
Proof.
  intros H. unfold mean_magnitude, arithmetic_mean. f_equal. f_equal.
  induction H as [| v t Hv _ IH]; [reflexivity |].
  cbn [map]. now rewrite IH, Rabs_right by lra.
Qed.

Lemma rounded_mean_within (u lo hi m : R) (v : R) (t : list R) :
  0 <= u -> 0 <= lo ->
  Forall (fun w => lo <= w <= hi) (v :: t) ->
  Rabs (m - arithmetic_mean (v :: t))
  <= ((1 + u) ^ length (v :: t) - 1) * mean_magnitude (v :: t) ->
  lo - ((1 + u) ^ length (v :: t) - 1) * hi <= m
  <= hi + ((1 + u) ^ length (v :: t) - 1) * hi.
Proof.
  intros Hu Hlo Hall Hm.
  pose proof (pow_1u_ge_1 u (length (v :: t)) Hu) as He.
  set (e := (1 + u) ^ length (v :: t) - 1) in *.
  assert (He0 : 0 <= e) by (unfold e; lra).
  rewrite mean_magnitude_nonneg in Hm
    by (apply (Forall_impl _ (fun w (Hw : lo <= w <= hi) =>
                                Rle_trans _ _ _ Hlo (proj1 Hw)));
        exact Hall).
  assert (Hb : lo <= arithmetic_mean (v :: t) <= hi)
    by (apply (mean_bounds lo hi _ (v :: t)); [exact Hall | reflexivity]).
  set (am := arithmetic_mean (v :: t)) in *.
  apply Rabs_le_between in Hm.
  assert (He' : e * am <= e * hi) by (apply Rmult_le_compat_l; lra).
  assert (0 <= e * am) by (apply Rmult_le_pos; lra).
  lra.
Qed.

(** X7. The dial [detect_dial] returns lies within the detected circles, up
    to the rounding of the mean: for circles with coordinates that are not
    negative, each of x, y and r is between the smallest and the largest
    value among the circles, widened by [(1 + u)^k - 1] times the largest;
    so circles whose radii are close enough to each other give a positive
    radius. *)
Theorem detect_dial_within_circles
    (F : Rounded.Arithmetic) (u : R)
    (cv : Capability) (gray : Image) (use_filter : bool) (blur_size : Z)
    (min_diameter max_diameter : R) (c : Circle) (cs : list Circle)
    (x y r xlo xhi ylo yhi rlo rhi : R) :
  standard_model u F ->
  HoughCircles cv
    (if use_filter then medianBlur cv gray blur_size else gray)
    (Py.int (Rounded.double F
               (Rounded.double F
                  (IZR (Z.min (height gray) (width gray)) * 0.5)
                * min_diameter)))
    (Py.int (Rounded.double F
               (Rounded.double F
                  (IZR (Z.min (height gray) (width gray)) * 0.5)
                * max_diameter)))
  = Some [c :: cs] ->
  Rounded.detect_dial F cv gray use_filter blur_size min_diameter max_diameter
  = Dial x y r ->
  0 <= xlo -> 0 <= ylo -> 0 <= rlo ->
  (forall c', In c' (c :: cs) ->
              xlo <= cx c' <= xhi /\ ylo <= cy c' <= yhi
              /\ rlo <= cr c' <= rhi) ->
  let e := (1 + u) ^ length (c :: cs) - 1 in
  xlo - e * xhi <= x <= xhi + e * xhi
  /\ ylo - e * yhi <= y <= yhi + e * yhi
  /\ rlo - e * rhi <= r <= rhi + e * rhi
  /\ (e * rhi < rlo -> 0 < r).
Proof.
  intros HF Hh Hd Hx0 Hy0 Hr0 Hall e.
  pose proof (unit_roundoff u F HF) as Hu.
  destruct (detect_dial_error F u cv gray use_filter blur_size min_diameter
              max_diameter c cs HF Hh) as (x' & y' & r' & Hd' & Bx & By & Br).
  rewrite Hd in Hd'. injection Hd' as <- <- <-.
  assert (Hf : forall (f : Circle -> R) lo hi,
             (forall c', In c' (c :: cs) -> lo <= f c' <= hi) ->
             Forall (fun w => lo <= w <= hi) (map f (c :: cs))).
  { intros f lo hi Hf. apply Forall_forall. intros w Hw.
    apply in_map_iff in Hw. destruct Hw as (c' & <- & Hc). now apply Hf. }
  assert (Hlen : forall f : Circle -> R,
             length (map f (c :: cs)) = length (c :: cs))
    by (intros; apply length_map).
  pose proof (rounded_mean_within u xlo xhi x (cx c) (map cx cs) (proj1 Hu)
                Hx0 (Hf cx xlo xhi (fun c' Hc => proj1 (Hall c' Hc)))) as Hx.
  pose proof (rounded_mean_within u ylo yhi y (cy c) (map cy cs) (proj1 Hu)
                Hy0 (Hf cy ylo yhi (fun c' Hc => proj1 (proj2 (Hall c' Hc)))))
    as Hy.
  pose proof (rounded_mean_within u rlo rhi r (cr c) (map cr cs) (proj1 Hu)
                Hr0 (Hf cr rlo rhi (fun c' Hc => proj2 (proj2 (Hall c' Hc)))))
    as Hrr.
  cbn [length] in Hx, Hy, Hrr, Bx, By, Br. rewrite length_map in Hx, Hy, Hrr.
  cbn [map] in Bx, By, Br.
  specialize (Hx Bx). specialize (Hy By). specialize (Hrr Br).
  unfold e. cbn [length].
  repeat split; try lra.
Qed.

Lemma three_circles_standard :
  standard_model RoundedExamples.u32 (Rounded.inflating RoundedExamples.u32).
Proof. apply inflating_standard. unfold RoundedExamples.u32. lra. Qed.

Lemma detect_dial_within_circles_witness :
  exists x y r,
    Rounded.detect_dial (Rounded.inflating RoundedExamples.u32)
      (Examples.scripted (Some [RoundedExamples.three_circles]) None)
      Examples.blank true 5 0.4 0.9
    = Dial x y r
    /\ 100 - ((1 + RoundedExamples.u32) ^ 3 - 1) * 100 <= x
       <= 100 + ((1 + RoundedExamples.u32) ^ 3 - 1) * 100
    /\ 100.5 - ((1 + RoundedExamples.u32) ^ 3 - 1) * 102 <= r
       <= 102 + ((1 + RoundedExamples.u32) ^ 3 - 1) * 102.
Proof.
  destruct (detect_dial_error
              (Rounded.inflating RoundedExamples.u32) RoundedExamples.u32
              (Examples.scripted (Some [RoundedExamples.three_circles]) None)
              Examples.blank true 5 0.4 0.9
              (100, 100, 100.5) [(100, 100, 101); (100, 100, 102)]
              three_circles_standard eq_refl)
    as (x & y & r & Hd & _).
  exists x, y, r. split; [exact Hd |].
  destruct (detect_dial_within_circles
              (Rounded.inflating RoundedExamples.u32) RoundedExamples.u32
              (Examples.scripted (Some [RoundedExamples.three_circles]) None)
              Examples.blank true 5 0.4 0.9
              (100, 100, 100.5) [(100, 100, 101); (100, 100, 102)]
              x y r 100 100 100 100 100.5 102
              three_circles_standard eq_refl Hd
              ltac:(lra) ltac:(lra) ltac:(lra))
    as (Hx & _ & Hr & _).
  - intros c' [<- | [<- | [<- | []]]]; cbn; lra.
  - split; [exact Hx | exact Hr].
Defined.

Lemma median_bounds (lo hi m : R) (l : list R) :
  Forall (fun v => lo <= v <= hi) l -> median l = Some m -> lo <= m <= hi.
Proof.
  intros H Hm. unfold median in Hm.
  assert (Hnth : forall i, (i < length (sort l))%nat ->
                           lo <= nth i (sort l) 0 <= hi).
  { intros i Hi. rewrite Forall_forall in H. apply H, sort_in.
    now apply nth_In. }
  destruct (length (sort l)) as [| n] eqn:En; [discriminate |].
  destruct (Nat.even (S n)) eqn:Ev.
  - injection Hm as <-.
    assert (H2 : (2 <= S n)%nat) by (destruct n; [discriminate | lia]).
    assert (Hd : (S n / 2 < S n)%nat) by (apply Nat.div_lt; lia).
    pose proof (Hnth (S n / 2 - 1)%nat ltac:(lia)).
    pose proof (Hnth (S n / 2)%nat Hd).
    change (fst (Nat.divmod n 1 0 0)) with (S n / 2)%nat. lra.
  - injection Hm as <-.
    change (fst (Nat.divmod n 1 0 0)) with (S n / 2)%nat.
    apply Hnth. apply Nat.div_lt; lia.
Qed.

Lemma trim_incl {A : Type} (N : Z) (l l' : list A) :
  Py.trim N l = Some l' -> incl l' l.
Proof.
  revert l'. induction l as [| a t IH]; intros l'; cbn [Py.trim].
  - destruct (0 >? N)%Z; [discriminate |]. intros [= <-]. apply incl_refl.
  - destruct (Z.of_nat (length (a :: t)) >? N)%Z.
    + intros H. apply incl_tl. now apply IH.
    + intros [= <-]. apply incl_refl.
Qed.

(** X8. The stabilised dial lies within the raw dials it is computed from:
    each of x, y and r is between the smallest and the largest value among
    the history and the new raw triple. *)
Theorem stabilize_within_history
    (N : Z) (hist hist' : list Circle) (raw out : Circle)
    (xlo xhi ylo yhi rlo rhi : R) :
  stabilize N hist raw = Some (hist', out) ->
  (forall c, In c (raw :: hist) ->
             xlo <= cx c <= xhi /\ ylo <= cy c <= yhi /\ rlo <= cr c <= rhi) ->
  (xlo <= cx out <= xhi /\ ylo <= cy out <= yhi /\ rlo <= cr out <= rhi)
  /\ incl hist' (raw :: hist).
Proof.
  intros Hs Hall. unfold stabilize in Hs.
  destruct (N >? 1)%Z.
  - destruct (Py.trim N (hist ++ [raw])) as [lst |] eqn:Et; [| discriminate].
    assert (Hincl : incl lst (raw :: hist)).
    { intros c Hc. apply (trim_incl _ _ _ Et) in Hc.
      apply in_app_iff in Hc. destruct Hc as [Hc | [<- | []]];
        [now right | now left]. }
    unfold median_axis0 in Hs.
    destruct (median (map (fun c : R * R * R => fst (fst c)) lst))
      as [mx |] eqn:Ex;
      destruct (median (map (fun c : R * R * R => snd (fst c)) lst))
        as [my |] eqn:Ey;
      destruct (median (map (fun c : R * R * R => snd c) lst))
        as [mr |] eqn:Er;
      cbv beta iota in Hs; try discriminate.
    injection Hs as <- <-. split; [| exact Hincl].
    unfold cx at 2, cy at 2, cr at 2. cbn [fst snd].
    assert (Hf : forall (f : Circle -> R) lo hi,
               (forall c, In c (raw :: hist) -> lo <= f c <= hi) ->
               Forall (fun v => lo <= v <= hi) (map f lst)).
    { intros f lo hi Hf. apply Forall_forall. intros v Hv.
      apply in_map_iff in Hv. destruct Hv as (c & <- & Hc).
      apply Hf, Hincl, Hc. }
    split; [| split].
    + apply (median_bounds xlo xhi mx _
               (Hf cx xlo xhi (fun c Hc => proj1 (Hall c Hc))) Ex).
    + apply (median_bounds ylo yhi my _
               (Hf cy ylo yhi (fun c Hc => proj1 (proj2 (Hall c Hc)))) Ey).
    + apply (median_bounds rlo rhi mr _
               (Hf cr rlo rhi (fun c Hc => proj2 (proj2 (Hall c Hc)))) Er).
  - injection Hs as <- <-. split.
    + apply Hall. now left.
    + apply incl_tl, incl_refl.
Qed.

Lemma stabilize_three_of_three :
  stabilize 3 Examples.two_pushes Examples.third_push
  = Some ([(1, 2, 3); (4, 5, 6); (7, 8, 9)], (4, 5, 6)).
Proof.
  unfold stabilize. cbn [Z.gtb Z.compare Pos.compare Pos.compare_cont].
  assert (Ht : Py.trim 3 (Examples.two_pushes ++ [Examples.third_push])
               = Some [(1, 2, 3); (4, 5, 6); (7, 8, 9)]) by reflexivity.
  rewrite Ht. unfold median_axis0. cbn [map fst snd].
  assert (Sx : sort [1; 4; 7] = [1; 4; 7]) by sort_given.
  assert (Sy : sort [2; 5; 8] = [2; 5; 8]) by sort_given.
  assert (Sr : sort [3; 6; 9] = [3; 6; 9]) by sort_given.
  unfold median. rewrite Sx, Sy, Sr. reflexivity.
Qed.

Lemma stabilize_within_history_witness :
  (1 <= cx (4, 5, 6) <= 7 /\ 2 <= cy (4, 5, 6) <= 8
   /\ 3 <= cr (4, 5, 6) <= 9)
  /\ incl [(1, 2, 3); (4, 5, 6); (7, 8, 9)]
          (Examples.third_push :: Examples.two_pushes).
Proof.
  apply (stabilize_within_history 3 Examples.two_pushes
           [(1, 2, 3); (4, 5, 6); (7, 8, 9)]
           Examples.third_push (4, 5, 6) 1 7 2 8 3 9
           stabilize_three_of_three).
  intros c [<- | [<- | [<- | []]]]; cbn; lra.
Defined.

(** ** More on the value conversion *)

(** X10. On an increasing scale ([min_angle < max_angle],
    [min_value <= max_value]) [angle2value] is monotone: of two angles, the
    larger never gives the smaller value. *)
Theorem angle2value_monotone
    (min_angle max_angle min_value max_value a a' : R) :
  min_angle < max_angle -> min_value <= max_value -> a <= a' ->
  exists v v',
    angle2value min_angle max_angle min_value max_value a = Some v
    /\ angle2value min_angle max_angle min_value max_value a' = Some v'
    /\ v <= v'.
Proof.
  intros Ha Hv Hle. unfold angle2value.
  destruct (Req_dec_T (max_angle - min_angle) 0) as [E | _]; [lra |].
  do 2 eexists. split; [reflexivity |]. split; [reflexivity |].
  assert (Hinv : 0 < / (max_angle - min_angle))
    by (apply Rinv_0_lt_compat; lra).
  unfold Rdiv.
  set (k := / (max_angle - min_angle)) in *.
  assert (Hk : 0 <= (max_value - min_value) * k) by nra.
  nra.
Qed.

Lemma angle2value_monotone_witness :
  exists v v',
    angle2value 0 270 0 10 90 = Some v
    /\ angle2value 0 270 0 10 135 = Some v'
    /\ v <= v'.
Proof.
  apply (angle2value_monotone 0 270 0 10 90 135); lra.
Defined.

(** X11. Without a complete calibration the value a frame yields is the
    needle angle in degrees, in [0, 360). *)
Theorem uncalibrated_value_range
    (cfg : Config) (cv : Capability) (gray : Image)
    (lst lst' : list Circle) (value : R) :
  min_angle cfg = None \/ max_angle cfg = None
  \/ min_value cfg = None \/ max_value cfg = None ->
  measure cfg cv gray lst = Value value lst' ->
  0 <= value < 360.
Proof.
  intros Hnone. unfold measure.
  destruct (detect_dial cv gray true 5 0.4 0.9) as [| x y r |];
    try discriminate.
  destruct (stabilize _ _ _) as [[l [[x' y'] r']] |]; [| discriminate].
  destruct (draw_dial_raises cfg); [discriminate |].
  destruct (get_needle_angle _ _ _ _ _ _ _ _ _ _ _ _ _ _ _)
    as [[s af] h] eqn:Eg.
  destruct s as [| n | | a |]; try discriminate.
  assert (Hrange : 0 <= a < 2 * PI).
  { pose proof (get_needle_angle_status cv [gray] 0%nat x' y' r'
                  (threshold cfg) false (blur_size cfg) 10
                  (threshold_mode cfg) (r_inner_min cfg) (r_inner_max cfg)
                  (r_outer_min cfg) (r_outer_max cfg)) as Hs.
    rewrite Eg in Hs. cbn [fst] in Hs. symmetry in Hs.
    now apply angle_from_lines_range in Hs. }
  assert (Hconv : convert cfg a = Some (a * 180 / PI)).
  { unfold convert.
    destruct Hnone as [H | [H | [H | H]]]; rewrite H;
      repeat match goal with |- context [match ?o with _ => _ end] =>
               destruct o end; reflexivity. }
  rewrite Hconv. intros [= <- _].
  pose proof PI_RGT_0 as Hpi.
  assert (Hinv : 0 < / PI) by now apply Rinv_0_lt_compat.
  assert (Hone : PI * / PI = 1) by (apply Rinv_r; lra).
  unfold Rdiv. split; nra.
Qed.

Lemma uncalibrated_value_range_witness : 0 <= 0 < 360.
Proof.
  apply (uncalibrated_value_range Examples.cfg0
           (Examples.scripted Examples.one_circle Examples.needle_down)
           Examples.blank [] [] 0).
  - left. reflexivity.
  - apply measure_needle_down.
Defined.

(** ** Invariants of the main loop *)

Import LoopStatements.

Lemma trim_length {A : Type} (N : Z) (l l' : list A) :
  (0 <= N)%Z -> Py.trim N l = Some l' ->
  length l' = Nat.min (length l) (Z.to_nat N).
Proof.
  intros HN H. rewrite trim_skipn in H by exact HN. injection H as <-.
  rewrite length_skipn. lia.
Qed.

Lemma trim_defined {A : Type} (N : Z) (l : list A) :
  (0 <= N)%Z -> exists l', Py.trim N l = Some l'.
Proof. intros HN. eexists. now apply trim_skipn. Qed.

Lemma stabilize_length (N : Z) (hist hist' : list Circle) (raw out : Circle) :
  stabilize N hist raw = Some (hist', out) ->
  (Z.of_nat (length hist) <= Z.max 0 N)%Z ->
  (Z.of_nat (length hist') <= Z.max 0 N)%Z.
Proof.
  unfold stabilize. destruct (N >? 1)%Z eqn:E.
  - destruct (Py.trim N (hist ++ [raw])) as [lst |] eqn:Et; [| discriminate].
    destruct (median_axis0 lst); [| discriminate].
    intros [= <- _] _. apply trim_length in Et; lia.
  - intros [= <- _]. auto.
Qed.

(** The loop variables after one iteration, by the outcome of lines
    214-263. *)
Lemma iteration_state (cfg : Config) (cv : Capability) (gray : Image)
    (st : State) (w : World) :
  match measure cfg cv gray (calibration_lst st) with
  | DetectionError e lst =>
      exists st' w',
        iteration cfg cv gray st w = (Some st', w')
        /\ values_lst st' = values_lst st
        /\ calibration_lst st' = lst
        /\ debug_export_number st' = ((debug_export_number st + 1) mod 10)%Z
  | Value value lst =>
      match Py.trim (median_filter_value_N cfg) (values_lst st ++ [value]) with
      | Some vals =>
          exists st' w',
            iteration cfg cv gray st w = (Some st', w')
            /\ values_lst st' = vals
            /\ calibration_lst st' = lst
            /\ debug_export_number st' = debug_export_number st
      | None => fst (iteration cfg cv gray st w) = None
      end
  | NotANumber | Uncaught => fst (iteration cfg cv gray st w) = None
  end.
Proof.
  rewrite iteration_unfold.
  destruct (rate_limit_run cfg st w) as (w1 & Hrl & Hc1 & Hs1 & Ht1).
  rewrite Hrl. cbn [snd]. cbn zeta.
  set (w2 := {| clock := clock w1; ticks := S (ticks w1); sent := sent w1 |}).
  set (st1 := set_loop_start_time (clock w1 (ticks w1)) st).
  destruct (measure cfg cv gray (calibration_lst st)) as [v lst | e lst | |].
  - destruct (Py.trim (median_filter_value_N cfg) (values_lst st ++ [v]))
      as [vals |] eqn:Htrim.
    + destruct (process_value_run cfg v (set_calibration_lst lst st1) w2 vals)
        as (st3 & w3 & k & Hpv & _ & _ & _ & _ & Hv & Hcal & Hd & _);
        [exact Htrim |].
      destruct (watchdog_run cfg st3 w3)
        as (st4 & w4 & Hwd & _ & _ & _ & Hv4 & Hcal4 & Hd4 & _).
      rewrite Hpv, Hwd. exists st4, w4. split; [reflexivity |].
      cbn in Hcal, Hd. now rewrite Hv4, Hv, Hcal4, Hcal, Hd4, Hd.
    + unfold process_value.
      change (values_lst (set_calibration_lst lst st1)) with (values_lst st).
      rewrite Htrim. reflexivity.
  - set (st3 := set_debug_export_number _ _).
    destruct (watchdog_run cfg st3 w2)
      as (st4 & w4 & Hwd & _ & _ & _ & Hv4 & Hcal4 & Hd4 & _).
    rewrite Hwd. exists st4, w4.
    split; [reflexivity |]. now rewrite Hv4, Hcal4, Hd4.
  - reflexivity.
  - reflexivity.
Qed.

Lemma iteration_bounded (cfg : Config) (cv : Capability) (gray : Image)
    (st st' : State) (w w' : World) :
  bounded cfg st ->
  iteration cfg cv gray st w = (Some st', w') ->
  bounded cfg st'.
Proof.
  intros (Hv & Hc & Hd) Hit.
  pose proof (iteration_state cfg cv gray st w) as H.
  pose proof (measure_history cfg cv gray (calibration_lst st)) as Hh.
  assert (Hcal : forall lst,
            lst = calibration_lst st
            \/ (exists raw out,
                  stabilize (median_filter_dial_position_N cfg)
                            (calibration_lst st) raw = Some (lst, out)) ->
            (Z.of_nat (length lst)
             <= Z.max 0 (median_filter_dial_position_N cfg))%Z).
  { intros lst [-> | (raw & out & Hs)]; [exact Hc |].
    now apply (stabilize_length _ _ _ _ _ Hs). }
  destruct (measure cfg cv gray (calibration_lst st)) as [v lst | e lst | |].
  - destruct (Py.trim (median_filter_value_N cfg) (values_lst st ++ [v]))
      as [vals |] eqn:Htrim.
    + destruct H as (s & w0 & Hit' & Hvs & Hcs & Hds).
      rewrite Hit in Hit'. injection Hit' as <- <-.
      repeat split.
      * intros HN. rewrite Hvs. apply trim_length in Htrim; lia.
      * rewrite Hcs. now apply Hcal.
      * rewrite Hds. lia.
      * rewrite Hds. lia.
    + rewrite Hit in H. discriminate.
  - destruct H as (s & w0 & Hit' & Hvs & Hcs & Hds).
    rewrite Hit in Hit'. injection Hit' as <- <-.
    repeat split.
    + rewrite Hvs. exact Hv.
    + rewrite Hcs. now apply Hcal.
    + rewrite Hds. apply Z.mod_pos_bound. lia.
    + rewrite Hds. apply Z.mod_pos_bound. lia.
  - rewrite Hit in H. discriminate.
  - rewrite Hit in H. discriminate.
Qed.

Lemma loop_bounded (cfg : Config) (cv : Capability) (frames : list Image) :
  forall st w st' w',
    bounded cfg st ->
    loop cfg cv frames st w = (Some st', w') ->
    bounded cfg st'.
Proof.
  induction frames as [| g rest IH]; intros st w st' w' Hb Hl.
  - cbn in Hl. injection Hl as <- <-. exact Hb.
  - cbn [loop] in Hl. unfold bind in Hl.
    destruct (iteration cfg cv g st w) as [[st1 |] w1] eqn:Hit.
    + apply (IH st1 w1 st' w'); [| exact Hl].
      now apply (iteration_bounded cfg cv g st st1 w w1).
    + discriminate.
Qed.

(** X12. The histories never outgrow their windows: whenever [main] comes
    to the end of the frames, [values_lst] holds at most
    [median_filter_value_N] values, [calibration_lst] at most
    [median_filter_dial_position_N] triples (none when that is 1 or less),
    and [debug_export_number] is a digit; and the loop keeps these bounds
    from any state that has them. *)
Theorem main_histories_bounded
    (cfg : Config) (cv : Capability) (frames : list Image)
    (st st' : State) (w w' : World) :
  (main cfg cv frames w = (Some st', w') -> bounded cfg st')
  /\ (bounded cfg st -> loop cfg cv frames st w = (Some st', w') ->
      bounded cfg st').
Proof.
  split.
  - unfold main, init. unfold bind at 1 2 3. unfold time_time, ret.
    cbn [clock ticks sent]. intros Hl.
    apply (loop_bounded cfg cv frames _ _ _ _) in Hl; [exact Hl |].
    unfold bounded. cbn. repeat split; lia.
  - apply loop_bounded.
Qed.

(** ** Runs that reach the end of their frames

    With a positive radius from every detection, a complete (or absent)
    calibration and a non-negative value window, each iteration yields a
    next state.  The runs below are of this kind. *)

Lemma median_between (l : list R) (m : R) :
  median l = Some m -> exists a b, In a l /\ In b l /\ m = (a + b) / 2.
Proof.
  intros Hm. unfold median in Hm.
  assert (Hnth : forall i, (i < length (sort l))%nat ->
                           In (nth i (sort l) 0) l).
  { intros i Hi. apply sort_in. now apply nth_In. }
  destruct (length (sort l)) as [| n] eqn:En; [discriminate |].
  destruct (Nat.even (S n)) eqn:Ev.
  - injection Hm as <-.
    change (fst (Nat.divmod n 1 0 0)) with (S n / 2)%nat.
    assert (H2 : (2 <= S n)%nat) by (destruct n; [discriminate | lia]).
    assert (Hd : (S n / 2 < S n)%nat) by (apply Nat.div_lt; lia).
    exists (nth (S n / 2 - 1) (sort l) 0), (nth (S n / 2) (sort l) 0).
    repeat split; try apply Hnth; try lia.
  - injection Hm as <-.
    change (fst (Nat.divmod n 1 0 0)) with (S n / 2)%nat.
    exists (nth (S n / 2) (sort l) 0), (nth (S n / 2) (sort l) 0).
    assert (Hd : (S n / 2 < S n)%nat) by (apply Nat.div_lt; lia).
    repeat split; try now apply Hnth. field.
Qed.

Lemma median_pos (l : list R) (m : R) :
  (forall v, In v l -> 0 < v) -> median l = Some m -> 0 < m.
Proof.
  intros H Hm. destruct (median_between l m Hm) as (a & b & Ha & Hb & ->).
  pose proof (H a Ha). pose proof (H b Hb). lra.
Qed.

Lemma detect_dial_well_formed (cv : Capability) (gray : Image) :
  circles_well_formed cv ->
  detect_dial cv gray true 5 0.4 0.9 = DialNone
  \/ exists x y r, detect_dial cv gray true 5 0.4 0.9 = Dial x y r /\ 0 < r.
Proof.
  intros Hwf. unfold detect_dial. cbv beta iota zeta.
  destruct (Hwf (medianBlur cv gray 5)
              (Py.int (IZR (Z.min (height gray) (width gray)) * 0.5 * 0.4))
              (Py.int (IZR (Z.min (height gray) (width gray)) * 0.5 * 0.9)))
    as [H | (c & row & H & Hpos)]; rewrite H.
  - now left.
  - right. unfold average_circles, mean_circle. cbn [map].
    rewrite !mean_cons. do 3 eexists. split; [reflexivity |].
    apply Rdiv_lt_0_compat.
    + apply (Rsum_pos (snd c :: map (fun c0 : Circle => snd c0) row));
        [discriminate |].
      apply Forall_forall. intros v Hv.
      change (snd c :: map (fun c0 : Circle => snd c0) row)
        with (map cr (c :: row)) in Hv.
      apply in_map_iff in Hv. destruct Hv as (c' & <- & Hc'). now apply Hpos.
    + apply lt_0_INR. cbn. lia.
Qed.

Lemma stabilize_positive (N : Z) (hist : list Circle) (raw : Circle) :
  (forall c, In c hist -> 0 < cr c) -> 0 < cr raw ->
  exists hist' out,
    stabilize N hist raw = Some (hist', out)
    /\ 0 < cr out /\ (forall c, In c hist' -> 0 < cr c).
Proof.
  intros Hh Hr. unfold stabilize. destruct (N >? 1)%Z eqn:E.
  - apply Z.gtb_lt in E.
    destruct (trim_defined N (hist ++ [raw])) as [lst Ht]; [lia |].
    rewrite Ht.
    assert (Hincl : forall c, In c lst -> 0 < cr c).
    { intros c Hc. apply (trim_incl _ _ _ Ht) in Hc.
      apply in_app_iff in Hc. destruct Hc as [Hc | [<- | []]]; auto. }
    assert (Hne : lst <> []).
    { intros ->. apply trim_length in Ht; [| lia].
      rewrite length_app in Ht. cbn in Ht. lia. }
    destruct (median_axis0_defined lst Hne)
      as (mx & my & mr & _ & _ & Hmr & Hm).
    rewrite Hm. exists lst, (mx, my, mr). repeat split; auto.
    apply (median_pos (map cr lst)); [| exact Hmr].
    intros v Hv. apply in_map_iff in Hv. destruct Hv as (c & <- & Hc). auto.
  - exists hist, raw. auto.
Qed.

Lemma angle_from_lines_no_raise (lines : option (list (list Line)))
    (x y r rim rix rom rox : R) :
  0 < r -> angle_from_lines lines x y r rim rix rom rox <> AverageRaise.
Proof.
  intros Hr. destruct lines as [ls |]; [| discriminate].
  set (fl := filter_lines_for_needle ls x y r 0.2 rim rix rom rox).
  destruct (75 <? length fl)%nat eqn:E75.
  - unfold angle_from_lines. fold fl. rewrite E75. discriminate.
  - destruct fl as [| l0 fl'] eqn:Efl.
    + unfold angle_from_lines. fold fl. rewrite Efl. cbn. discriminate.
    + rewrite angle_from_candidates; fold fl; rewrite ?Efl;
        try discriminate; try exact Hr.
      apply Nat.ltb_ge in E75. exact E75.
Qed.

Lemma convert_defined (cfg : Config) (a : R) :
  calibration_ok cfg -> exists v, convert cfg a = Some v.
Proof.
  unfold calibration_ok, convert, angle2value.
  destruct (min_value cfg) as [v0 |];
    [| destruct (min_angle cfg), (max_angle cfg); eauto].
  destruct (min_angle cfg) as [a0 |]; [| contradiction].
  destruct (max_angle cfg) as [a1 |]; [| contradiction].
  destruct (max_value cfg) as [v1 |]; [| contradiction].
  intros Hne. destruct (Req_dec_T (a1 - a0) 0); [lra | eauto].
Qed.

Lemma calibration_ok_draws (cfg : Config) :
  calibration_ok cfg -> draw_dial_raises cfg = false.
Proof.
  unfold calibration_ok, draw_dial_raises.
  destruct (min_value cfg); [| reflexivity].
  destruct (min_angle cfg), (max_angle cfg), (max_value cfg);
    try contradiction; reflexivity.
Qed.

Lemma measure_safe (cfg : Config) (cv : Capability) (gray : Image)
    (lst : list Circle) :
  circles_well_formed cv -> calibration_ok cfg ->
  (forall c, In c lst -> 0 < cr c) ->
  match measure cfg cv gray lst with
  | Value _ lst' | DetectionError _ lst' => forall c, In c lst' -> 0 < cr c
  | NotANumber | Uncaught => False
  end.
Proof.
  intros Hwf Hcal Hpos. unfold measure.
  destruct (detect_dial_well_formed cv gray Hwf) as [Hd | (x & y & r & Hd & Hr)];
    rewrite Hd; [exact Hpos |].
  destruct (stabilize_positive (median_filter_dial_position_N cfg) lst
              (x, y, r) Hpos Hr)
    as (lst' & [[x' y'] r'] & Hs & Hr' & Hpos').
  rewrite Hs, (calibration_ok_draws cfg Hcal).
  pose proof (get_needle_angle_status cv [gray] 0%nat x' y' r'
                (threshold cfg) false (blur_size cfg) 10
                (threshold_mode cfg) (r_inner_min cfg) (r_inner_max cfg)
                (r_outer_min cfg) (r_outer_max cfg)) as Hst.
  destruct (get_needle_angle _ _ _ _ _ _ _ _ _ _ _ _ _ _ _) as [[s af] h].
  cbn [fst] in Hst.
  destruct s as [| n | | a |]; try exact Hpos'.
  - destruct (convert_defined cfg a Hcal) as [v Hv]. rewrite Hv. exact Hpos'.
  - symmetry in Hst. now apply angle_from_lines_no_raise in Hst.
Qed.

Lemma iteration_safe (cfg : Config) (cv : Capability) (gray : Image)
    (st : State) (w : World) :
  circles_well_formed cv -> calibration_ok cfg ->
  (0 <= median_filter_value_N cfg)%Z ->
  (forall c, In c (calibration_lst st) -> 0 < cr c) ->
  exists st' w',
    iteration cfg cv gray st w = (Some st', w')
    /\ forall c, In c (calibration_lst st') -> 0 < cr c.
Proof.
  intros Hwf Hcal HN Hpos.
  pose proof (iteration_state cfg cv gray st w) as H.
  pose proof (measure_safe cfg cv gray (calibration_lst st) Hwf Hcal Hpos)
    as Hs.
  destruct (measure cfg cv gray (calibration_lst st)) as [v lst | e lst | |];
    [| | contradiction | contradiction].
  - destruct (trim_defined (median_filter_value_N cfg) (values_lst st ++ [v])
                HN) as [vals Ht].
    rewrite Ht in H. destruct H as (st' & w' & Hit & _ & Hc & _).
    exists st', w'. split; [exact Hit | now rewrite Hc].
  - destruct H as (st' & w' & Hit & _ & Hc & _).
    exists st', w'. split; [exact Hit | now rewrite Hc].
Qed.

Lemma loop_safe (cfg : Config) (cv : Capability) (frames : list Image) :
  circles_well_formed cv -> calibration_ok cfg ->
  (0 <= median_filter_value_N cfg)%Z ->
  forall st w,
    (forall c, In c (calibration_lst st) -> 0 < cr c) ->
    exists st' w', loop cfg cv frames st w = (Some st', w').
Proof.
  intros Hwf Hcal HN.
  induction frames as [| g rest IH]; intros st w Hpos.
  - exists st, w. reflexivity.
  - destruct (iteration_safe cfg cv g st w Hwf Hcal HN Hpos)
      as (st1 & w1 & Hit & Hpos1).
    destruct (IH st1 w1 Hpos1) as (st' & w' & Hl).
    exists st', w'. cbn [loop]. unfold bind. now rewrite Hit.
Qed.

Lemma scripted_well_formed (lines : option (list (list Line))) :
  circles_well_formed (Examples.scripted Examples.one_circle lines).
Proof.
  intros img lo hi. right. exists (0, 0, 100), []. split; [reflexivity |].
  intros c [<- | []]. cbn. lra.
Qed.

Lemma main_histories_bounded_witness :
  (exists st' w',
     main Examples.cfg0
          (Examples.scripted Examples.one_circle Examples.needle_down)
          [Examples.blank; Examples.blank] (Examples.world (fun _ => 1000))
     = (Some st', w')
     /\ bounded Examples.cfg0 st')
  /\ (exists st' w',
        loop Examples.cfg0
             (Examples.scripted Examples.one_circle Examples.needle_down)
             [Examples.blank; Examples.blank] Examples.st0
             (Examples.world (fun _ => 1000))
        = (Some st', w')
        /\ bounded Examples.cfg0 st').
Proof.
  assert (Hwf := scripted_well_formed Examples.needle_down).
  assert (HN : (0 <= median_filter_value_N Examples.cfg0)%Z) by (cbn; lia).
  assert (Hcal : calibration_ok Examples.cfg0) by exact I.
  split.
  - assert (Hm : exists st' w',
               main Examples.cfg0
                 (Examples.scripted Examples.one_circle Examples.needle_down)
                 [Examples.blank; Examples.blank]
                 (Examples.world (fun _ => 1000))
               = (Some st', w')).
    { unfold main, init. unfold bind at 1 2 3. unfold time_time, ret.
      cbn [clock ticks sent].
      apply (loop_safe _ _ _ Hwf Hcal HN). intros c []. }
    destruct Hm as (st' & w' & Hm). exists st', w'. split; [exact Hm |].
    apply (proj1 (main_histories_bounded Examples.cfg0
                    (Examples.scripted Examples.one_circle
                       Examples.needle_down)
                    [Examples.blank; Examples.blank] Examples.st0 st'
                    (Examples.world (fun _ => 1000)) w')).
    exact Hm.
  - destruct (loop_safe Examples.cfg0 _ [Examples.blank; Examples.blank]
                Hwf Hcal HN Examples.st0 (Examples.world (fun _ => 1000)))
      as (st' & w' & Hl); [intros c [] |].
    exists st', w'. split; [exact Hl |].
    apply (proj2 (main_histories_bounded Examples.cfg0
                    (Examples.scripted Examples.one_circle
                       Examples.needle_down)
                    [Examples.blank; Examples.blank] Examples.st0 st'
                    (Examples.world (fun _ => 1000)) w')).
    + unfold bounded. cbn. repeat split; lia.
    + exact Hl.
Defined.

(** ** The silence watchdog *)

Lemma watchdog_cases (cfg : Config) (st : State) (w : World) :
  exists st' w',
    watchdog cfg st w = (st', w')
    /\ clock w' = clock w /\ (ticks w < ticks w')%nat
    /\ last_successful_detection_time st' = last_successful_detection_time st
    /\ values_lst st' = values_lst st
    /\ (if Rltb (last_successful_detection_time st + warn_no_detections_s cfg)
                (clock w (ticks w))
           && Rltb (last_warn_time st + warn_interval cfg)
                   (clock w (S (ticks w)))
        then sent w' = sent w
                       ++ [NoMeasurement (last_successful_detection_time st)]
             /\ last_warn_time st' = clock w (S (S (ticks w)))
             /\ ticks w' = S (S (S (ticks w)))
        else sent w' = sent w /\ last_warn_time st' = last_warn_time st).
Proof.
  unfold watchdog. run_io.
  destruct (Rltb (last_successful_detection_time st
                  + warn_no_detections_s cfg) (clock w (ticks w)));
    cbn [andb]; run_io.
  - destruct (Rltb (last_warn_time st + warn_interval cfg)
                   (clock w (S (ticks w)))); run_io;
      do 2 eexists; (split; [reflexivity |]); cbn;
      repeat split; auto with arith.
  - do 2 eexists. split; [reflexivity |]. cbn. repeat split; auto with arith.
Qed.

Lemma measure_no_dial (cfg : Config) (cv : Capability) (gray : Image)
    (lst : list Circle) :
  detect_dial cv gray true 5 0.4 0.9 = DialNone ->
  measure cfg cv gray lst = DetectionError NoCirclesFound lst.
Proof. intros H. unfold measure. now rewrite H. Qed.

(** An iteration on a frame without a dial; [k] is the index of the
    watchdog's first clock reading. *)
Lemma iteration_no_dial (cfg : Config) (cv : Capability) (gray : Image)
    (st : State) (w : World) :
  detect_dial cv gray true 5 0.4 0.9 = DialNone ->
  exists st' w' k,
    iteration cfg cv gray st w = (Some st', w')
    /\ clock w' = clock w
    /\ (ticks w < k)%nat /\ (k < ticks w')%nat
    /\ last_successful_detection_time st' = last_successful_detection_time st
    /\ values_lst st' = values_lst st
    /\ (if Rltb (last_successful_detection_time st + warn_no_detections_s cfg)
                (clock w k)
           && Rltb (last_warn_time st + warn_interval cfg) (clock w (S k))
        then sent w' = sent w
                       ++ [NoMeasurement (last_successful_detection_time st)]
             /\ last_warn_time st' = clock w (S (S k))
             /\ ticks w' = S (S (S k))
        else sent w' = sent w /\ last_warn_time st' = last_warn_time st).
Proof.
  intros Hd. rewrite iteration_unfold, (measure_no_dial cfg cv gray _ Hd).
  destruct (rate_limit_run cfg st w) as (w1 & Hrl & Hc1 & Hs1 & Ht1).
  rewrite Hrl. cbn [snd]. cbn zeta.
  set (w2 := {| clock := clock w1; ticks := S (ticks w1); sent := sent w1 |}).
  set (st3 := set_debug_export_number _ _).
  destruct (watchdog_cases cfg st3 w2)
    as (st4 & w4 & Hwd & Hc4 & Ht4 & Hl4 & Hv4 & Hif).
  rewrite Hwd. exists st4, w4, (S (ticks w1)).
  split; [reflexivity |]. cbn in Hc4, Ht4, Hl4, Hv4, Hif.
  rewrite Hc1 in Hc4, Hif. rewrite Hs1 in Hif.
  repeat split; try assumption; try lia.
Qed.

(** Frames without a dial while the rate limit holds every alert back. *)
Lemma loop_no_dial_quiet (cfg : Config) (cv : Capability)
    (frames : list Image) :
  no_dial_found cv frames ->
  forall st w,
    (forall k, (ticks w <= k)%nat ->
               clock w k <= last_warn_time st + warn_interval cfg) ->
    exists st' w',
      loop cfg cv frames st w = (Some st', w')
      /\ sent w' = sent w
      /\ last_successful_detection_time st'
         = last_successful_detection_time st
      /\ values_lst st' = values_lst st.
Proof.
  induction frames as [| g rest IH]; intros Hnd st w Hq.
  - exists st, w. repeat split.
  - destruct (iteration_no_dial cfg cv g st w (Hnd g (or_introl eq_refl)))
      as (st1 & w1 & k & Hit & Hc & Hk & Hk' & Hl & Hv & Hif).
    assert (Hno : Rltb (last_warn_time st + warn_interval cfg)
                       (clock w (S k)) = false)
      by (apply Rltb_false, Hq; lia).
    rewrite Hno, andb_false_r in Hif. destruct Hif as [Hs Hw].
    destruct (IH (fun g' Hg' => Hnd g' (or_intror Hg')) st1 w1)
      as (st' & w' & Hloop & Hs' & Hl' & Hv').
    { intros j Hj. rewrite Hc, Hw. apply Hq. lia. }
    exists st', w'. cbn [loop]. unfold bind. rewrite Hit.
    split; [exact Hloop |]. now rewrite Hs', Hs, Hl', Hl, Hv', Hv.
Qed.

(** X14. Over any run of frames in which no dial is found, started when the
    last detection is more than [warn_no_detections_s] and the last alert
    more than [warn_interval] in the past, and lasting no longer than
    [warn_interval], the loop sends exactly one alert, 'No measurement
    since' the last detection, and leaves the time of the last detection
    and the value history as they were. *)
Theorem silence_watchdog_fires_once
    (cfg : Config) (cv : Capability) (gray : Image) (rest : list Image)
    (st : State) (w : World) :
  no_dial_found cv (gray :: rest) ->
  (forall k, (ticks w <= k)%nat ->
             last_successful_detection_time st + warn_no_detections_s cfg
             < clock w k
             /\ last_warn_time st + warn_interval cfg < clock w k) ->
  (forall i j, (ticks w <= i <= j)%nat ->
               clock w j <= clock w i + warn_interval cfg) ->
  exists st' w',
    loop cfg cv (gray :: rest) st w = (Some st', w')
    /\ sent w' = sent w ++ [NoMeasurement (last_successful_detection_time st)]
    /\ last_successful_detection_time st' = last_successful_detection_time st
    /\ values_lst st' = values_lst st.
Proof.
  intros Hnd Hdue Hspan.
  destruct (iteration_no_dial cfg cv gray st w (Hnd gray (or_introl eq_refl)))
    as (st1 & w1 & k & Hit & Hc & Hk & Hk' & Hl & Hv & Hif).
  assert (H1 : Rltb (last_successful_detection_time st
                     + warn_no_detections_s cfg) (clock w k) = true)
    by (apply Rltb_true, Hdue; lia).
  assert (H2 : Rltb (last_warn_time st + warn_interval cfg)
                    (clock w (S k)) = true)
    by (apply Rltb_true, Hdue; lia).
  rewrite H1, H2 in Hif. cbn [andb] in Hif. destruct Hif as (Hs & Hw & Ht).
  destruct (loop_no_dial_quiet cfg cv rest
              (fun g' Hg' => Hnd g' (or_intror Hg')) st1 w1)
    as (st' & w' & Hloop & Hs' & Hl' & Hv').
  { intros j Hj. rewrite Hc, Hw. apply Hspan. lia. }
  exists st', w'. cbn [loop]. unfold bind. rewrite Hit.
  split; [exact Hloop |]. now rewrite Hs', Hs, Hl', Hl, Hv', Hv.
Qed.

Lemma silence_watchdog_fires_once_witness :
  exists st' w',
    loop Examples.cfg0 (Examples.scripted None None)
         [Examples.blank; Examples.blank; Examples.blank] Examples.st0
         (Examples.world (fun _ => 2000))
    = (Some st', w')
    /\ sent w' = sent (Examples.world (fun _ => 2000))
                 ++ [NoMeasurement
                       (last_successful_detection_time Examples.st0)]
    /\ last_successful_detection_time st'
       = last_successful_detection_time Examples.st0
    /\ values_lst st' = values_lst Examples.st0.
Proof.
  apply (silence_watchdog_fires_once Examples.cfg0
           (Examples.scripted None None) Examples.blank
           [Examples.blank; Examples.blank] Examples.st0
           (Examples.world (fun _ => 2000))).
  - intros g _. reflexivity.
  - intros k _. cbn. lra.
  - intros i j _. cbn. lra.
Defined.

(** ** Masking and thresholding, pixel by pixel *)

Import ImageStatements.

Lemma nth_error_combine {A B : Type} (a : list A) (b : list B) (n : nat) :
  nth_error (combine a b) n
  = match nth_error a n, nth_error b n with
    | Some u, Some v => Some (u, v)
    | _, _ => None
    end.
Proof.
  revert b n. induction a as [| u a IH]; intros [| v b] [| n]; cbn; auto.
  - now destruct (nth_error a n).
Qed.

Lemma pixel_map_pixels (f : Z -> Z) (img : Image) (i j : nat) :
  pixel (map_pixels f img) i j = option_map f (pixel img i j).
Proof.
  unfold pixel, map_pixels. rewrite nth_error_map.
  destruct (nth_error img i) as [row |]; cbn; [| reflexivity].
  apply nth_error_map.
Qed.

Lemma pixel_bitwise_or (a b : Image) (i j : nat) :
  pixel (bitwise_or a b) i j
  = match pixel a i j, pixel b i j with
    | Some p, Some q => Some (Z.lor p q)
    | _, _ => None
    end.
Proof.
  unfold pixel, bitwise_or. rewrite nth_error_map, nth_error_combine.
  destruct (nth_error a i) as [ra |]; destruct (nth_error b i) as [rb |];
    cbn; try reflexivity.
  - rewrite nth_error_map, nth_error_combine.
    destruct (nth_error ra j); destruct (nth_error rb j); reflexivity.
  - now destruct (nth_error ra j).
Qed.

Lemma lor_byte_255 (p : Z) : (0 <= p <= 255)%Z -> Z.lor p 255 = 255%Z.
Proof.
  intros Hp. change 255%Z with (Z.ones 8).
  destruct (Z.eq_dec p 0) as [-> | Hne]; [reflexivity |].
  apply Z.lor_ones_low; [lia |].
  apply Z.log2_lt_pow2; [lia |]. change (2 ^ 8)%Z with 256%Z. lia.
Qed.

Lemma after_threshold_image
    (cv : Capability) (h : Heap) (gray : ref)
    (x y r : R) (threshold : Z) (use_filter : bool) (blur_size : Z)
    (min_line_length : R) (threshold_mode : option ThresholdMode.t)
    (rim rix rom rox : R) :
  (gray < length h)%nat ->
  let result :=
    get_needle_angle cv h gray x y r threshold use_filter blur_size
      min_line_length threshold_mode rim rix rom rox in
  let centre := (Py.int x, Py.int y) in
  let drawn := circle cv (load h gray) centre (Py.int (r * rim)) 255 LINE_AA in
  let mask := circle cv (ones_like_255 drawn) centre (Py.int (r * rox))
                     0 LINE_8 in
  load (snd result) (snd (fst result))
  = apply_threshold cv (bitwise_or drawn mask) threshold_mode
                    threshold blur_size.
Proof.
  intros Hg result centre drawn mask.
  destruct (detect_lines_heap cv h gray x y r threshold use_filter blur_size
              min_line_length threshold_mode rim rox Hg)
    as (rest & Hdl).
  cbn zeta in Hdl. fold centre in Hdl. fold drawn in Hdl. fold mask in Hdl.
  unfold result, get_needle_angle. rewrite Hdl. cbn [fst snd].
  pose proof (store_length h gray drawn) as Hl.
  unfold load. rewrite app_nth2 by lia.
  rewrite Hl. replace (2 + length h - length h)%nat with 2%nat by lia.
  reflexivity.
Qed.

(** X15. With the default (inverse binary) thresholding and a level in
    [0, 255), the post-threshold image, which [get_needle_angle] returns as
    its third result, is background (0) wherever the outer mask is 255,
    whatever the frame holds there; where the mask is 0 it is 255 for frame
    pixels at or below the level and 0 above it, the frame being the one
    with the inner disc drawn in.  (Without [use_filter] this is the image
    the line detection reads; with it, the line detection reads a filtered
    copy.) *)
Theorem masked_pixels_are_background
    (cv : Capability) (h : Heap) (gray : ref)
    (x y r : R) (threshold : Z) (use_filter : bool) (blur_size : Z)
    (min_line_length : R) (threshold_mode : option ThresholdMode.t)
    (r_inner_min r_inner_max r_outer_min r_outer_max : R)
    (i j : nat) (p : Z) :
  (gray < length h)%nat ->
  threshold_mode = None \/ threshold_mode = Some ThresholdMode.binary ->
  (0 <= threshold < 255)%Z ->
  let result :=
    get_needle_angle cv h gray x y r threshold use_filter blur_size
      min_line_length threshold_mode
      r_inner_min r_inner_max r_outer_min r_outer_max in
  let after_threshold := load (snd result) (snd (fst result)) in
  let centre := (Py.int x, Py.int y) in
  let drawn :=
    circle cv (load h gray) centre (Py.int (r * r_inner_min)) 255 LINE_AA in
  let mask :=
    circle cv (ones_like_255 drawn) centre (Py.int (r * r_outer_max))
           0 LINE_8 in
  pixel drawn i j = Some p -> (0 <= p <= 255)%Z ->
  (pixel mask i j = Some 255%Z -> pixel after_threshold i j = Some 0%Z)
  /\ (pixel mask i j = Some 0%Z ->
      pixel after_threshold i j
      = Some (if (p >? threshold)%Z then 0%Z else 255%Z)).
Proof.
  intros Hg Hmode Ht result after_threshold centre drawn mask Hp Hbyte.
  assert (Himg : after_threshold
                 = THRESH_BINARY_INV threshold (bitwise_or drawn mask)).
  { unfold after_threshold, result. rewrite after_threshold_image by exact Hg.
    fold centre. fold drawn. fold mask.
    destruct Hmode as [-> | ->]; reflexivity. }
  rewrite Himg. unfold THRESH_BINARY_INV.
  rewrite pixel_map_pixels, pixel_bitwise_or, Hp.
  split; intros Hm; rewrite Hm; cbn [option_map].
  - rewrite lor_byte_255 by exact Hbyte.
    destruct (255 >? threshold)%Z eqn:E; [reflexivity | lia].
  - now rewrite Z.lor_0_r.
Qed.

Lemma masked_pixels_are_background_witness :
  let result :=
    get_needle_angle
      (Examples.scripted Examples.one_circle Examples.needle_down)
      [Examples.blank] 0%nat 1 1 10 175 false 5 10 None 0.15 0.6 0.65 0.1 in
  pixel (load (snd result) (snd (fst result))) 0 0 = Some 0%Z.
Proof.
  assert (Hg : (0 < length [Examples.blank])%nat) by (cbn; lia).
  assert (Hc : Py.int 1 = 1%Z) by (apply py_int_spec; lra).
  assert (Hr : Py.int (10 * 0.15) = 1%Z) by (apply py_int_spec; lra).
  assert (Ho : Py.int (10 * 0.1) = 1%Z) by (apply py_int_spec; lra).
  assert (Ht : (0 <= 175 < 255)%Z) by lia.
  assert (Hb : (0 <= 0 <= 255)%Z) by lia.
  assert (Hd : pixel (circle (Examples.scripted Examples.one_circle
                                Examples.needle_down)
                        (load [Examples.blank] 0%nat) (Py.int 1, Py.int 1)
                        (Py.int (10 * 0.15)) 255 LINE_AA) 0 0 = Some 0%Z)
    by (rewrite Hc, Hr; reflexivity).
  destruct (masked_pixels_are_background
              (Examples.scripted Examples.one_circle Examples.needle_down)
              [Examples.blank] 0%nat 1 1 10 175 false 5 10 None
              0.15 0.6 0.65 0.1 0%nat 0%nat 0%Z Hg (or_introl eq_refl) Ht
              Hd Hb)
    as [H _].
  apply H. rewrite Hc, Hr, Ho. reflexivity.
Defined.

(** ** What is drawn *)

Import Drawing.

Import DrawingStatements.

Lemma nth_error_linspace (start stop : R) (num : nat) (endpoint : bool)
    (i : nat) :
  (i < num)%nat ->
  nth_error (linspace start stop num endpoint) i
  = Some (let div := if endpoint then (num - 1)%nat else num in
          if (div =? 0)%nat then start
          else start + INR i * ((stop - start) / INR div)).
Proof.
  intros Hi. unfold linspace. rewrite nth_error_map.
  rewrite (nth_error_nth' _ 0%nat) by (now rewrite length_seq).
  rewrite seq_nth by assumption. reflexivity.
Qed.

Lemma linspace_length (start stop : R) (num : nat) (endpoint : bool) :
  length (linspace start stop num endpoint) = num.
Proof. unfold linspace. now rewrite length_map, length_seq. Qed.

Lemma tick_text (getTextSize : option R -> Z * Z) (x y r text_scale : R)
    (step_deg : R) (label : option R) :
  text (tick getTextSize x y r text_scale step_deg label) = label.
Proof.
  unfold tick. destruct (tick_points x y r step_deg) as [[p1 p2] p3].
  now destruct (getTextSize label).
Qed.

Lemma ticks_requested_nonzero (default : Z) (num : option Z) :
  (default <> 0)%Z -> (ticks_requested default num <> 0)%Z.
Proof.
  intros Hd. unfold ticks_requested. destruct num as [n |]; [| assumption].
  destruct (Z.eqb_spec n 0); assumption.
Qed.

Lemma draw_dial_num (default : Z) (num : option Z) :
  (if match num with None => true | Some n => (n =? 0)%Z end
   then default
   else match num with Some n => n | None => default end)
  = ticks_requested default num.
Proof.
  unfold ticks_requested. destruct num as [n |]; [| reflexivity].
  now destruct (n =? 0)%Z.
Qed.

(** X17. Without a scale ([min_value] absent, whatever the other three
    are), [draw_dial] with a non-negative [num] draws exactly the number of
    ticks asked for (36 when [num] is absent or zero); tick [i] is labelled
    with its angle in degrees, [360*i/n], which lies in [0, 360). *)
Theorem draw_dial_degree_ticks (getTextSize : option R -> Z * Z)
    (x y r text_scale : R) (num : option Z)
    (max_value min_angle max_angle : option R) :
  (0 <= ticks_requested 36 num)%Z ->
  let n := Z.to_nat (ticks_requested 36 num) in
  exists ticks,
    draw_dial getTextSize x y r text_scale num None max_value min_angle
              max_angle = Some ticks
    /\ length ticks = n
    /\ forall i, (i < n)%nat ->
         exists t,
           nth_error ticks i = Some t
           /\ text t = Some (360 * INR i / INR n)
           /\ 0 <= 360 * INR i / INR n < 360.
Proof.
  intros Hnum n. unfold draw_dial. rewrite draw_dial_num.
  destruct (Z.ltb_spec (ticks_requested 36 num) 0) as [Hlt | _]; [lia |].
  fold n. eexists. split; [reflexivity |]. split.
  - now rewrite length_map, linspace_length.
  - intros i Hi.
    assert (Hn : (n <> 0)%nat) by lia.
    assert (HnR : 0 < INR n) by (apply lt_0_INR; lia).
    assert (HiR : 0 <= INR i < INR n)
      by (split; [apply pos_INR | now apply lt_INR]).
    rewrite nth_error_map, nth_error_linspace by assumption.
    cbv beta iota zeta. cbn [option_map].
    destruct (Nat.eqb_spec n 0) as [| _]; [contradiction |].
    assert (Hstep : 0 + INR i * ((360 - 0) / INR n) = 360 * INR i / INR n)
      by (field; lra).
    rewrite Hstep. eexists. split; [reflexivity |].
    rewrite tick_text. split; [reflexivity |].
    split.
    + apply Rmult_le_pos; [nra |].
      apply Rlt_le, Rinv_0_lt_compat, HnR.
    + apply Rmult_lt_reg_r with (INR n); [exact HnR |].
      replace (360 * INR i / INR n * INR n) with (360 * INR i)
        by (field; lra).
      lra.
Qed.

Lemma draw_dial_degree_ticks_witness :
  (0 <= ticks_requested 36 None)%Z
  /\ exists ticks,
       draw_dial (fun _ => (0, 0)%Z) 320 240 100 0.3 None None None None None
       = Some ticks
       /\ length ticks = 36%nat
       /\ forall i, (i < 36)%nat ->
            exists t,
              nth_error ticks i = Some t
              /\ text t = Some (360 * INR i / INR 36)
              /\ 0 <= 360 * INR i / INR 36 < 360.
Proof.
  split; [cbn; lia |].
  apply (draw_dial_degree_ticks (fun _ => (0, 0)%Z) 320 240 100 0.3 None
                                None None None).
  cbn. lia.
Defined.

(** X18. With a scale whose angles differ, [draw_dial] asked for at least
    two ticks (21 when [num] is absent or zero) draws exactly that many;
    their labels are evenly spaced values, [min_value + i*(max_value -
    min_value)/(n-1)], so the first tick is labelled [min_value] and the
    last [max_value]. *)
Theorem draw_dial_scale_ticks (getTextSize : option R -> Z * Z)
    (x y r text_scale : R) (num : option Z)
    (min_value max_value min_angle max_angle : R) :
  max_angle <> min_angle ->
  (2 <= ticks_requested 21 num)%Z ->
  let n := Z.to_nat (ticks_requested 21 num) in
  exists ticks,
    draw_dial getTextSize x y r text_scale num (Some min_value)
              (Some max_value) (Some min_angle) (Some max_angle) = Some ticks
    /\ length ticks = n
    /\ (forall i, (i < n)%nat ->
          exists t,
            nth_error ticks i = Some t
            /\ text t
               = Some (min_value
                       + INR i * (max_value - min_value) / INR (n - 1)))
    /\ option_map text (nth_error ticks 0) = Some (Some min_value)
    /\ option_map text (nth_error ticks (n - 1)) = Some (Some max_value).
Proof.
  intros Hangle Hnum n. unfold draw_dial. rewrite draw_dial_num.
  destruct (Z.ltb_spec (ticks_requested 21 num) 0) as [Hlt | _]; [lia |].
  fold n. eexists. split; [reflexivity |].
  assert (Hn : (2 <= n)%nat) by lia.
  assert (HnR : 0 < INR (n - 1)) by (apply lt_0_INR; lia).
  assert (Hlabel : forall i, (i < n)%nat ->
            nth_error
              (map (fun step =>
                      tick getTextSize x y r text_scale step
                           (angle2value min_angle max_angle min_value
                                        max_value step))
                   (linspace min_angle max_angle n true)) i
            = Some (tick getTextSize x y r text_scale
                      (min_angle
                       + INR i * (max_angle - min_angle) / INR (n - 1))
                      (Some (min_value
                             + INR i * (max_value - min_value)
                               / INR (n - 1))))).
  { intros i Hi.
    rewrite nth_error_map, nth_error_linspace by assumption.
    cbv beta iota zeta. cbn [option_map].
    destruct (Nat.eqb_spec (n - 1) 0) as [| _]; [lia |].
    assert (Hstep : min_angle
                    + INR i * ((max_angle - min_angle) / INR (n - 1))
                    = min_angle
                      + INR i * (max_angle - min_angle) / INR (n - 1))
      by (field; lra).
    rewrite Hstep. do 2 f_equal. unfold angle2value.
    destruct (Req_dec_T (max_angle - min_angle) 0) as [| _]; [lra |].
    f_equal. field. split; lra. }
  split; [now rewrite length_map, linspace_length |]. split; [| split].
  - intros i Hi. rewrite (Hlabel i Hi). eexists. split; [reflexivity |].
    now rewrite tick_text.
  - rewrite Hlabel by lia. cbn [option_map]. rewrite tick_text.
    do 2 f_equal. cbn [INR]. field. lra.
  - rewrite Hlabel by lia. cbn [option_map]. rewrite tick_text.
    do 2 f_equal. field. lra.
Qed.

Lemma draw_dial_scale_ticks_witness :
  270 <> 0
  /\ (2 <= ticks_requested 21 None)%Z
  /\ exists ticks,
       draw_dial (fun _ => (0, 0)%Z) 320 240 100 0.3 None (Some 0)
                 (Some 10) (Some 0) (Some 270) = Some ticks
       /\ length ticks = 21%nat
       /\ (forall i, (i < 21)%nat ->
             exists t,
               nth_error ticks i = Some t
               /\ text t = Some (0 + INR i * (10 - 0) / INR (21 - 1)))
       /\ option_map text (nth_error ticks 0) = Some (Some 0)
       /\ option_map text (nth_error ticks (21 - 1)) = Some (Some 10).
Proof.
  split; [lra |]. split; [cbn; lia |].
  apply (draw_dial_scale_ticks (fun _ => (0, 0)%Z) 320 240 100 0.3 None
                               0 10 0 270); [lra | cbn; lia].
Defined.

(** ** The checks of the command line, and what they guard *)

(** X19. What the scale check of [__main__] is for.  A scale it accepts is
    drawn and converted alike: with no bound given, [draw_dial] as the loop
    calls it draws 36 ticks and the value is the angle in degrees; with all
    four given it draws 21 ticks and the value is [angle2value] of the
    angle.  A scale it rejects is never converted, the value being the
    angle in degrees; and when [min_value] is among the bounds given,
    [draw_dial] raises, otherwise it draws the 36 ticks of no scale. *)
Theorem scale_check_guards_loop (cfg : Config)
    (getTextSize : option R -> Z * Z) (x y r text_scale a : R) :
  let drawn :=
    draw_dial getTextSize x y r text_scale None
              (min_value cfg) (max_value cfg) (min_angle cfg) (max_angle cfg)
  in
  match CommandLine.scale_error (min_value cfg) (max_value cfg)
                                (min_angle cfg) (max_angle cfg),
        min_value cfg with
  | false, None =>
      (exists ticks, drawn = Some ticks /\ length ticks = 36%nat)
      /\ convert cfg a = Some (a * 180 / PI)
      /\ max_value cfg = None /\ min_angle cfg = None /\ max_angle cfg = None
  | false, Some v0 =>
      exists a0 a1 v1,
        min_angle cfg = Some a0 /\ max_angle cfg = Some a1
        /\ max_value cfg = Some v1
        /\ (exists ticks, drawn = Some ticks /\ length ticks = 21%nat)
        /\ convert cfg a = angle2value a0 a1 v0 v1 (a * 180 / PI)
  | true, None =>
      (exists ticks, drawn = Some ticks /\ length ticks = 36%nat)
      /\ convert cfg a = Some (a * 180 / PI)
  | true, Some _ =>
      drawn = None /\ convert cfg a = Some (a * 180 / PI)
  end.
Proof.
  unfold CommandLine.scale_error, convert, draw_dial.
  destruct (min_value cfg) as [v0 |], (max_value cfg) as [v1 |],
           (min_angle cfg) as [a0 |], (max_angle cfg) as [a1 |];
    cbn [forallb Acquisition.is_none negb andb orb];
    cbv beta iota zeta;
    repeat match goal with
           | |- _ /\ _ => split
           | |- exists ticks, _ = Some ticks /\ _ =>
               eexists; split; [reflexivity |];
               rewrite length_map, linspace_length; reflexivity
           | |- exists (_ : R), _ => eexists
           | |- _ = _ => reflexivity
           end.
Qed.

(** X20. Which source [get_image] reads.  The check of [__main__] rejects
    exactly the arguments for which [get_image] raises its first
    [RuntimeError].  [main] called with a URL and its default [cam_id]
    raises that error.  Any path prefixed with 'file://', in any case of
    the prefix letters, is read as that path; a URL whose lower-case form
    starts with 'http' is downloaded whole; a URL accepted by the check and
    starting with neither raises the second [RuntimeError]; and without a
    URL the camera is read. *)
Theorem get_image_source_selection
    (url : option String.string) (cam_id : option Z)
    (u path : String.string) (c : Z) :
  (CommandLine.source_error url cam_id = true
   <-> Acquisition.get_image url cam_id = Acquisition.EitherUrlOrCamera)
  /\ Acquisition.get_image (Some u) Acquisition.main_cam_id_default
     = Acquisition.EitherUrlOrCamera
  /\ Acquisition.get_image (Some (String.append "file://"%string path)) None
     = Acquisition.Files path
  /\ Acquisition.get_image (Some (String.append "FILE://"%string path)) None
     = Acquisition.Files path
  /\ (Acquisition.get_image (Some u) None = Acquisition.Download u
      <-> Str.startswith (Str.lower u) "http"%string = true)
  /\ (Acquisition.get_image (Some u) None = Acquisition.NotUnderstandable
      <-> Str.startswith (Str.lower u) "http"%string = false
          /\ Str.startswith (Str.lower u) "file://"%string = false)
  /\ Acquisition.get_image None (Some c) = Acquisition.Camera c.
Proof.
  assert (Hsome : forall v,
            Acquisition.get_image (Some v) None
            = if Str.startswith (Str.lower v) "http"%string
              then Acquisition.Download v
              else if Str.startswith (Str.lower v) "file://"%string
                   then Acquisition.Files (Str.drop 7 v)
                   else Acquisition.NotUnderstandable) by reflexivity.
  split; [| split; [| split; [| split; [| split; [| split]]]]].
  - unfold CommandLine.source_error, Acquisition.get_image.
    destruct url as [v |], cam_id as [k |];
      cbn [Acquisition.is_none negb andb orb];
      split; try reflexivity; try discriminate.
    destruct (Str.startswith (Str.lower v) "http"%string); [discriminate |].
    destruct (Str.startswith (Str.lower v) "file://"%string); discriminate.
  - reflexivity.
  - reflexivity.
  - reflexivity.
  - rewrite Hsome.
    destruct (Str.startswith (Str.lower u) "http"%string);
      [split; reflexivity |].
    destruct (Str.startswith (Str.lower u) "file://"%string);
      split; discriminate.
  - rewrite Hsome.
    destruct (Str.startswith (Str.lower u) "http"%string);
      [split; [discriminate | intros [? _]; discriminate] |].
    destruct (Str.startswith (Str.lower u) "file://"%string);
      [split; [discriminate | intros [_ ?]; discriminate] |].
    split; [now split | reflexivity].
  - reflexivity.
Qed.

(** ** Where a warning goes *)

Lemma send_warning_xmpp (level : Z)
    (sendxmpp : list String.string -> String.string
                -> String.string * String.string)
    (msg : String.string) (no_send : bool)
    (xmpp_recipients : option (list String.string))
    (recipients : list String.string) (input : String.string) :
  In (Warnings.Sendxmpp recipients input)
     (Warnings.send_warning level sendxmpp msg no_send xmpp_recipients)
  <-> no_send = false /\ xmpp_recipients = Some recipients
      /\ recipients <> [] /\ input = msg.
Proof.
  unfold Warnings.send_warning. rewrite in_app_iff.
  assert (Hlocal : ~ In (Warnings.Sendxmpp recipients input)
                        (if (level >? Warnings.WARNING)%Z
                         then [Warnings.Stderr msg]
                         else [Warnings.LoggerWarning msg])).
  { destruct (level >? Warnings.WARNING)%Z; intros [H | []]; discriminate. }
  assert (Hforward : forall stdout_data stderr_data,
            ~ In (Warnings.Sendxmpp recipients input)
                 (if (level >? Warnings.WARNING)%Z
                  then [Warnings.Stderr stdout_data;
                        Warnings.Stderr stderr_data]
                  else (if Warnings.nonempty stdout_data
                        then [Warnings.LoggerWarning stdout_data] else [])
                       ++ (if Warnings.nonempty stderr_data
                           then [Warnings.LoggerWarning stderr_data]
                           else []))).
  { intros stdout_data stderr_data.
    destruct (level >? Warnings.WARNING)%Z,
             (Warnings.nonempty stdout_data),
             (Warnings.nonempty stderr_data);
      cbn [app In]; intuition discriminate. }
  split.
  - intros [H | H]; [contradiction |].
    destruct xmpp_recipients as [rs |]; [| destruct H].
    destruct no_send; cbn [negb andb] in H; [destruct H |].
    destruct rs as [| r0 rs]; [destruct H |].
    cbn [length Nat.ltb Nat.leb] in H.
    destruct (sendxmpp (r0 :: rs) msg) as [stdout_data stderr_data].
    destruct H as [H | H]; [| now apply Hforward in H].
    injection H as <- <-. repeat split; try reflexivity. discriminate.
  - intros (-> & -> & Hne & ->). right.
    destruct recipients as [| r0 rs]; [contradiction |].
    cbn [negb andb length Nat.ltb Nat.leb].
    destruct (sendxmpp (r0 :: rs) msg) as [stdout_data stderr_data].
    now left.
Qed.

(** X21. Every warning is reported locally first, on the standard error
    when the logger's level is above WARNING and through the logger
    otherwise.  It is handed to [sendxmpp] exactly when [no_send] is off and
    there is at least one recipient, with the message as input.  So the
    silence alert of [main], sent with the defaults, never leaves by XMPP,
    whatever recipients are configured; the out-of-range alert leaves
    exactly when [no_warnings] is off and a recipient is given; and the test
    warning leaves whenever a recipient is given, [no_warnings] or not. *)
Theorem send_warning_delivery (level : Z)
    (sendxmpp : list String.string -> String.string
                -> String.string * String.string)
    (msg : String.string) (no_send : bool)
    (xmpp_recipients : option (list String.string))
    (recipients : list String.string) (input : String.string) :
  hd_error (Warnings.send_warning level sendxmpp msg no_send xmpp_recipients)
  = Some (if (level >? 30)%Z then Warnings.Stderr msg
          else Warnings.LoggerWarning msg)
  /\ (In (Warnings.Sendxmpp recipients input)
         (Warnings.send_warning level sendxmpp msg no_send xmpp_recipients)
      <-> no_send = false /\ xmpp_recipients = Some recipients
          /\ recipients <> [] /\ input = msg)
  /\ ~ In (Warnings.Sendxmpp recipients input)
          (Warnings.no_measurement_call level sendxmpp msg)
  /\ (In (Warnings.Sendxmpp recipients input)
         (Warnings.out_of_range_call level sendxmpp msg no_send
                                     xmpp_recipients)
      <-> no_send = false /\ xmpp_recipients = Some recipients
          /\ recipients <> [] /\ input = msg)
  /\ (In (Warnings.Sendxmpp recipients input)
         (Warnings.test_warning_call level sendxmpp msg xmpp_recipients)
      <-> xmpp_recipients = Some recipients
          /\ recipients <> [] /\ input = msg).
Proof.
  split; [| split; [| split; [| split]]].
  - unfold Warnings.send_warning.
    change Warnings.WARNING with 30%Z.
    now destruct (level >? 30)%Z.
  - apply send_warning_xmpp.
  - unfold Warnings.no_measurement_call. rewrite send_warning_xmpp.
    intros (_ & H & _). discriminate.
  - unfold Warnings.out_of_range_call. apply send_warning_xmpp.
  - unfold Warnings.test_warning_call. rewrite send_warning_xmpp.
    split; [intros (_ & H); exact H | intros H; split; [reflexivity | exact H]].
Qed.

(** ** The debug viewer *)

Import HttpServer HttpStatements.

(** Settles the tests on the path [p] of a request, one after the other. *)
Ltac path_cases p :=
  repeat match goal with
         | |- context [String.eqb p ?q] =>
             let E := fresh "E" in
             destruct (String.eqb p q) eqn:E;
             [apply String.eqb_eq in E; subst p; cbn |];
             cbn [orb andb negb]
         | |- context [Str.startswith p ?q] =>
             let E := fresh "E" in
             destruct (Str.startswith p q) eqn:E; cbn [orb andb negb]
         | |- context [String.eqb (Str.last ?n p) ?q] =>
             let E := fresh "E" in
             destruct (String.eqb (Str.last n p) q) eqn:E;
             cbn [orb andb negb]
         end.

Lemma result_not_debug (p : String.string) :
  Str.startswith p "/result.jpg#"%string = true ->
  Str.startswith p "/debug/"%string = true -> False.
Proof.
  destruct p as [| c1 [| c2 p]]; cbn; try discriminate.
  - destruct (Ascii.eqb c1 _); discriminate.
  - destruct (Ascii.eqb c1 _); [| discriminate]. cbn [andb].
    match goal with
    | |- context [Ascii.eqb c2 ?a] =>
        destruct (Ascii.eqb_spec c2 a) as [-> |]; [| discriminate]
    end.
    discriminate.
Qed.

(** X22. Who may change what the viewer shows.  A POST from another host
    is answered 403 and changes nothing; a POST from the local host is
    answered 200 and never touches the debug timer.  A GET or HEAD never
    changes the data, the time, the image or the debug images: all it may
    do is set the debug timer to the clock, which it does exactly when it
    asks for the debug page or one of its images. *)
Theorem viewer_access_control (utf8 : bytes -> bool)
    (pickle_loads : bytes -> option (list (String.string * bytes)))
    (now : R) (req : Request) (sd : ServerData) :
  let '(resp, sd') := handle utf8 pickle_loads now req sd in
  match command req with
  | POST =>
      last_time_debug_was_requested sd' = last_time_debug_was_requested sd
      /\ if is_localhost req then status resp = 200%Z
         else status resp = 403%Z /\ sd' = sd
  | _ =>
      data sd' = data sd /\ time sd' = time sd /\ img sd' = img sd
      /\ debug_jpgs sd' = debug_jpgs sd
      /\ last_time_debug_was_requested sd'
         = if asks_for_debug req then Some now
           else last_time_debug_was_requested sd
  end.
Proof.
  destruct req as [cmd p addr body]. unfold handle, asks_for_debug.
  cbn [command path]. destruct cmd.
  - unfold do_GET. cbn [path]. path_cases p;
      repeat match goal with
             | |- context [match ?o with Some _ => _ | None => _ end] =>
                 destruct o eqn:?
             end;
      cbn; repeat split;
      try congruence; exfalso; eapply result_not_debug; eassumption.
  - unfold do_POST. cbn [path content].
    destruct (is_localhost _); cbn [negb].
    + destruct body as [post_body |]; [| now split].
      path_cases p;
        repeat match goal with
               | |- context [if utf8 ?b then _ else _] => destruct (utf8 b)
               | |- context [match pickle_loads ?b with _ => _ end] =>
                   destruct (pickle_loads b)
               end;
        now split.
    + now repeat split.
  - now repeat split.
Qed.

Lemma handle_last_time (utf8 : bytes -> bool)
    (pickle_loads : bytes -> option (list (String.string * bytes)))
    (now : R) (req : Request) (sd : ServerData) :
  last_time_debug_was_requested (snd (handle utf8 pickle_loads now req sd))
  = if asks_for_debug req then Some now
    else last_time_debug_was_requested sd.
Proof.
  destruct req as [cmd p addr body]. unfold handle, asks_for_debug.
  cbn [command path]. destruct cmd.
  - unfold do_GET. cbn [path]. path_cases p;
      repeat match goal with
             | |- context [match ?o with Some _ => _ | None => _ end] =>
                 destruct o eqn:?
             end;
      cbn; try congruence; exfalso; eapply result_not_debug; eassumption.
  - unfold do_POST. cbn [path content].
    destruct (is_localhost _); cbn [negb]; [| reflexivity].
    destruct body as [post_body |]; [| reflexivity].
    path_cases p;
      repeat match goal with
             | |- context [if utf8 ?b then _ else _] => destruct (utf8 b)
             | |- context [match pickle_loads ?b with _ => _ end] =>
                 destruct (pickle_loads b)
             end;
      reflexivity.
  - reflexivity.
Qed.

Lemma handle_keeps_data (utf8 : bytes -> bool)
    (pickle_loads : bytes -> option (list (String.string * bytes)))
    (now : R) (req : Request) (sd : ServerData) :
  writes "/data"%string req = false ->
  data (snd (handle utf8 pickle_loads now req sd)) = data sd.
Proof.
  destruct req as [cmd p addr body]. unfold handle, writes.
  cbn [command path]. destruct cmd.
  - intros _. unfold do_GET. cbn [path]. path_cases p;
      repeat match goal with
             | |- context [match ?o with Some _ => _ | None => _ end] =>
                 destruct o eqn:?
             end;
      cbn; congruence.
  - unfold do_POST. cbn [path content].
    destruct (is_localhost _); cbn [negb andb]; [| reflexivity].
    destruct body as [post_body |]; [| reflexivity].
    path_cases p; try discriminate; intros _;
      repeat match goal with
             | |- context [if utf8 ?b then _ else _] => destruct (utf8 b)
             | |- context [match pickle_loads ?b with _ => _ end] =>
                 destruct (pickle_loads b)
             end;
      reflexivity.
  - reflexivity.
Qed.

Lemma handle_keeps_img (utf8 : bytes -> bool)
    (pickle_loads : bytes -> option (list (String.string * bytes)))
    (now : R) (req : Request) (sd : ServerData) :
  writes "/img"%string req = false ->
  img (snd (handle utf8 pickle_loads now req sd)) = img sd.
Proof.
  destruct req as [cmd p addr body]. unfold handle, writes.
  cbn [command path]. destruct cmd.
  - intros _. unfold do_GET. cbn [path]. path_cases p;
      repeat match goal with
             | |- context [match ?o with Some _ => _ | None => _ end] =>
                 destruct o eqn:?
             end;
      cbn; congruence.
  - unfold do_POST. cbn [path content].
    destruct (is_localhost _); cbn [negb andb]; [| reflexivity].
    destruct body as [post_body |]; [| reflexivity].
    path_cases p; try discriminate; intros _;
      repeat match goal with
             | |- context [if utf8 ?b then _ else _] => destruct (utf8 b)
             | |- context [match pickle_loads ?b with _ => _ end] =>
                 destruct (pickle_loads b)
             end;
      reflexivity.
  - reflexivity.
Qed.

Lemma serve_keeps (utf8 : bytes -> bool)
    (pickle_loads : bytes -> option (list (String.string * bytes)))
    (reqs : list (R * Request)) (sd : ServerData) :
  forallb (fun r => negb (writes "/data"%string (snd r))
                    && negb (writes "/img"%string (snd r))) reqs = true ->
  data (serve utf8 pickle_loads reqs sd) = data sd
  /\ img (serve utf8 pickle_loads reqs sd) = img sd.
Proof.
  revert sd. induction reqs as [| [now req] reqs IH]; intros sd H.
  - now split.
  - cbn [forallb snd] in H. apply andb_prop in H as [Hreq H].
    apply andb_prop in Hreq as [Hd Hi].
    apply negb_true_iff in Hd. apply negb_true_iff in Hi.
    cbn [serve].
    destruct (IH (snd (handle utf8 pickle_loads now req sd)) H)
      as [IHd IHi].
    rewrite IHd, IHi. split.
    + now apply handle_keeps_data.
    + now apply handle_keeps_img.
Qed.

(** X23. What is posted is what is served.  After the local host has
    posted a decodable text to /data, GET /data answers 200 text/plain with
    exactly those bytes, and after it has posted an image to /img, GET
    /result.jpg answers 200 image/jpeg with exactly that image, whatever
    requests come in between that are no local POST to the same path.
    Until something is posted, GET /data answers with the waiting page and
    GET /result.jpg with 503. *)
Theorem posted_is_served (utf8 : bytes -> bool)
    (pickle_loads : bytes -> option (list (String.string * bytes)))
    (reqs : list (R * Request)) (sd : ServerData) (b : bytes)
    (t0 now : R) :
  utf8 b = true ->
  forallb (fun r => negb (writes "/data"%string (snd r))
                    && negb (writes "/img"%string (snd r))) reqs = true ->
  fst (handle utf8 pickle_loads now (get "/data"%string)
         (serve utf8 pickle_loads ((t0, local_post "/data"%string b) :: reqs) sd))
  = ok "text/plain"%string (Raw b)
  /\ fst (handle utf8 pickle_loads now (get "/result.jpg"%string)
            (serve utf8 pickle_loads ((t0, local_post "/img"%string b) :: reqs) sd))
     = ok "image/jpeg"%string (Raw b)
  /\ fst (handle utf8 pickle_loads now (get "/data"%string)
            (serve utf8 pickle_loads reqs empty))
     = ok "text/html"%string WaitingForData
  /\ status (fst (handle utf8 pickle_loads now (get "/result.jpg"%string)
                    (serve utf8 pickle_loads reqs empty)))
     = 503%Z.
Proof.
  intros Hutf8 Hreqs.
  assert (Hdata : forall sd0,
            fst (handle utf8 pickle_loads now (get "/data"%string) sd0)
            = match data sd0 with
              | Some d => ok "text/plain"%string (Raw d)
              | None => ok "text/html"%string WaitingForData
              end).
  { intros sd0. unfold handle, get, do_GET. cbn.
    now destruct (data sd0). }
  assert (Himg : forall sd0,
            fst (handle utf8 pickle_loads now (get "/result.jpg"%string) sd0)
            = match img sd0 with
              | Some d => ok "image/jpeg"%string (Raw d)
              | None =>
                  {| status := 503;
                     content_type := Some "text/html;charset=utf-8"%string;
                     headers_ended := true; payload := ErrorPage |}
              end).
  { intros sd0. unfold handle, get, do_GET. cbn.
    now destruct (img sd0). }
  split; [| split; [| split]].
  - rewrite Hdata. cbn [serve].
    destruct (serve_keeps utf8 pickle_loads reqs
                (snd (handle utf8 pickle_loads t0
                        (local_post "/data"%string b) sd)) Hreqs) as [-> _].
    unfold handle, local_post, do_POST. cbn. now rewrite Hutf8.
  - rewrite Himg. cbn [serve].
    destruct (serve_keeps utf8 pickle_loads reqs
                (snd (handle utf8 pickle_loads t0
                        (local_post "/img"%string b) sd)) Hreqs) as [_ ->].
    reflexivity.
  - rewrite Hdata.
    now destruct (serve_keeps utf8 pickle_loads reqs empty Hreqs) as [-> _].
  - rewrite Himg.
    now destruct (serve_keeps utf8 pickle_loads reqs empty Hreqs) as [_ ->].
Qed.

Lemma posted_is_served_witness :
  let utf8 := fun _ : bytes => true in
  let pickle_loads := fun _ : bytes =>
                        @None (list (String.string * bytes)) in
  let reqs := [(1, get "/debug"%string)] in
  fst (handle utf8 pickle_loads 2 (get "/data"%string)
         (serve utf8 pickle_loads
                ((0, local_post "/data"%string "x"%string) :: reqs) empty))
  = ok "text/plain"%string (Raw "x"%string)
  /\ fst (handle utf8 pickle_loads 2 (get "/result.jpg"%string)
            (serve utf8 pickle_loads
                   ((0, local_post "/img"%string "x"%string) :: reqs) empty))
     = ok "image/jpeg"%string (Raw "x"%string)
  /\ fst (handle utf8 pickle_loads 2 (get "/data"%string)
            (serve utf8 pickle_loads reqs empty))
     = ok "text/html"%string WaitingForData
  /\ status (fst (handle utf8 pickle_loads 2 (get "/result.jpg"%string)
                    (serve utf8 pickle_loads reqs empty)))
     = 503%Z.
Proof.
  intros utf8 pickle_loads reqs.
  apply (posted_is_served utf8 pickle_loads reqs empty "x"%string 0 2);
    reflexivity.
Defined.

Lemma serve_last_time (utf8 : bytes -> bool)
    (pickle_loads : bytes -> option (list (String.string * bytes)))
    (reqs : list (R * Request)) (sd : ServerData) :
  match last_time_debug_was_requested (serve utf8 pickle_loads reqs sd) with
  | Some t => t
  | None => 0
  end
  = last_debug reqs match last_time_debug_was_requested sd with
                    | Some t => t
                    | None => 0
                    end.
Proof.
  revert sd. induction reqs as [| [now req] reqs IH]; intros sd.
  - reflexivity.
  - cbn [serve last_debug]. rewrite IH, handle_last_time.
    now destruct (asks_for_debug req).
Qed.

(** X24. The debug flag is a ten-second window.  After any run of
    requests, GET /is_debug answers '1' exactly when the clock is less than
    ten seconds past the last request of the run that asked for the debug
    page or one of its images (past the timer the run started with when
    there was none, past 0 on a fresh server), and '0' otherwise.  [main]
    reads the answer as such a flag. *)
Theorem is_debug_window (utf8 : bytes -> bool)
    (pickle_loads : bytes -> option (list (String.string * bytes)))
    (reqs : list (R * Request)) (sd : ServerData) (now : R) :
  let last := last_debug reqs match last_time_debug_was_requested sd with
                              | Some t => t
                              | None => 0
                              end in
  let resp := fst (handle utf8 pickle_loads now (get "/is_debug"%string)
                     (serve utf8 pickle_loads reqs sd)) in
  resp = ok "text/plain"%string
            (Raw (if Rlt_dec now (last + 10) then "1"%string
                  else "0"%string))
  /\ is_debug resp = Some (if Rlt_dec now (last + 10) then true else false).
Proof.
  cbv zeta. rewrite <- (serve_last_time utf8 pickle_loads reqs sd).
  assert (Hresp : fst (handle utf8 pickle_loads now (get "/is_debug"%string)
                         (serve utf8 pickle_loads reqs sd))
                  = ok "text/plain"%string
                       (Raw (if Rlt_dec now
                                  (match last_time_debug_was_requested
                                           (serve utf8 pickle_loads reqs sd)
                                   with
                                   | Some t => t
                                   | None => 0
                                   end + 10)
                             then "1"%string else "0"%string)))
    by reflexivity.
  split; [exact Hresp |].
  rewrite Hresp. unfold is_debug, ok. cbn [payload].
  now destruct (Rlt_dec now _).
Qed.

(** ** Debug images by name *)

Lemma str_length_append (a b : String.string) :
  String.length (String.append a b)
  = (String.length a + String.length b)%nat.
Proof. induction a as [| c a IH]; cbn; [reflexivity | now rewrite IH]. Qed.

Lemma drop_length_append (a b : String.string) :
  Str.drop (String.length a) (String.append a b) = b.
Proof. induction a as [| c a IH]; cbn; [reflexivity | exact IH]. Qed.

Lemma take_length_append (a b : String.string) :
  Str.take (String.length a) (String.append a b) = a.
Proof.
  induction a as [| c a IH]; cbn.
  - now destruct b.
  - now rewrite IH.
Qed.

Lemma debug_path (name : String.string) :
  let p := String.append "/debug/" (String.append name ".jpg") in
  Str.startswith p "/debug/"%string = true
  /\ Str.last 4 p = ".jpg"%string
  /\ Str.slice 7 4 p = name.
Proof.
  cbv zeta. split; [reflexivity |]. split.
  - unfold Str.last.
    replace (String.length
               (String.append "/debug/" (String.append name ".jpg")) - 4)%nat
      with (7 + String.length name)%nat
      by (cbn [String.append String.length]; rewrite str_length_append;
          cbn [String.length]; lia).
    cbn [String.append Nat.add Str.drop]. apply drop_length_append.
  - unfold Str.slice.
    replace (String.length
               (String.append "/debug/" (String.append name ".jpg")) - 4 - 7)
            %nat
      with (String.length name)
      by (cbn [String.append String.length]; rewrite str_length_append;
          cbn [String.length]; lia).
    cbn [String.append Str.drop]. apply take_length_append.
Qed.

(** X25. Debug images are served by name.  Once debug images are posted,
    GET /debug/NAME.jpg, for any name, answers 200 image/jpeg with the
    image posted under that name; for a name that was not posted it
    answers 503 with the list of the names that were, without ending the
    headers.  Either way the request restarts the debug timer. *)
Theorem debug_image_by_name (now : R) (name : String.string)
    (sd : ServerData) (d : list (String.string * bytes)) :
  debug_jpgs sd = Some d ->
  let '(resp, sd') :=
    do_GET now (get (String.append "/debug/" (String.append name ".jpg")))
           sd in
  last_time_debug_was_requested sd' = Some now
  /\ resp = match lookup name d with
            | Some b => ok "image/jpeg"%string (Raw b)
            | None =>
                {| status := 503; content_type := Some "text/html"%string;
                   headers_ended := false;
                   payload := AvailableDebugImages (map fst d) |}
            end.
Proof.
  intros Hd. destruct (debug_path name) as (Hstart & Hlast & Hslice).
  cbv zeta in Hstart, Hlast, Hslice.
  unfold do_GET, get. cbn [path].
  set (p := String.append "/debug/" (String.append name ".jpg")) in *.
  assert (E1 : String.eqb p "/" = false) by reflexivity.
  assert (E2 : String.eqb p "/data" = false) by reflexivity.
  assert (E3 : String.eqb p "/result.jpg" = false) by reflexivity.
  assert (E4 : Str.startswith p "/result.jpg#"%string = false)
    by reflexivity.
  rewrite E1, E2, E3, E4, Hstart, Hlast, Hslice.
  cbn [orb andb String.eqb Ascii.eqb Bool.eqb].
  cbn [set_last_time debug_jpgs]. rewrite Hd.
  destruct (lookup name d); now split.
Qed.

Lemma debug_image_by_name_witness :
  let sd := set_debug_jpgs [("raw"%string, "x"%string)] empty in
  let '(resp, sd') := do_GET 5 (get "/debug/raw.jpg"%string) sd in
  last_time_debug_was_requested sd' = Some 5
  /\ resp = ok "image/jpeg"%string (Raw "x"%string).
Proof.
  exact (debug_image_by_name 5 "raw"%string
           (set_debug_jpgs [("raw"%string, "x"%string)] empty)
           [("raw"%string, "x"%string)] eq_refl).
Defined.

(** ** Alerts are rate limited *)

Lemma alerts_silent (cfg : Config) (st : State) (w : World)
    (r : option State) (w' : World) :
  clock w' = clock w -> (ticks w <= ticks w')%nat -> sent w' = sent w ->
  (forall st', r = Some st' -> last_warn_time st' = last_warn_time st) ->
  at_most_one_alert cfg st w r w'.
Proof.
  intros Hc Ht Hs Hl. repeat split; try assumption.
  - left. now split.
  - intros _. exact Hs.
Qed.

Lemma alerts_rebase (cfg : Config) (st st0 : State) (w w0 : World)
    (r : option State) (w' : World) :
  last_warn_time st0 = last_warn_time st -> clock w0 = clock w ->
  sent w0 = sent w -> (ticks w <= ticks w0)%nat ->
  at_most_one_alert cfg st0 w0 r w' -> at_most_one_alert cfg st w r w'.
Proof.
  intros Hl Hc Hs Ht (Hc' & Ht' & Hcase & Hq).
  split; [congruence |]. split; [lia |]. split.
  - destruct Hcase as [[Hs' Hl'] | [[a Ha] Hq']].
    + left. split; [congruence |]. intros st' Hr. rewrite <- Hl. now apply Hl'.
    + right. split; [exists a; congruence | exact Hq'].
  - intros Hquiet. rewrite <- Hs. apply Hq.
    intros k Hk. rewrite Hc, Hl. apply Hquiet. lia.
Qed.

Lemma alerts_compose (cfg : Config) (st st1 : State) (w w1 : World)
    (r : option State) (w2 : World) :
  at_most_one_alert cfg st w (Some st1) w1 ->
  at_most_one_alert cfg st1 w1 r w2 ->
  at_most_one_alert cfg st w r w2.
Proof.
  intros (Hc1 & Ht1 & Hcase1 & Hq1) (Hc2 & Ht2 & Hcase2 & Hq2).
  split; [congruence |]. split; [lia |].
  assert (Hkeep : last_warn_time st1 = last_warn_time st ->
                  quiet cfg st w -> quiet cfg st1 w1).
  { intros Hl Hquiet k Hk. rewrite Hc1, Hl. apply Hquiet. lia. }
  destruct Hcase1 as [[Hs1 Hl1] | [[a Ha] Hquiet1]].
  - specialize (Hl1 st1 eq_refl). split.
    + destruct Hcase2 as [[Hs2 Hl2] | [[a Ha] Hquiet2]].
      * left. split; [congruence |].
        intros st' Hr. rewrite <- Hl1. now apply Hl2.
      * right. split; [exists a; congruence | exact Hquiet2].
    + intros Hquiet. rewrite <- Hs1. apply Hq2. now apply Hkeep.
  - specialize (Hquiet1 st1 eq_refl). pose proof (Hq2 Hquiet1) as Hs2.
    split.
    + right. split; [exists a; congruence |].
      intros st' Hr.
      destruct Hcase2 as [[_ Hl2] | [[b Hb] _]].
      * intros k Hk. rewrite Hc2, (Hl2 st' Hr). apply Hquiet1. lia.
      * rewrite Hs2 in Hb. symmetry in Hb. now apply snoc_neq in Hb.
    + intros Hquiet. apply Hq1 in Hquiet. rewrite Hquiet in Ha.
      symmetry in Ha. now apply snoc_neq in Ha.
Qed.

Lemma within_interval_later (cfg : Config) (w w' : World) :
  clock w' = clock w -> (ticks w <= ticks w')%nat ->
  within_interval cfg w -> within_interval cfg w'.
Proof. intros Hc Ht H i j Hij. rewrite Hc. apply H. lia. Qed.

Lemma process_value_alerts (cfg : Config) (value : R) (st : State)
    (w : World) :
  within_interval cfg w ->
  at_most_one_alert cfg st w (fst (process_value cfg value st w))
                    (snd (process_value cfg value st w)).
Proof.
  intros Hspan.
  destruct (Py.trim (median_filter_value_N cfg) (values_lst st ++ [value]))
    as [lst |] eqn:Etrim.
  - destruct (process_value_run cfg value st w lst Etrim)
      as (st' & w' & k & Hrun & Hc & Ht & Hk & _ & _ & _ & _ & Hif).
    rewrite Hrun. cbn [fst snd].
    split; [exact Hc |]. split; [lia |].
    destruct (alert_due cfg st lst (clock w (ticks w))) eqn:Edue.
    + destruct Hif as (m & _ & Hs & Hl). split.
      * right. split; [now exists (OutOfRange m) |].
        intros st'' [= <-] j Hj. rewrite Hc, Hl. apply Hspan. lia.
      * intros Hquiet. exfalso.
        unfold alert_due in Edue. apply andb_prop in Edue as [Edue _].
        apply andb_prop in Edue as [_ Edue]. apply Rltb_true in Edue.
        specialize (Hquiet (ticks w) (Nat.le_refl _)). lra.
    + destruct Hif as [Hs Hl]. split.
      * left. split; [exact Hs |]. now intros st'' [= <-].
      * intros _. exact Hs.
  - unfold process_value. rewrite Etrim. cbn [fst snd].
    apply alerts_silent; try reflexivity. discriminate.
Qed.

Lemma watchdog_alerts (cfg : Config) (st : State) (w : World) :
  within_interval cfg w ->
  at_most_one_alert cfg st w (Some (fst (watchdog cfg st w)))
                    (snd (watchdog cfg st w)).
Proof.
  intros Hspan.
  destruct (watchdog_cases cfg st w)
    as (st' & w' & Hrun & Hc & Ht & _ & _ & Hif).
  rewrite Hrun. cbn [fst snd].
  split; [exact Hc |]. split; [lia |].
  destruct (Rltb (last_successful_detection_time st
                  + warn_no_detections_s cfg) (clock w (ticks w))
            && Rltb (last_warn_time st + warn_interval cfg)
                    (clock w (S (ticks w)))) eqn:Edue.
  - destruct Hif as (Hs & Hl & Ht'). split.
    + right. split; [eexists; exact Hs |].
      intros st'' [= <-] j Hj. rewrite Hc, Hl. apply Hspan. lia.
    + intros Hquiet. exfalso.
      apply andb_prop in Edue as [_ Edue]. apply Rltb_true in Edue.
      specialize (Hquiet (S (ticks w)) (Nat.le_succ_diag_r _)). lra.
  - destruct Hif as [Hs Hl]. split.
    + left. split; [exact Hs |]. now intros st'' [= <-].
    + intros _. exact Hs.
Qed.

Lemma iteration_alerts (cfg : Config) (cv : Capability) (gray : Image)
    (st : State) (w : World) :
  within_interval cfg w ->
  at_most_one_alert cfg st w (fst (iteration cfg cv gray st w))
                    (snd (iteration cfg cv gray st w)).
Proof.
  intros Hspan. rewrite iteration_unfold.
  destruct (rate_limit_run cfg st w) as (w1 & Hrl & Hc1 & Hs1 & Ht1).
  rewrite Hrl. cbn [snd]. cbn zeta.
  set (w2 := {| clock := clock w1; ticks := S (ticks w1); sent := sent w1 |}).
  set (st1 := set_loop_start_time _ st).
  assert (Hc2 : clock w2 = clock w) by exact Hc1.
  assert (Hs2 : sent w2 = sent w) by exact Hs1.
  assert (Ht2 : (ticks w <= ticks w2)%nat) by (cbn; lia).
  assert (Hspan2 : within_interval cfg w2)
    by now apply (within_interval_later cfg w w2).
  destruct (measure cfg cv gray (calibration_lst st)) as [v lst | e lst | |].
  - set (st2 := set_calibration_lst lst st1).
    pose proof (process_value_alerts cfg v st2 w2 Hspan2) as Hp.
    destruct (process_value cfg v st2 w2) as [[st3 |] w3] eqn:Ep;
      cbn [fst snd] in Hp.
    + pose proof Hp as (Hc3 & Ht3 & _).
      assert (Hspan3 : within_interval cfg w3)
        by now apply (within_interval_later cfg w2 w3).
      pose proof (watchdog_alerts cfg st3 w3 Hspan3) as Hw.
      destruct (watchdog cfg st3 w3) as [st4 w4]. cbn [fst snd] in *.
      apply (alerts_rebase cfg st st2 w w2); try assumption; [reflexivity |].
      now apply (alerts_compose cfg st2 st3 w2 w3).
    + cbn [fst snd].
      apply (alerts_rebase cfg st st2 w w2); try assumption. reflexivity.
  - set (st3 := set_debug_export_number _ _).
    pose proof (watchdog_alerts cfg st3 w2 Hspan2) as Hw.
    destruct (watchdog cfg st3 w2) as [st4 w4]. cbn [fst snd] in *.
    apply (alerts_rebase cfg st st3 w w2); try assumption. reflexivity.
  - cbn [fst snd]. apply alerts_silent; try assumption. discriminate.
  - cbn [fst snd]. apply alerts_silent; try assumption. discriminate.
Qed.

Lemma loop_alerts (cfg : Config) (cv : Capability) (frames : list Image) :
  forall st w,
    within_interval cfg w ->
    at_most_one_alert cfg st w (fst (loop cfg cv frames st w))
                      (snd (loop cfg cv frames st w)).
Proof.
  induction frames as [| gray rest IH]; intros st w Hspan.
  - cbn. apply alerts_silent; try reflexivity. now intros st' [= <-].
  - cbn [loop]. unfold bind.
    pose proof (iteration_alerts cfg cv gray st w Hspan) as Hi.
    destruct (iteration cfg cv gray st w) as [[st1 |] w1];
      cbn [fst snd] in Hi; [| exact Hi].
    apply (alerts_compose cfg st st1 w w1); [exact Hi |].
    apply IH. destruct Hi as (Hc & Ht & _).
    now apply (within_interval_later cfg w w1).
Qed.

(** X26. Alerts are rate limited, whatever their kind.  Over any run of
    frames during which no clock reading is more than [warn_interval] after
    an earlier one, the loop, from any state, sends at most one alert,
    whether out-of-range or no-measurement and whatever the frames hold;
    from a state whose last alert is less than [warn_interval] before every
    reading it sends none.  The same holds for [main] from its start. *)
Theorem alerts_rate_limited (cfg : Config) (cv : Capability)
    (frames : list Image) (st : State) (w : World) :
  within_interval cfg w ->
  (exists extra,
     sent (snd (loop cfg cv frames st w)) = sent w ++ extra
     /\ (length extra <= 1)%nat)
  /\ (quiet cfg st w -> sent (snd (loop cfg cv frames st w)) = sent w)
  /\ (exists extra,
        sent (snd (main cfg cv frames w)) = sent w ++ extra
        /\ (length extra <= 1)%nat).
Proof.
  intros Hspan.
  assert (Hcount : forall st0 w0 r w',
            at_most_one_alert cfg st0 w0 r w' ->
            exists extra, sent w' = sent w0 ++ extra
                          /\ (length extra <= 1)%nat).
  { intros st0 w0 r w' (_ & _ & [[Hs _] | [[a Ha] _]] & _).
    - exists []. rewrite app_nil_r. split; [exact Hs | cbn; lia].
    - exists [a]. split; [exact Ha | cbn; lia]. }
  split; [| split].
  - apply (Hcount st w (fst (loop cfg cv frames st w))).
    now apply loop_alerts.
  - intros Hquiet.
    destruct (loop_alerts cfg cv frames st w Hspan) as (_ & _ & _ & Hq).
    now apply Hq.
  - unfold main, init. unfold bind at 1 2 3. unfold time_time, ret.
    cbn [clock ticks sent].
    match goal with
    | |- context [loop cfg cv frames ?st0 ?w0] =>
        destruct (Hcount st0 w0 (fst (loop cfg cv frames st0 w0))
                         (snd (loop cfg cv frames st0 w0)))
          as (extra & He & Hl);
        [apply loop_alerts;
         apply (within_interval_later cfg w w0);
         [reflexivity | cbn; lia | exact Hspan] |]
    end.
    exists extra. split; [exact He | exact Hl].
Qed.

Lemma alerts_rate_limited_witness :
  let cv := Examples.scripted Examples.one_circle Examples.needle_down in
  let w := Examples.world (fun _ => 1000) in
  (exists extra,
     sent (snd (loop Examples.cfg0 cv [Examples.blank; Examples.blank]
                     Examples.st0 w)) = sent w ++ extra
     /\ (length extra <= 1)%nat)
  /\ (quiet Examples.cfg0 Examples.st0 w ->
      sent (snd (loop Examples.cfg0 cv [Examples.blank; Examples.blank]
                      Examples.st0 w)) = sent w)
  /\ (exists extra,
        sent (snd (main Examples.cfg0 cv [Examples.blank; Examples.blank] w))
        = sent w ++ extra
        /\ (length extra <= 1)%nat).
Proof.
  intros cv w.
  apply (alerts_rate_limited Examples.cfg0 cv
           [Examples.blank; Examples.blank] Examples.st0 w).
  intros i j _. cbn. lra.
Defined.

(** ** The median sides with the majority *)

Lemma insert_sorted_filter (f : R -> bool) (v : R) (l : list R) :
  length (filter f (insert_sorted v l)) = length (filter f (v :: l)).
Proof.
  induction l as [| h t IH]; [reflexivity |].
  cbn [insert_sorted]. destruct (Rle_dec v h); [reflexivity |].
  cbn [filter] in *. destruct (f h), (f v); cbn [length] in *; lia.
Qed.

Lemma sort_inside (lo hi : R) (l : list R) :
  inside lo hi (sort l) = inside lo hi l.
Proof.
  unfold inside, sort. induction l as [| h t IH]; [reflexivity |].
  cbn [fold_right]. rewrite insert_sorted_filter. cbn [filter].
  destruct (between lo hi h); cbn [length]; now rewrite IH.
Qed.

Lemma filter_nothing {A : Type} (f : A -> bool) (l : list A) :
  Forall (fun a => f a = false) l -> filter f l = [].
Proof.
  induction 1 as [| a t Ha _ IH]; [reflexivity |].
  cbn. now rewrite Ha.
Qed.

(** A sorted list is its elements below [lo], then those between [lo] and
    [hi], then the others. *)
Lemma sorted_split (lo hi : R) (s : list R) :
  StronglySorted Rle s ->
  s = filter (fun a => if Rlt_dec a lo then true else false) s
      ++ filter (between lo hi) s
      ++ filter (fun a => if Rle_dec lo a
                          then if Rle_dec a hi then false else true
                          else false) s.
Proof.
  induction 1 as [| h t Hs IH Hall]; [reflexivity |].
  rewrite Forall_forall in Hall.
  cbn [filter]. unfold between at 1.
  destruct (Rlt_dec h lo) as [Hlt | Hge].
  - destruct (Rle_dec lo h); [lra |]. cbn [app]. now rewrite <- IH.
  - assert (Hbelow : filter (fun a => if Rlt_dec a lo then true else false) t
                     = []).
    { apply filter_nothing, Forall_forall. intros a Ha.
      specialize (Hall a Ha). destruct (Rlt_dec a lo); [lra | reflexivity]. }
    rewrite Hbelow in *. cbn [app] in *.
    destruct (Rle_dec lo h); [| lra].
    destruct (Rle_dec h hi) as [Hle | Hgt].
    + cbn [app]. now rewrite <- IH.
    + assert (Hmid : filter (between lo hi) t = []).
      { apply filter_nothing, Forall_forall. intros a Ha.
        specialize (Hall a Ha). unfold between.
        destruct (Rle_dec lo a); [| reflexivity].
        destruct (Rle_dec a hi); [lra | reflexivity]. }
      rewrite Hmid in *. cbn [app] in *. now rewrite <- IH.
Qed.

(** When more than half of the numbers lie between [lo] and [hi], so does
    their median. *)
Lemma median_majority (lo hi : R) (l : list R) :
  (length l < 2 * inside lo hi l)%nat ->
  exists m, median l = Some m /\ lo <= m <= hi.
Proof.
  intros Hmaj. rewrite <- sort_inside in Hmaj.
  rewrite <- (sort_length l) in Hmaj.
  unfold median.
  pose proof (sorted_split lo hi (sort l) (sort_sorted l)) as Hsplit.
  unfold inside in Hmaj.
  set (s := sort l) in *.
  set (below := filter (fun a => if Rlt_dec a lo then true else false) s)
    in *.
  set (middle := filter (between lo hi) s) in *.
  set (above := filter _ s) in Hsplit.
  assert (Hlen : length s
                 = (length below + (length middle + length above))%nat)
    by (rewrite Hsplit at 1; now rewrite !length_app).
  assert (Hnth : forall i,
            (length below <= i < length below + length middle)%nat ->
            lo <= nth i s 0 <= hi).
  { intros i Hi. rewrite Hsplit.
    rewrite app_nth2 by lia. rewrite app_nth1 by lia.
    assert (Hin : In (nth (i - length below) middle 0) middle)
      by (apply nth_In; lia).
    apply filter_In in Hin. destruct Hin as [_ Hin]. unfold between in Hin.
    destruct (Rle_dec lo (nth (i - length below) middle 0));
      [| discriminate].
    destruct (Rle_dec (nth (i - length below) middle 0) hi);
      [lra | discriminate]. }
  destruct (length s) as [| n] eqn:En; [lia |].
  destruct (Nat.even (S n)) eqn:Ev.
  - apply Nat.even_spec in Ev. destruct Ev as [k Hk].
    assert (Hdiv : (S n / 2 = k)%nat)
      by (rewrite Hk, Nat.mul_comm; apply Nat.div_mul; lia).
    rewrite Hdiv. eexists. split; [reflexivity |].
    pose proof (Hnth (k - 1)%nat ltac:(lia)).
    pose proof (Hnth k ltac:(lia)). lra.
  - assert (Hodd : Nat.odd (S n) = true)
      by (rewrite <- Nat.negb_even, Ev; reflexivity).
    apply Nat.odd_spec in Hodd. destruct Hodd as [k Hk].
    assert (Hdiv : (S n / 2 = k)%nat).
    { rewrite Hk. rewrite Nat.add_comm, Nat.mul_comm.
      rewrite Nat.div_add by lia. reflexivity. }
    rewrite Hdiv. eexists. split; [reflexivity |]. apply Hnth. lia.
Qed.

(** X27. The dial stabiliser sides with the majority.  When the median
    filter is on and more than half of the dials in the window have their
    x between two bounds, the stabilised x lies between these bounds,
    whatever the other dials of the window are; the same holds for y and
    for r.  Outliers in fewer than half of the frames cannot move the dial
    out of the range of the others. *)
Theorem stabilize_sides_with_majority
    (N : Z) (hist hist' : list Circle) (raw out : Circle)
    (xlo xhi ylo yhi rlo rhi : R) :
  (1 < N)%Z ->
  stabilize N hist raw = Some (hist', out) ->
  (length hist' < 2 * inside xlo xhi (map cx hist'))%nat ->
  (length hist' < 2 * inside ylo yhi (map cy hist'))%nat ->
  (length hist' < 2 * inside rlo rhi (map cr hist'))%nat ->
  xlo <= cx out <= xhi /\ ylo <= cy out <= yhi /\ rlo <= cr out <= rhi.
Proof.
  intros HN Hs Hx Hy Hr. unfold stabilize in Hs.
  destruct (Z.gtb_spec N 1) as [_ | Hle]; [| lia].
  destruct (Py.trim N (hist ++ [raw])) as [lst |]; [| discriminate].
  unfold median_axis0 in Hs.
  destruct (median (map (fun c : R * R * R => fst (fst c)) lst))
    as [mx |] eqn:Ex; [| discriminate].
  destruct (median (map (fun c : R * R * R => snd (fst c)) lst))
    as [my |] eqn:Ey; [| discriminate].
  destruct (median (map (fun c : R * R * R => snd c) lst))
    as [mr |] eqn:Er; [| discriminate].
  injection Hs as <- <-. cbn [cx cy cr fst snd].
  rewrite <- (length_map cx) in Hx. rewrite <- (length_map cy) in Hy.
  rewrite <- (length_map cr) in Hr.
  destruct (median_majority _ _ _ Hx) as (mx' & Hmx & Hbx).
  destruct (median_majority _ _ _ Hy) as (my' & Hmy & Hby).
  destruct (median_majority _ _ _ Hr) as (mr' & Hmr & Hbr).
  change (map cx lst) with (map (fun c : R * R * R => fst (fst c)) lst)
    in Hmx.
  change (map cy lst) with (map (fun c : R * R * R => snd (fst c)) lst)
    in Hmy.
  change (map cr lst) with (map (fun c : R * R * R => snd c) lst) in Hmr.
  rewrite Ex in Hmx. rewrite Ey in Hmy. rewrite Er in Hmr.
  injection Hmx as ->. injection Hmy as ->. injection Hmr as ->.
  now repeat split.
Qed.

Lemma stabilize_sides_with_majority_witness :
  exists hist' out,
    stabilize 3 [(0, 0, 100); (50, 60, 70)] (1, 1, 101) = Some (hist', out)
    /\ 0 <= cx out <= 1 /\ 0 <= cy out <= 1 /\ 100 <= cr out <= 101.
Proof.
  destruct (stabilize_push 3 [(0, 0, 100); (50, 60, 70)] (1, 1, 101))
    as (mx & my & mr & _ & _ & _ & Hs); [lia |].
  change (lastn (Z.to_nat 3) [(0, 0, 100); (50, 60, 70)])
    with [(0, 0, 100); (50, 60, 70)] in Hs.
  change (lastn (Z.to_nat 3) ([(0, 0, 100); (50, 60, 70)] ++ [(1, 1, 101)]))
    with [(0, 0, 100); (50, 60, 70); (1, 1, 101)] in Hs.
  eexists. eexists. split; [exact Hs |].
  apply (stabilize_sides_with_majority 3 [(0, 0, 100); (50, 60, 70)]
           [(0, 0, 100); (50, 60, 70); (1, 1, 101)] (1, 1, 101) (mx, my, mr)
           0 1 0 1 100 101); [lia | exact Hs | | |];
    unfold inside, between; cbn [map filter cx cy cr fst snd length];
    Rcases; cbn [length]; lia.
Defined.

Lemma out_of_range_majority (cfg : Config) (lo hi : R) (lst : list R) :
  (length lst < 2 * inside lo hi lst)%nat ->
  le_bound lo (min_warn cfg) = false ->
  ge_bound hi (max_warn cfg) = false ->
  out_of_range cfg (median lst) = false.
Proof.
  intros Hmaj Hlo Hhi.
  destruct (median_majority lo hi lst Hmaj) as (m & -> & Hm).
  unfold out_of_range, le_bound, ge_bound in *.
  destruct (min_warn cfg) as [| v |], (max_warn cfg) as [| v' |];
    try discriminate; cbn [orb];
    repeat match goal with
           | H : (if ?d then true else false) = false |- _ =>
               destruct d; [discriminate | clear H]
           end;
    Rcases; reflexivity.
Qed.

(** X28. The out-of-range alert sides with the majority.  When more than
    half of the values in the window, the new one included, lie between
    two numbers that are themselves inside the warning thresholds, a frame
    that resolves a value sends no out-of-range alert, however far out the
    other values are, and keeps the time of the last alert. *)
Theorem outliers_raise_no_alert (cfg : Config) (value lo hi : R)
    (st : State) (w : World) (lst : list R) :
  Py.trim (median_filter_value_N cfg) (values_lst st ++ [value]) = Some lst ->
  (length lst < 2 * inside lo hi lst)%nat ->
  le_bound lo (min_warn cfg) = false ->
  ge_bound hi (max_warn cfg) = false ->
  exists st' w',
    process_value cfg value st w = (Some st', w')
    /\ values_lst st' = lst
    /\ sent w' = sent w
    /\ last_warn_time st' = last_warn_time st.
Proof.
  intros Htrim Hmaj Hlo Hhi.
  destruct (process_value_run cfg value st w lst Htrim)
    as (st' & w' & k & Hrun & _ & _ & _ & _ & Hv & _ & _ & Hif).
  exists st', w'. split; [exact Hrun |]. split; [exact Hv |].
  assert (Hdue : alert_due cfg st lst (clock w (ticks w)) = false).
  { unfold alert_due.
    rewrite (out_of_range_majority cfg lo hi lst Hmaj Hlo Hhi).
    apply andb_false_r. }
  rewrite Hdue in Hif. exact Hif.
Qed.

Lemma outliers_raise_no_alert_witness :
  exists st' w',
    process_value MoreExamples.cfg3 20 MoreExamples.st_outlier
                  (Examples.world (fun _ => 1000))
    = (Some st', w')
    /\ values_lst st' = [10; 1000; 20]
    /\ sent w' = sent (Examples.world (fun _ => 1000))
    /\ last_warn_time st' = last_warn_time MoreExamples.st_outlier.
Proof.
  apply (outliers_raise_no_alert MoreExamples.cfg3 20 10 20
           MoreExamples.st_outlier (Examples.world (fun _ => 1000))
           [10; 1000; 20]).
  - reflexivity.
  - unfold inside, between. cbn [filter length]. Rcases. cbn [length]. lia.
  - cbn. Rcases; reflexivity.
  - cbn. Rcases; reflexivity.
Defined.

(** ** The two fixed-level threshold modes *)

(** X29. The two threshold modes with a fixed level have opposite
    polarity.  For a level that is not negative, mode 'binary' (which is
    also what no mode gives) turns a pixel into 0 or 255 and mode 'gray'
    into 0 or the pixel itself, and a pixel is 0 in the one exactly when it
    is not 0 in the other: what lies above the level is background for
    'binary' and is kept by 'gray'. *)
Theorem fixed_level_modes_opposite (cv : Capability) (gray : Image)
    (threshold blur_size : Z) (i j : nat) (p : Z) :
  (0 <= threshold)%Z ->
  pixel gray i j = Some p ->
  exists b g,
    pixel (apply_threshold cv gray (Some ThresholdMode.binary)
                           threshold blur_size) i j = Some b
    /\ pixel (apply_threshold cv gray (Some ThresholdMode.gray)
                              threshold blur_size) i j = Some g
    /\ (b = 0 \/ b = 255)%Z /\ (g = 0 \/ g = p)%Z
    /\ (b = 0 <-> g <> 0)%Z
    /\ apply_threshold cv gray None threshold blur_size
       = apply_threshold cv gray (Some ThresholdMode.binary)
                         threshold blur_size.
Proof.
  intros Ht Hp. unfold apply_threshold, THRESH_BINARY_INV, THRESH_TOZERO.
  rewrite !pixel_map_pixels, Hp. cbn [option_map].
  destruct (Z.gtb_spec p threshold) as [Hgt | Hle].
  - exists 0%Z, p. repeat split; auto; lia.
  - exists 255%Z, 0%Z. repeat split; auto; lia.
Qed.

Lemma fixed_level_modes_opposite_witness :
  exists b g,
    pixel (apply_threshold
             (Examples.scripted Examples.one_circle Examples.needle_down)
             Examples.blank (Some ThresholdMode.binary) 175 5) 0 0 = Some b
    /\ pixel (apply_threshold
                (Examples.scripted Examples.one_circle Examples.needle_down)
                Examples.blank (Some ThresholdMode.gray) 175 5) 0 0 = Some g
    /\ (b = 0 \/ b = 255)%Z /\ (g = 0 \/ g = 0)%Z
    /\ (b = 0 <-> g <> 0)%Z
    /\ apply_threshold
         (Examples.scripted Examples.one_circle Examples.needle_down)
         Examples.blank None 175 5
       = apply_threshold
           (Examples.scripted Examples.one_circle Examples.needle_down)
           Examples.blank (Some ThresholdMode.binary) 175 5.
Proof.
  apply (fixed_level_modes_opposite
           (Examples.scripted Examples.one_circle Examples.needle_down)
           Examples.blank 175 5 0 0 0); [lia | reflexivity].
Defined.
